(** * BSONColumnBuilder: a shallow embedding of
      src/mongo/bson/util/bsoncolumnbuilder.cpp

    The development follows the source file top-down: BSON values and their
    byte images, the type utilities, the Simple-8b collaborator (an interface,
    since its code lives outside the file), the anonymous-namespace helpers
    (_traverse, _traverseLockStep, _mergeObj), EncodingState, and the
    BSONColumnBuilder itself.  Theorems come after all definitions. *)

From Stdlib Require Import ZArith List Bool String Ascii Lia.
From Stdlib Require Import PrimFloat Uint63 FloatOps SpecFloat.
From Stdlib Require Import Permutation.
Import ListNotations.
Open Scope Z_scope.
Open Scope list_scope.
#[local] Set Warnings "-register-all".

(* ================================================================== *)
(** ** BSON types and values *)
(* ================================================================== *)

(** The BSONType enumeration, with the numeric codes of the BSON format. *)
Inductive BSONType : Type :=
| EOO | NumberDouble | String | Object | Array | BinData | Undefined
| jstOID | Bool | Date | jstNULL | RegEx | DBRef | Code | Symbol
| CodeWScope | NumberInt | bsonTimestamp | NumberLong | NumberDecimal
| MinKey | MaxKey.

Definition typeCode (t : BSONType) : Z :=
  match t with
  | EOO => 0 | NumberDouble => 1 | String => 2 | Object => 3 | Array => 4
  | BinData => 5 | Undefined => 6 | jstOID => 7 | Bool => 8 | Date => 9
  | jstNULL => 10 | RegEx => 11 | DBRef => 12 | Code => 13 | Symbol => 14
  | CodeWScope => 15 | NumberInt => 16 | bsonTimestamp => 17
  | NumberLong => 18 | NumberDecimal => 19 | MinKey => -1 | MaxKey => 127
  end.

Definition BSONType_eqb (a b : BSONType) : bool := typeCode a =? typeCode b.

(** A value payload.  Scalars carry the integer the C++ getter returns
    (doubles and decimals carry their bit pattern, as the element stores
    them); arrays and code-with-scope, which the builder never looks into,
    carry their raw payload bytes. *)
Inductive BSONValue : Type :=
| VEOO
| VDouble (bits : Z)
| VString (s : list Z)
| VObject (fields : list (string * BSONValue))
| VArray (raw : list Z)
| VBinData (subtype : Z) (data : list Z)
| VUndefined
| VOID (oid : list Z)
| VBool (b : bool)
| VDate (millis : Z)
| VNull
| VRegEx (pattern flags : list Z)
| VDBRef (ns : list Z) (oid : list Z)
| VCode (code : list Z)
| VSymbol (s : list Z)
| VCodeWScope (raw : list Z)
| VInt (n : Z)
| VTimestamp (t : Z)
| VLong (n : Z)
| VDecimal (bits : Z)
| VMinKey
| VMaxKey.

(** BSONElement: a field name and a value.  BSONObj: its fields in order. *)
Definition BSONElement : Type := (string * BSONValue)%type.
Definition BSONObj : Type := list BSONElement.

(** BSONElement(): the EOO element with an empty field name. *)
Definition eooElement : BSONElement := (EmptyString, VEOO).

Definition valueType (v : BSONValue) : BSONType :=
  match v with
  | VEOO => EOO | VDouble _ => NumberDouble | VString _ => String
  | VObject _ => Object | VArray _ => Array | VBinData _ _ => BinData
  | VUndefined => Undefined | VOID _ => jstOID | VBool _ => Bool
  | VDate _ => Date | VNull => jstNULL | VRegEx _ _ => RegEx
  | VDBRef _ _ => DBRef | VCode _ => Code | VSymbol _ => Symbol
  | VCodeWScope _ => CodeWScope | VInt _ => NumberInt
  | VTimestamp _ => bsonTimestamp | VLong _ => NumberLong
  | VDecimal _ => NumberDecimal | VMinKey => MinKey | VMaxKey => MaxKey
  end.

Definition elemType (e : BSONElement) : BSONType := valueType (snd e).
Definition fieldName (e : BSONElement) : string := fst e.
Definition eoo (e : BSONElement) : bool := BSONType_eqb (elemType e) EOO.
Definition isObject (v : BSONValue) : bool :=
  match v with VObject _ => true | _ => false end.
Definition isEmpty (o : BSONObj) : bool :=
  match o with [] => true | _ => false end.

(** Little-endian image of [x] on [n] bytes (two's complement for x < 0). *)
Fixpoint le (n : nat) (x : Z) : list Z :=
  match n with
  | O => []
  | S k => (x mod 256) :: le k (x / 256)
  end.

Definition cstring (s : string) : list Z :=
  map (fun a => Z.of_N (N_of_ascii a)) (list_ascii_of_string s) ++ [0].

Definition lenPrefixed (s : list Z) : list Z :=
  le 4 (Z.of_nat (List.length s) + 1) ++ s ++ [0].

(** BSONElement::value() .. value()+valuesize(): the payload bytes. *)
Fixpoint valueBytes (v : BSONValue) : list Z :=
  match v with
  | VEOO | VUndefined | VNull | VMinKey | VMaxKey => []
  | VDouble bits => le 8 bits
  | VString s | VCode s | VSymbol s => lenPrefixed s
  | VObject fields =>
      let body :=
        flat_map (fun e => (Z.land (typeCode (valueType (snd e))) 255
                              :: cstring (fst e)) ++ valueBytes (snd e)) fields in
      le 4 (Z.of_nat (List.length body) + 5) ++ body ++ [0]
  | VArray raw | VCodeWScope raw => raw
  | VBinData st d => le 4 (Z.of_nat (List.length d)) ++ [st] ++ d
  | VOID oid => oid
  | VBool b => [if b then 1 else 0]
  | VDate x | VTimestamp x | VLong x => le 8 x
  | VRegEx p f => p ++ [0] ++ f ++ [0]
  | VDBRef ns oid => lenPrefixed ns ++ oid
  | VInt n => le 4 n
  | VDecimal bits => le 16 bits
  end.

(** BSONObj::objdata() .. objdata()+objsize(). *)
Definition objdata (o : BSONObj) : list Z := valueBytes (VObject o).

(** BSONElement::binaryEqualValues: same type and the same payload bytes. *)
Definition list_Z_eqb (a b : list Z) : bool :=
  if list_eq_dec Z.eq_dec a b then true else false.

Definition binaryEqualValues (a b : BSONElement) : bool :=
  BSONType_eqb (elemType a) (elemType b)
  && list_Z_eqb (valueBytes (snd a)) (valueBytes (snd b)).

(* ================================================================== *)
(** ** Anonymous-namespace helpers: traversal *)
(* ================================================================== *)

(** The calls made to the [elemFunc] callback, in order: each is a pair
    (reference element, element of obj or BSONElement()). *)
Definition Calls : Type := list (BSONElement * BSONElement).

(** _traverse(reference, elemFunc): the callback is applied to every
    non-Object element, walking into sub-objects depth first. *)
Fixpoint traverseValue (name : string) (v : BSONValue) : Calls :=
  match v with
  | VObject fields => flat_map (fun e => traverseValue (fst e) (snd e)) fields
  | _ => [((name, v), eooElement)]
  end.

Definition _traverse (reference : BSONObj) : Calls :=
  flat_map (fun e => traverseValue (fst e) (snd e)) reference.

(** The range-for of _traverseLockStep over the elements of [reference],
    with the recursive call on a sub-object passed in as [descend].  The
    result is the calls made to the callback, the position of the iterator
    over [obj] (the elements not consumed yet) and the compatibility flag. *)
Fixpoint lockStepLoop (descend : BSONValue -> BSONObj -> Calls * BSONObj * bool)
    (refs : BSONObj) (it : BSONObj) (acc : Calls) {struct refs}
  : Calls * BSONObj * bool :=
  match refs with
  | [] => (acc, it, isEmpty it)
  | (name, v) :: refs' =>
      match v with
      | VObject refObj =>
          match it with
          | [] =>
              (* !hasIt *)
              if isEmpty refObj then (acc, it, false)
              else lockStepLoop descend refs' it (acc ++ traverseValue name v)
          | (iname, iv) :: it' =>
              if String.eqb name iname then
                match iv with
                | VObject itObj =>
                    if negb (Bool.eqb (isEmpty refObj) (isEmpty itObj))
                    then (acc, it, false)
                    else
                      let '(calls, _, compatible) := descend v itObj in
                      if compatible
                      then lockStepLoop descend refs' it' (acc ++ calls)
                      else (acc ++ calls, it', false)
                | _ => (acc, it, false)
                end
              else lockStepLoop descend refs' it (acc ++ traverseValue name v)
          end
      | _ =>
          match it with
          | (iname, iv) :: it' =>
              if String.eqb name iname
              then lockStepLoop descend refs' it' (acc ++ [((name, v), (iname, iv))])
              else lockStepLoop descend refs' it (acc ++ [((name, v), eooElement)])
          | [] => lockStepLoop descend refs' it (acc ++ [((name, v), eooElement)])
          end
      end
  end.

(** _traverseLockStep(reference, obj, elemFunc), by recursion on the nesting
    of [reference] (given as the Object value that holds it). *)
Fixpoint lockStepValue (refv : BSONValue) (obj : BSONObj) {struct refv}
  : Calls * BSONObj * bool :=
  match refv with
  | VObject reference => lockStepLoop lockStepValue reference obj []
  | _ => ([], obj, true)
  end.

Definition _traverseLockStep (reference obj : BSONObj) : Calls * BSONObj * bool :=
  lockStepValue (VObject reference) obj.

(** traverseLockStep(reference, obj, elemFunc): the calls made and whether
    the hierarchies are compatible. *)
Definition traverseLockStep (reference obj : BSONObj) : Calls * bool :=
  let '(calls, it, hierachyMatch) := _traverseLockStep reference obj in
  (calls, hierachyMatch && isEmpty it).

(** Leaves of an object as the specification's glossary has them: the
    non-Object fields reached by a pre-order traversal. *)
Fixpoint leavesValue (name : string) (v : BSONValue) : list BSONElement :=
  match v with
  | VObject fields => flat_map (fun e => leavesValue (fst e) (snd e)) fields
  | _ => [(name, v)]
  end.

Definition leaves (o : BSONObj) : list BSONElement :=
  flat_map (fun e => leavesValue (fst e) (snd e)) o.

(* ================================================================== *)
(** ** Anonymous-namespace helpers: merging *)
(* ================================================================== *)

(** BSONObjBuilder::hasField on the fields appended so far. *)
Definition hasField (built : BSONObj) (name : string) : bool :=
  existsb (fun e => String.eqb (fieldName e) name) built.

(** The two tail loops of _mergeObj: the remaining elements of one object
    are appended; an empty sub-object or a field seen before fails. *)
Fixpoint mergeRemaining (rest : BSONObj) (built : BSONObj) : option BSONObj :=
  match rest with
  | [] => Some built
  | (name, v) :: rest' =>
      match v with
      | VObject [] => None
      | _ => if hasField built name then None
             else mergeRemaining rest' (built ++ [(name, v)])
      end
  end.

(** The while loop of _mergeObj.  [refs] and [it] are the two iterators,
    [built] the fields the builder holds; [descend] is the recursive call on
    a pair of sub-objects (with a sub-builder of its own). *)
Fixpoint mergeLoop (descend : BSONValue -> BSONObj -> option BSONObj)
    (refs : BSONObj) {struct refs} : BSONObj -> BSONObj -> option BSONObj :=
  fix inner (it : BSONObj) (built : BSONObj) {struct it} : option BSONObj :=
    match refs with
    | [] => mergeRemaining it built
    | (name, rv) :: refs' =>
        match it with
        | [] => mergeRemaining refs built
        | (iname, iv) :: it' =>
            if String.eqb name iname then
              match rv, iv with
              | VObject refObj, VObject itObj =>
                  if negb (Bool.eqb (isEmpty refObj) (isEmpty itObj)) then None
                  else
                    match descend rv itObj with
                    | None => None
                    | Some sub =>
                        mergeLoop descend refs' it' (built ++ [(name, VObject sub)])
                    end
              | VObject _, _ => None
              | _, VObject _ => None
              | _, _ => mergeLoop descend refs' it' (built ++ [(name, rv)])
              end
            else if existsb (fun e => String.eqb (fieldName e) name) it' then
              (* the reference element exists later in obj *)
              if hasField built iname then None
              else inner it' (built ++ [(iname, iv)])
            else
              (* the reference element does not exist in obj *)
              mergeLoop descend refs' it (built ++ [(name, rv)])
        end
    end.

(** _mergeObj(builder, reference, obj) started on an empty builder. *)
Fixpoint mergeValue (refv : BSONValue) (obj : BSONObj) {struct refv}
  : option BSONObj :=
  match refv with
  | VObject reference => mergeLoop mergeValue reference obj []
  | _ => None
  end.

(** mergeObj(reference, obj): the merged object, or None where the source
    returns the empty-prototype BSONObj(). *)
Definition mergeObj (reference obj : BSONObj) : option BSONObj :=
  mergeValue (VObject reference) obj.

(* ================================================================== *)
(** ** Constants and type utilities *)
(* ================================================================== *)

Definition kMaxCount : Z := 16.
Definition kCountMask : Z := 0x0F.
Definition kControlMask : Z := 0xF0.
Definition kNoSimple8bControl : Z := -1.
Definition kElementCountBytes : nat := 4.
Definition kMemoryAsInteger : Z := 5.
Definition kControlByteForScaleIndex : list Z :=
  [0x90; 0xA0; 0xB0; 0xC0; 0xD0; 0x80].

(** Two's-complement wrap-around to a signed and to an unsigned w-bit
    integer. *)
Definition wrapS (w x : Z) : Z := (x + 2 ^ (w - 1)) mod 2 ^ w - 2 ^ (w - 1).
Definition wrapU (w x : Z) : Z := x mod 2 ^ w.

(** Modelled from the spec: bsoncolumn_util.h and simple8b_type_util.h are
    not part of the sources.  The spec has the delta as current minus
    previous in the encoded domain (a signed 64-bit or 128-bit integer) and
    encodeInt64 / encodeInt128 as zig-zag; delta-of-delta is used only for
    Timestamp, the 128-bit path for String, Binary and Decimal128. *)
Definition calcDelta (val prev : Z) : Z := wrapS 64 (val - prev).
Definition calcDelta128 (val prev : Z) : Z := wrapS 128 (val - prev).
Definition expandDelta (prev delta : Z) : Z := wrapS 64 (prev + delta).
Definition encodeInt64 (v : Z) : Z :=
  wrapU 64 (Z.lxor (Z.shiftl v 1) (Z.shiftr v 63)).
Definition decodeInt64 (u : Z) : Z :=
  Z.lxor (Z.shiftr u 1) (- Z.land u 1).
Definition encodeInt128 (v : Z) : Z :=
  wrapU 128 (Z.lxor (Z.shiftl v 1) (Z.shiftr v 127)).
Definition usesDeltaOfDelta (t : BSONType) : bool := BSONType_eqb t bsonTimestamp.
Definition uses128bit (t : BSONType) : bool :=
  match t with String | BinData | NumberDecimal => true | _ => false end.

(** Modelled from the spec: the control-byte helpers of bsoncolumn_util.h.
    The block count of a Simple-8b run is its lower nibble plus one. *)
Definition numSimple8bBlocksForControlByte (control : Z) : Z :=
  Z.land control kCountMask + 1.

(* ================================================================== *)
(** ** Collaborators *)
(* ================================================================== *)

(** Simple8bBuilder<T>: the packer is a collaborator whose code is outside
    the sources.  [s8b_append], [s8b_skip] and [s8b_flush] return the blocks
    handed to the write callback, in order; [s8b_pending] is the iteration
    begin()..end() over the values not written yet (None for a skip).
    Flushing a builder that was never used writes nothing. *)
Record Simple8bBuilder : Type := {
  s8b : Type;
  s8b_new : s8b;
  s8b_append : s8b -> Z -> bool * list Z * s8b;
  s8b_skip : s8b -> list Z * s8b;
  s8b_flush : s8b -> list Z * s8b;
  s8b_pending : s8b -> list (option Z);
  s8b_flush_new : s8b_flush s8b_new = ([], s8b_new)
}.

(** Everything the source file calls and does not define.  Doubles are
    passed as their 64-bit pattern.  [encodeDoubleScaled] and
    [decodeDoubleScaled] are Simple8bTypeUtil::encodeDouble and decodeDouble
    at the decimal scale indices 0..4. *)
Record Collaborators : Type := {
  S64 : Simple8bBuilder;
  S128 : Simple8bBuilder;
  blockSize : Z -> Z;
  encodeDoubleScaled : Z -> Z -> option Z;
  decodeDoubleScaled : Z -> Z -> Z;
  encodeObjectId : list Z -> Z;
  encodeString : list Z -> option Z;
  encodeBinary : list Z -> option Z;
  encodeDecimal128 : Z -> Z;
  kInterleavedStartControlByte : Z;
  isLiteralControlByte : Z -> bool
}.

(** How a call ends: normally; with a uassert exception (the state is the
    one the exception leaves behind); by an invariant, MONGO_UNREACHABLE or
    undefined behaviour; or with the replay of pending doubles nested deeper
    than the bound the embedding runs with. *)
Inductive Outcome (A : Type) : Type :=
| Ok (a : A)
| Throw (a : A)
| Fatal
| OutOfFuel.
Arguments Ok {A} a.
Arguments Throw {A} a.
Arguments Fatal {A}.
Arguments OutOfFuel {A}.

(* ================================================================== *)
(** ** BSONColumnBuilder::EncodingState *)
(* ================================================================== *)

Section Builder.

Variable C : Collaborators.

(** The nesting bound for the replay of pending doubles in _appendDouble
    (the only recursion of the source that is not on the structure of its
    input). *)
Variable replayDepth : nat.

(** Modelled from the spec: at kMemoryAsInteger the bit pattern of the
    double is reinterpreted as an integer, which always succeeds. *)
Definition encodeDouble (val scaleIndex : Z) : option Z :=
  if scaleIndex =? kMemoryAsInteger then Some (wrapS 64 val)
  else encodeDoubleScaled C val scaleIndex.

Definition decodeDouble (val scaleIndex : Z) : Z :=
  if scaleIndex =? kMemoryAsInteger then wrapU 64 val
  else decodeDoubleScaled C val scaleIndex.

(** scaleAndEncodeDouble(value, minScaleIndex): the indices are tried
    upwards from minScaleIndex; kMemoryAsInteger ends the loop.  (With
    minScaleIndex above kMemoryAsInteger the source indexes past its scale
    table; no caller does.) *)
Fixpoint scaleAndEncodeFrom (tries : nat) (value idx : Z) : Z * Z :=
  match encodeDouble value idx with
  | Some encoded => (encoded, idx)
  | None =>
      match tries with
      | O => (wrapS 64 value, idx)
      | S k => scaleAndEncodeFrom k value (idx + 1)
      end
  end.

Definition scaleAndEncodeDouble (value minScaleIndex : Z) : Z * Z :=
  scaleAndEncodeFrom (Z.to_nat (kMemoryAsInteger - minScaleIndex)) value minScaleIndex.

(** objectIdDeltaPossible(elem, prev): the instance-unique bytes (offsets
    4..8 of the twelve) are the same. *)
Definition getInstanceUnique (oid : list Z) : list Z := firstn 5 (skipn 4 oid).

Definition objectIdDeltaPossible (elem prev : list Z) : bool :=
  list_Z_eqb (getInstanceUnique prev) (getInstanceUnique elem).

(** The members of EncodingState.  [_prev] is the element image kept by
    _storePrevious (type byte, empty field name, payload), held as the value
    it encodes.  [_bufBuilder] is a pointer in the source: the buffer it
    points to is passed to every operation as a [Sink].  A null
    [_controlBlockWriter] is [false]; a non-null one appends (offset, size)
    to the deque paired with the buffer. *)
Record EncodingState : Type := mkES {
  _prev : BSONValue;
  _prevDelta : Z;
  _simple8bBuilder64 : s8b (S64 C);
  _simple8bBuilder128 : s8b (S128 C);
  _storeWith128 : bool;
  _controlByteOffset : Z;
  _prevEncoded64 : Z;
  _prevEncoded128 : Z;
  _lastValueInPrevBlock : Z;
  _scaleIndex : Z;
  _controlBlockWriter : bool
}.

(** A BufBuilder and the control blocks recorded for it: an element of
    _subobjBuffers; for the main state, the output buffer with no records. *)
Definition Sink : Type := (list Z * list (Z * Z))%type.

Definition bufLen (sink : Sink) : Z := Z.of_nat (List.length (fst sink)).

Definition set_prev (es : EncodingState) (v : BSONValue) : EncodingState :=
  mkES v (_prevDelta es) (_simple8bBuilder64 es) (_simple8bBuilder128 es)
       (_storeWith128 es) (_controlByteOffset es) (_prevEncoded64 es)
       (_prevEncoded128 es) (_lastValueInPrevBlock es) (_scaleIndex es)
       (_controlBlockWriter es).

Definition set_prevDelta (es : EncodingState) (d : Z) : EncodingState :=
  mkES (_prev es) d (_simple8bBuilder64 es) (_simple8bBuilder128 es)
       (_storeWith128 es) (_controlByteOffset es) (_prevEncoded64 es)
       (_prevEncoded128 es) (_lastValueInPrevBlock es) (_scaleIndex es)
       (_controlBlockWriter es).

Definition set_builder64 (es : EncodingState) (b : s8b (S64 C)) : EncodingState :=
  mkES (_prev es) (_prevDelta es) b (_simple8bBuilder128 es)
       (_storeWith128 es) (_controlByteOffset es) (_prevEncoded64 es)
       (_prevEncoded128 es) (_lastValueInPrevBlock es) (_scaleIndex es)
       (_controlBlockWriter es).

Definition set_builder128 (es : EncodingState) (b : s8b (S128 C)) : EncodingState :=
  mkES (_prev es) (_prevDelta es) (_simple8bBuilder64 es) b
       (_storeWith128 es) (_controlByteOffset es) (_prevEncoded64 es)
       (_prevEncoded128 es) (_lastValueInPrevBlock es) (_scaleIndex es)
       (_controlBlockWriter es).

Definition set_storeWith128 (es : EncodingState) (b : bool) : EncodingState :=
  mkES (_prev es) (_prevDelta es) (_simple8bBuilder64 es) (_simple8bBuilder128 es)
       b (_controlByteOffset es) (_prevEncoded64 es)
       (_prevEncoded128 es) (_lastValueInPrevBlock es) (_scaleIndex es)
       (_controlBlockWriter es).

Definition set_controlByteOffset (es : EncodingState) (off : Z) : EncodingState :=
  mkES (_prev es) (_prevDelta es) (_simple8bBuilder64 es) (_simple8bBuilder128 es)
       (_storeWith128 es) off (_prevEncoded64 es)
       (_prevEncoded128 es) (_lastValueInPrevBlock es) (_scaleIndex es)
       (_controlBlockWriter es).

Definition set_prevEncoded64 (es : EncodingState) (x : Z) : EncodingState :=
  mkES (_prev es) (_prevDelta es) (_simple8bBuilder64 es) (_simple8bBuilder128 es)
       (_storeWith128 es) (_controlByteOffset es) x
       (_prevEncoded128 es) (_lastValueInPrevBlock es) (_scaleIndex es)
       (_controlBlockWriter es).

Definition set_prevEncoded128 (es : EncodingState) (x : Z) : EncodingState :=
  mkES (_prev es) (_prevDelta es) (_simple8bBuilder64 es) (_simple8bBuilder128 es)
       (_storeWith128 es) (_controlByteOffset es) (_prevEncoded64 es)
       x (_lastValueInPrevBlock es) (_scaleIndex es)
       (_controlBlockWriter es).

Definition set_lastValueInPrevBlock (es : EncodingState) (x : Z) : EncodingState :=
  mkES (_prev es) (_prevDelta es) (_simple8bBuilder64 es) (_simple8bBuilder128 es)
       (_storeWith128 es) (_controlByteOffset es) (_prevEncoded64 es)
       (_prevEncoded128 es) x (_scaleIndex es)
       (_controlBlockWriter es).

Definition set_scaleIndex (es : EncodingState) (x : Z) : EncodingState :=
  mkES (_prev es) (_prevDelta es) (_simple8bBuilder64 es) (_simple8bBuilder128 es)
       (_storeWith128 es) (_controlByteOffset es) (_prevEncoded64 es)
       (_prevEncoded128 es) (_lastValueInPrevBlock es) x
       (_controlBlockWriter es).

(** EncodingState(bufBuilder, controlBlockWriter): EOO is stored as the
    previous element; the members with a default initializer are zero. *)
Definition newEncodingState (controlBlockWriter : bool) : EncodingState :=
  mkES VEOO 0 (s8b_new (S64 C)) (s8b_new (S128 C)) false kNoSimple8bControl
       0 0 0 kMemoryAsInteger controlBlockWriter.

(** operator=(EncodingState&&): every member is moved except the two
    Simple-8b builders, which stay as they are. *)
Definition assignEncodingState (this rhs : EncodingState) : EncodingState :=
  mkES (_prev rhs) (_prevDelta rhs) (_simple8bBuilder64 this)
       (_simple8bBuilder128 this) (_storeWith128 rhs) (_controlByteOffset rhs)
       (_prevEncoded64 rhs) (_prevEncoded128 rhs) (_lastValueInPrevBlock rhs)
       (_scaleIndex rhs) (_controlBlockWriter rhs).

(** _previous(): the stored image read back as an element (its field name
    is empty). *)
Definition _previous (es : EncodingState) : BSONElement := (EmptyString, _prev es).

(** _storePrevious(elem): the element is copied without its field name. *)
Definition _storePrevious (es : EncodingState) (elem : BSONElement) : EncodingState :=
  set_prev es (snd elem).

(** The image _storePrevious keeps and _writeLiteralFromPrevious writes:
    the type byte, the terminator of the empty field name, the payload. *)
Definition prevImage (v : BSONValue) : list Z :=
  Z.land (typeCode (valueType v)) 255 :: 0 :: valueBytes v.

(** _controlBlockWriter(buf + offset, size), when it is not null. *)
Definition writeControlBlock (es : EncodingState) (sink : Sink) (offset size : Z) : Sink :=
  if _controlBlockWriter es then (fst sink, snd sink ++ [(offset, size)]) else sink.

(** A one-byte store at [offset] of the buffer.  Outside the buffer the
    source has undefined behaviour; the store is then dropped here. *)
Definition pokeByte (buf : list Z) (offset b : Z) : list Z :=
  if (0 <=? offset) && (offset <? Z.of_nat (List.length buf))
  then firstn (Z.to_nat offset) buf ++ b :: skipn (S (Z.to_nat offset)) buf
  else buf.

Definition peekByte (buf : list Z) (offset : Z) : Z := nth (Z.to_nat offset) buf 0.

Definition controlForScale (scaleIndex : Z) : Z :=
  nth (Z.to_nat scaleIndex) kControlByteForScaleIndex 0.

(** The tail of _incrementSimple8bCount: the count is written back and the
    offset is cleared when the run is full.  The result is the returned
    offset, the state and the buffer. *)
Definition writeBackCount (es : EncodingState) (sink : Sink) (control count : Z)
  : Z * EncodingState * Sink :=
  let sink' := (pokeByte (fst sink) (_controlByteOffset es)
                         (Z.lor control (Z.land count kCountMask)), snd sink) in
  if count + 1 =? kMaxCount
  then (_controlByteOffset es, set_controlByteOffset es kNoSimple8bControl, sink')
  else (kNoSimple8bControl, es, sink').

(** The branch of _incrementSimple8bCount taken when no control byte is
    open: one is allocated at the end of the buffer. *)
Definition allocateControlByte (es : EncodingState) (sink : Sink)
  : Z * EncodingState * Sink :=
  let control := controlForScale (_scaleIndex es) in
  let es1 := set_controlByteOffset es (bufLen sink) in
  writeBackCount es1 (fst sink ++ [0], snd sink) control 0.

(** _incrementSimple8bCount().  Its one recursive call is made with the
    offset cleared and so takes the allocating branch. *)
Definition _incrementSimple8bCount (es : EncodingState) (sink : Sink)
  : Z * EncodingState * Sink :=
  let control := controlForScale (_scaleIndex es) in
  if _controlByteOffset es =? kNoSimple8bControl then allocateControlByte es sink
  else
    let byte := peekByte (fst sink) (_controlByteOffset es) in
    if negb (Z.land byte kControlMask =? control) then
      let sink1 := writeControlBlock es sink (_controlByteOffset es)
                                     (bufLen sink - _controlByteOffset es) in
      let es1 := set_controlByteOffset es kNoSimple8bControl in
      let '(_, es2, sink2) := allocateControlByte es1 sink1 in
      (kNoSimple8bControl, es2, sink2)
    else writeBackCount es sink control (Z.land byte kCountMask + 1).

(** The write callback made by _createBufferWriter(), applied to one
    block. *)
Definition bufferWriter (st : EncodingState * Sink) (block : Z)
  : EncodingState * Sink :=
  let '(es, sink) := st in
  let '(fullControlOffset, es1, sink1) := _incrementSimple8bCount es sink in
  let sink2 : Sink := (fst sink1 ++ le 8 block, snd sink1) in
  let sink3 :=
    if negb (fullControlOffset =? kNoSimple8bControl)
    then writeControlBlock es1 sink2 fullControlOffset (bufLen sink2 - fullControlOffset)
    else sink2 in
  let es2 :=
    match _prev es1 with
    | VDouble d => set_lastValueInPrevBlock es1 d
    | _ => es1
    end in
  (es2, sink3).

Definition isEmptyBlocks (blocks : list Z) : bool :=
  match blocks with [] => true | _ => false end.

(** The callback applied to the blocks an operation of a Simple-8b builder
    hands out, in order. *)
Definition writeBlocks (st : EncodingState * Sink) (blocks : list Z)
  : EncodingState * Sink :=
  fold_left bufferWriter blocks st.

(** _simple8bBuilder64/128 .flush(), .skip() and .append(v): the builder
    moves on and the write callback runs on every block it hands out. *)
Definition flush64 (st : EncodingState * Sink) : EncodingState * Sink :=
  let '(blocks, b) := s8b_flush (S64 C) (_simple8bBuilder64 (fst st)) in
  let '(es1, sink1) := writeBlocks st blocks in
  (set_builder64 es1 b, sink1).

Definition flush128 (st : EncodingState * Sink) : EncodingState * Sink :=
  let '(blocks, b) := s8b_flush (S128 C) (_simple8bBuilder128 (fst st)) in
  let '(es1, sink1) := writeBlocks st blocks in
  (set_builder128 es1 b, sink1).

Definition skip64 (st : EncodingState * Sink) : EncodingState * Sink :=
  let '(blocks, b) := s8b_skip (S64 C) (_simple8bBuilder64 (fst st)) in
  let '(es1, sink1) := writeBlocks st blocks in
  (set_builder64 es1 b, sink1).

Definition skip128 (st : EncodingState * Sink) : EncodingState * Sink :=
  let '(blocks, b) := s8b_skip (S128 C) (_simple8bBuilder128 (fst st)) in
  let '(es1, sink1) := writeBlocks st blocks in
  (set_builder128 es1 b, sink1).

Definition append64 (st : EncodingState * Sink) (v : Z)
  : bool * (EncodingState * Sink) :=
  let '(ok, blocks, b) := s8b_append (S64 C) (_simple8bBuilder64 (fst st)) v in
  let '(es1, sink1) := writeBlocks st blocks in
  (ok, (set_builder64 es1 b, sink1)).

Definition append128 (st : EncodingState * Sink) (v : Z)
  : bool * (EncodingState * Sink) :=
  let '(ok, blocks, b) := s8b_append (S128 C) (_simple8bBuilder128 (fst st)) v in
  let '(es1, sink1) := writeBlocks st blocks in
  (ok, (set_builder128 es1 b, sink1)).

(** _initializeFromPrevious(). *)
Definition _initializeFromPrevious (es : EncodingState) : EncodingState :=
  let es1 := set_storeWith128 es (uses128bit (valueType (_prev es))) in
  match _prev es with
  | VDouble d =>
      let es2 := set_lastValueInPrevBlock es1 d in
      let '(encoded, scaleIndex) := scaleAndEncodeDouble d 0 in
      set_scaleIndex (set_prevEncoded64 es2 encoded) scaleIndex
  | VString s =>
      set_prevEncoded128 es1 (match encodeString C s with Some x => x | None => 0 end)
  | VBinData _ data =>
      set_prevEncoded128 es1 (match encodeBinary C data with Some x => x | None => 0 end)
  | VDecimal d => set_prevEncoded128 es1 (encodeDecimal128 C d)
  | VOID oid => set_prevEncoded64 es1 (encodeObjectId C oid)
  | _ => es1
  end.

(** _writeLiteralFromPrevious(). *)
Definition _writeLiteralFromPrevious (st : EncodingState * Sink)
  : EncodingState * Sink :=
  let '(es, sink) := st in
  let sink1 :=
    if negb (_controlByteOffset es =? kNoSimple8bControl)
    then writeControlBlock es sink (_controlByteOffset es)
                           (bufLen sink - _controlByteOffset es)
    else sink in
  let image := prevImage (_prev es) in
  let sink2 : Sink := (fst sink1 ++ image, snd sink1) in
  let prevSize := Z.of_nat (List.length image) in
  let sink3 := writeControlBlock es sink2 (bufLen sink2 - prevSize) prevSize in
  let es1 := set_prevDelta
               (set_scaleIndex (set_controlByteOffset es kNoSimple8bControl)
                               kMemoryAsInteger) 0 in
  (_initializeFromPrevious es1, sink3).

(** The loop of _tryRescalePending over the pending values.  [builder] is
    the new Simple-8b builder, whose write callback only clears
    [possible]. *)
Fixpoint rescaleLoop (scaleIndex newScaleIndex : Z) (pending : list (option Z))
    (builder : s8b (S64 C)) (possible : bool) (prev prevRescaled : Z)
  : option (s8b (S64 C) * bool * Z) :=
  match pending with
  | [] => Some (builder, possible, prevRescaled)
  | None :: rest =>
      let '(blocks, builder') := s8b_skip (S64 C) builder in
      rescaleLoop scaleIndex newScaleIndex rest builder'
                  (possible && isEmptyBlocks blocks) prev prevRescaled
  | Some p :: rest =>
      let prev' := expandDelta prev (decodeInt64 p) in
      match encodeDouble (decodeDouble prev' scaleIndex) newScaleIndex with
      | None => None
      | Some rescaled =>
          let '(appended, blocks, builder') :=
            s8b_append (S64 C) builder (encodeInt64 (calcDelta rescaled prevRescaled)) in
          let possible' := possible && isEmptyBlocks blocks in
          if negb appended || negb possible' then None
          else rescaleLoop scaleIndex newScaleIndex rest builder' possible' prev' rescaled
      end
  end.

(** _tryRescalePending(encoded, newScaleIndex).  Fatal stands for the
    dereference of an empty optional on its first line. *)
Definition _tryRescalePending (es : EncodingState) (encoded newScaleIndex : Z)
  : Outcome (option (s8b (S64 C))) :=
  match encodeDouble (_lastValueInPrevBlock es) (_scaleIndex es) with
  | None => Fatal
  | Some prev =>
      match encodeDouble (_lastValueInPrevBlock es) newScaleIndex with
      | None => Ok None
      | Some prevRescaled =>
          match rescaleLoop (_scaleIndex es) newScaleIndex
                            (s8b_pending (S64 C) (_simple8bBuilder64 es))
                            (s8b_new (S64 C)) true prev prevRescaled with
          | None => Ok None
          | Some (builder, possible, prevRescaled') =>
              let '(appended, blocks, builder') :=
                s8b_append (S64 C) builder (encodeInt64 (calcDelta encoded prevRescaled')) in
              if negb appended || negb (possible && isEmptyBlocks blocks)
              then Ok None
              else Ok (Some builder')
          end
      end
  end.

(** The body of `if (scaleIndex != _scaleIndex)` in _appendDouble.  The
    result is either the state with which the function returns true at once
    (the pending values were rescaled), or the value of [encoded] and the
    state with which it goes on. *)
Definition rescaleOrFlush (st : EncodingState * Sink) (value previous encoded scaleIndex : Z)
  : Outcome ((EncodingState * Sink) + (Z * (EncodingState * Sink))) :=
  let '(es, sink) := st in
  match _tryRescalePending es encoded scaleIndex with
  | Ok (Some rescaled) =>
      Ok (inl (set_scaleIndex (set_prevEncoded64 (set_builder64 es rescaled) encoded)
                              scaleIndex, sink))
  | Ok None =>
      let '(es1, sink1) := flush64 (es, sink) in
      let es2 := set_controlByteOffset es1 kNoSimple8bControl in
      let '(prevEncoded, prevScaleIndex) := scaleAndEncodeDouble previous scaleIndex in
      if negb (scaleIndex =? prevScaleIndex) then
        let '(encoded', scaleIndex') := scaleAndEncodeDouble value prevScaleIndex in
        let '(prevEncoded', _) := scaleAndEncodeDouble previous scaleIndex' in
        Ok (inr (encoded', (set_scaleIndex (set_prevEncoded64 es2 prevEncoded') scaleIndex',
                            sink1)))
      else
        Ok (inr (encoded, (set_scaleIndex (set_prevEncoded64 es2 prevEncoded) scaleIndex,
                           sink1)))
  | Throw _ => Fatal
  | Fatal => Fatal
  | OutOfFuel => OutOfFuel
  end.

(** The loop of _appendDouble that re-adds the values that were pending
    when a block was written; [again] is the recursive call, whose result is
    not looked at. *)
Fixpoint replayPending
    (again : EncodingState * Sink -> Z -> Z -> Outcome (bool * (EncodingState * Sink)))
    (prevScale : Z) (pending : list (option Z)) (st : EncodingState * Sink)
    (prev prevEncoded : Z) : Outcome (EncodingState * Sink) :=
  match pending with
  | [] => Ok st
  | Some p :: rest =>
      let prevEncoded' := expandDelta prevEncoded (decodeInt64 p) in
      let val := decodeDouble prevEncoded' prevScale in
      match again st val prev with
      | Ok (_, st') => replayPending again prevScale rest st' val prevEncoded'
      | Throw _ => Fatal
      | Fatal => Fatal
      | OutOfFuel => OutOfFuel
      end
  | None :: rest =>
      replayPending again prevScale rest (skip64 st) prev prevEncoded
  end.

(** _appendDouble(value, previous) with its recursive call passed in. *)
Definition appendDoubleStep
    (again : EncodingState * Sink -> Z -> Z -> Outcome (bool * (EncodingState * Sink)))
    (st : EncodingState * Sink) (value previous : Z)
  : Outcome (bool * (EncodingState * Sink)) :=
  let '(encoded0, scaleIndex) := scaleAndEncodeDouble value (_scaleIndex (fst st)) in
  let afterScale :=
    if negb (scaleIndex =? _scaleIndex (fst st))
    then rescaleOrFlush st value previous encoded0 scaleIndex
    else Ok (inr (encoded0, st)) in
  match afterScale with
  | Ok (inl st') => Ok (true, st')
  | Ok (inr (encoded, st1)) =>
      let before := bufLen (snd st1) in
      let '(appended, (es2, sink2)) :=
        append64 st1 (encodeInt64 (calcDelta encoded (_prevEncoded64 (fst st1)))) in
      if negb appended then Ok (false, (es2, sink2))
      else if negb (bufLen sink2 =? before) then
        let prevScale := _scaleIndex es2 in
        let '(prevEncoded64, scaleIndex0) :=
          scaleAndEncodeDouble (_lastValueInPrevBlock es2) 0 in
        let builder := _simple8bBuilder64 es2 in
        let es3 := set_builder64
                     (set_scaleIndex (set_prevEncoded64 es2 prevEncoded64) scaleIndex0)
                     (s8b_new (S64 C)) in
        let prev := _lastValueInPrevBlock es3 in
        match encodeDouble prev prevScale with
        | None => Fatal
        | Some prevEncoded =>
            match replayPending again prevScale (s8b_pending (S64 C) builder)
                                (es3, sink2) prev prevEncoded with
            | Ok (es4, sink4) => Ok (true, (set_prevEncoded64 es4 encoded, sink4))
            | Throw _ => Fatal
            | Fatal => Fatal
            | OutOfFuel => OutOfFuel
            end
        end
      else Ok (true, (set_prevEncoded64 es2 encoded, sink2))
  | Throw _ => Fatal
  | Fatal => Fatal
  | OutOfFuel => OutOfFuel
  end.

(** _appendDouble(value, previous); [depth] bounds the nesting of the
    recursive calls made while replaying. *)
Fixpoint _appendDouble (depth : nat) {struct depth}
  : EncodingState * Sink -> Z -> Z -> Outcome (bool * (EncodingState * Sink)) :=
  appendDoubleStep
    (match depth with
     | O => fun _ _ _ => OutOfFuel
     | S d => _appendDouble d
     end).

(** The lambda appendEncoded of EncodingState::append. *)
Definition appendEncoded (st : EncodingState * Sink) (encoded : Z)
  : bool * (EncodingState * Sink) :=
  let '(compressed, (es1, sink1)) :=
    append128 st (encodeInt128 (calcDelta128 encoded (_prevEncoded128 (fst st)))) in
  (compressed, (set_prevEncoded128 es1 encoded, sink1)).

(** The branch of EncodingState::append taken with _storeWith128 set. *)
Definition appendValue128 (st : EncodingState * Sink) (elem previous : BSONValue)
  : Outcome (bool * (EncodingState * Sink)) :=
  match elem with
  | VString s =>
      match encodeString C s with
      | Some encoded => Ok (appendEncoded st encoded)
      | None => Ok (false, st)
      end
  | VBinData _ data =>
      let prevSize :=
        match previous with VBinData _ pd => Z.of_nat (List.length pd) | _ => 0 end in
      if negb (Z.of_nat (List.length data) =? prevSize) then Ok (false, st)
      else
        match encodeBinary C data with
        | Some encoded => Ok (appendEncoded st encoded)
        | None => Ok (false, st)
        end
  | VDecimal d => Ok (appendEncoded st (encodeDecimal128 C d))
  | _ => Fatal
  end.

Definition boolZ (b : bool) : Z := if b then 1 else 0.

(** The last branch of EncodingState::append: the 64-bit types other than
    double.  The result is encodingPossible, value and the state. *)
Definition deltaValue64 (es : EncodingState) (elem previous : BSONValue)
  : Outcome (bool * Z * EncodingState) :=
  match elem, previous with
  | VInt a, VInt b => Ok (true, calcDelta a b, es)
  | VLong a, VLong b => Ok (true, calcDelta a b, es)
  | VOID a, VOID b =>
      if negb (objectIdDeltaPossible a b) then Ok (false, 0, es)
      else
        let curEncoded := encodeObjectId C a in
        Ok (true, calcDelta curEncoded (_prevEncoded64 es),
            set_prevEncoded64 es curEncoded)
  | VTimestamp a, VTimestamp b =>
      let currTimestampDelta := calcDelta a b in
      Ok (true, calcDelta currTimestampDelta (_prevDelta es),
          set_prevDelta es currTimestampDelta)
  | VDate a, VDate b => Ok (true, calcDelta a b, es)
  | VBool a, VBool b => Ok (true, calcDelta (boolZ a) (boolZ b), es)
  | VUndefined, _ => Ok (true, 0, es)
  | VNull, _ => Ok (true, 0, es)
  | VRegEx _ _, _ | VDBRef _ _, _ | VCodeWScope _, _ | VSymbol _, _
  | VObject _, _ | VArray _, _ => Ok (false, 0, es)
  | _, _ => Fatal
  end.

(** EncodingState::append(elem). *)
Definition EncodingState_append (st : EncodingState * Sink) (elem : BSONElement)
  : Outcome (EncodingState * Sink) :=
  let '(es, sink) := st in
  let type := elemType elem in
  let previous := _previous es in
  if negb (BSONType_eqb (elemType previous) type) then
    Ok (_writeLiteralFromPrevious (flush64 (flush128 (_storePrevious es elem, sink))))
  else
    let compressed0 := negb (usesDeltaOfDelta type) && binaryEqualValues elem previous in
    let result : Outcome (bool * (EncodingState * Sink)) :=
      if compressed0 then
        if _storeWith128 es then Ok (true, snd (append128 st 0))
        else Ok (true, snd (append64 st 0))
      else if _storeWith128 es then appendValue128 st (snd elem) (snd previous)
      else
        match snd elem with
        | VDouble value =>
            match snd previous with
            | VDouble prev => _appendDouble replayDepth st value prev
            | _ => Fatal
            end
        | _ =>
            match deltaValue64 es (snd elem) (snd previous) with
            | Ok (encodingPossible, value, es1) =>
                if encodingPossible then Ok (append64 (es1, sink) (encodeInt64 value))
                else Ok (false, (es1, sink))
            | Throw _ => Fatal
            | Fatal => Fatal
            | OutOfFuel => OutOfFuel
            end
        end in
    match result with
    | Ok (compressed, (es1, sink1)) =>
        let st2 := (_storePrevious es1 elem, sink1) in
        if negb compressed then Ok (_writeLiteralFromPrevious (flush64 (flush128 st2)))
        else Ok st2
    | Throw _ => Fatal
    | Fatal => Fatal
    | OutOfFuel => OutOfFuel
    end.

(** EncodingState::skip(). *)
Definition EncodingState_skip (st : EncodingState * Sink) : EncodingState * Sink :=
  let before := bufLen (snd st) in
  let '(es1, sink1) := if _storeWith128 (fst st) then skip128 st else skip64 st in
  if negb (before =? bufLen sink1)
     && BSONType_eqb (valueType (_prev es1)) NumberDouble
  then
    let '(encoded, scaleIndex) := scaleAndEncodeDouble (_lastValueInPrevBlock es1) 0 in
    (set_scaleIndex (set_prevEncoded64 es1 encoded) scaleIndex, sink1)
  else (es1, sink1).

(** EncodingState::flush(). *)
Definition EncodingState_flush (st : EncodingState * Sink) : EncodingState * Sink :=
  let '(es1, sink1) := flush64 (flush128 st) in
  if negb (_controlByteOffset es1 =? kNoSimple8bControl)
  then (es1, writeControlBlock es1 sink1 (_controlByteOffset es1)
                               (bufLen sink1 - _controlByteOffset es1))
  else (es1, sink1).

(* ================================================================== *)
(** ** BSONColumnBuilder *)
(* ================================================================== *)

Inductive Mode : Type := kRegular | kSubObjDeterminingReference | kSubObjAppending.

Definition Mode_eqb (a b : Mode) : bool :=
  match a, b with
  | kRegular, kRegular => true
  | kSubObjDeterminingReference, kSubObjDeterminingReference => true
  | kSubObjAppending, kSubObjAppending => true
  | _, _ => false
  end.

(** The members of BSONColumnBuilder.  [_subobjStates] and
    [_subobjBuffers] grow together: the i-th state writes to the i-th
    buffer. *)
Record BSONColumnBuilder : Type := mkBuilder {
  _state : EncodingState;
  _bufBuilder : list Z;
  _elementCount : Z;
  _mode : Mode;
  _referenceSubObj : BSONObj;
  _bufferedObjElements : list BSONObj;
  _subobjStates : list EncodingState;
  _subobjBuffers : list Sink;
  _flattenedAppendedObj : list BSONElement
}.

Definition set_state (b : BSONColumnBuilder) (st : EncodingState * Sink)
  : BSONColumnBuilder :=
  mkBuilder (fst st) (fst (snd st)) (_elementCount b) (_mode b) (_referenceSubObj b)
            (_bufferedObjElements b) (_subobjStates b) (_subobjBuffers b)
            (_flattenedAppendedObj b).

Definition set_bufBuilder (b : BSONColumnBuilder) (buf : list Z) : BSONColumnBuilder :=
  mkBuilder (_state b) buf (_elementCount b) (_mode b) (_referenceSubObj b)
            (_bufferedObjElements b) (_subobjStates b) (_subobjBuffers b)
            (_flattenedAppendedObj b).

Definition set_mode (b : BSONColumnBuilder) (m : Mode) : BSONColumnBuilder :=
  mkBuilder (_state b) (_bufBuilder b) (_elementCount b) m (_referenceSubObj b)
            (_bufferedObjElements b) (_subobjStates b) (_subobjBuffers b)
            (_flattenedAppendedObj b).

Definition set_referenceSubObj (b : BSONColumnBuilder) (o : BSONObj) : BSONColumnBuilder :=
  mkBuilder (_state b) (_bufBuilder b) (_elementCount b) (_mode b) o
            (_bufferedObjElements b) (_subobjStates b) (_subobjBuffers b)
            (_flattenedAppendedObj b).

Definition set_bufferedObjElements (b : BSONColumnBuilder) (l : list BSONObj)
  : BSONColumnBuilder :=
  mkBuilder (_state b) (_bufBuilder b) (_elementCount b) (_mode b) (_referenceSubObj b)
            l (_subobjStates b) (_subobjBuffers b) (_flattenedAppendedObj b).

Definition set_subobj (b : BSONColumnBuilder) (states : list EncodingState)
    (buffers : list Sink) : BSONColumnBuilder :=
  mkBuilder (_state b) (_bufBuilder b) (_elementCount b) (_mode b) (_referenceSubObj b)
            (_bufferedObjElements b) states buffers (_flattenedAppendedObj b).

Definition set_flattenedAppendedObj (b : BSONColumnBuilder) (l : list BSONElement)
  : BSONColumnBuilder :=
  mkBuilder (_state b) (_bufBuilder b) (_elementCount b) (_mode b) (_referenceSubObj b)
            (_bufferedObjElements b) (_subobjStates b) (_subobjBuffers b) l.

(** ++_elementCount on a uint32_t. *)
Definition incrementElementCount (b : BSONColumnBuilder) : BSONColumnBuilder :=
  mkBuilder (_state b) (_bufBuilder b) (wrapU 32 (_elementCount b + 1)) (_mode b)
            (_referenceSubObj b) (_bufferedObjElements b) (_subobjStates b)
            (_subobjBuffers b) (_flattenedAppendedObj b).

(** BSONColumnBuilder(fieldName, BufBuilder&&): the buffer is reset and
    room is left for the element count (the four bytes are written by
    finalize; they are zero here). *)
Definition newBuilder : BSONColumnBuilder :=
  mkBuilder (newEncodingState false) (repeat 0 kElementCountBytes) 0 kRegular
            [] [] [] [] [].

(** The main state with the buffer it points to. *)
Definition mainState (b : BSONColumnBuilder) : EncodingState * Sink :=
  (_state b, (_bufBuilder b, [])).

(** The condition of the uasserts: "MinKey or MaxKey is not valid for
    storage". *)
Definition isMinOrMaxKey (t : BSONType) : bool :=
  BSONType_eqb t MinKey || BSONType_eqb t MaxKey.

(** _startDetermineSubObjReference(obj). *)
Definition _startDetermineSubObjReference (b : BSONColumnBuilder) (obj : BSONObj)
  : Outcome BSONColumnBuilder :=
  let '(es1, sink1) := EncodingState_flush (mainState b) in
  let b1 := set_state b (assignEncodingState es1 (newEncodingState false), sink1) in
  if existsb (fun c => isMinOrMaxKey (elemType (fst c))) (_traverse obj)
  then Throw b1
  else
    Ok (set_mode
          (set_bufferedObjElements (set_referenceSubObj b1 obj)
                                   (_bufferedObjElements b1 ++ [obj]))
          kSubObjDeterminingReference).

(** The loop of _appendSubElements (and the callback of
    _finishDetermineSubObjReference after a state is set up): every state
    gets its element, or a skip where the element is EOO. *)
Definition appendOrSkip (st : EncodingState * Sink) (elem : BSONElement)
  : Outcome (EncodingState * Sink) :=
  if negb (eoo elem) then EncodingState_append st elem
  else Ok (EncodingState_skip st).

Fixpoint appendToStates (states : list EncodingState) (buffers : list Sink)
    (elems : list BSONElement) : Outcome (list EncodingState * list Sink) :=
  match states, buffers, elems with
  | [], [], [] => Ok ([], [])
  | es :: states', sink :: buffers', elem :: elems' =>
      match appendOrSkip (es, sink) elem with
      | Ok (es1, sink1) =>
          match appendToStates states' buffers' elems' with
          | Ok (ss, bs) => Ok (es1 :: ss, sink1 :: bs)
          | Throw _ => Fatal
          | Fatal => Fatal
          | OutOfFuel => OutOfFuel
          end
      | Throw _ => Fatal
      | Fatal => Fatal
      | OutOfFuel => OutOfFuel
      end
  | _, _, _ => Fatal
  end.

(** The callback of _appendSubElements over the calls of the traversal:
    the elements pushed to _flattenedAppendedObj, and whether a uassert
    stopped it. *)
Fixpoint flattenCalls (calls : Calls) (acc : list BSONElement)
  : list BSONElement * bool :=
  match calls with
  | [] => (acc, false)
  | (_, elem) :: rest =>
      if isMinOrMaxKey (elemType elem) then (acc, true)
      else flattenCalls rest (acc ++ [elem])
  end.

(** _appendSubElements(obj), with what it does for an incompatible object
    passed in as [restart]. *)
Definition appendSubElementsWith
    (restart : BSONColumnBuilder -> BSONObj -> Outcome BSONColumnBuilder)
    (b : BSONColumnBuilder) (obj : BSONObj) : Outcome BSONColumnBuilder :=
  let '(calls, compatible) := traverseLockStep (_referenceSubObj b) obj in
  let '(flat, thrown) := flattenCalls calls [] in
  let b1 := set_flattenedAppendedObj b flat in
  if thrown then Throw b1
  else if negb compatible then restart b1 obj
  else if negb (Nat.eqb (List.length flat) (List.length (_subobjStates b1))) then Fatal
  else
    match appendToStates (_subobjStates b1) (_subobjBuffers b1) flat with
    | Ok (states, buffers) => Ok (set_subobj b1 states buffers)
    | Throw _ => Fatal
    | Fatal => Fatal
    | OutOfFuel => OutOfFuel
    end.

(** The callback of _finishDetermineSubObjReference over the calls of the
    traversal: a buffer and a state per reference leaf, the state seeded with
    the leaf. *)
Fixpoint setupStates (calls : Calls) (states : list EncodingState) (buffers : list Sink)
  : Outcome (list EncodingState * list Sink) :=
  match calls with
  | [] => Ok (states, buffers)
  | (ref, elem) :: rest =>
      let es := _initializeFromPrevious (_storePrevious (newEncodingState true) ref) in
      match appendOrSkip (es, ([], [])) elem with
      | Ok (es1, sink1) => setupStates rest (states ++ [es1]) (buffers ++ [sink1])
      | Throw _ => Fatal
      | Fatal => Fatal
      | OutOfFuel => OutOfFuel
      end
  end.

(** The loop of _finishDetermineSubObjReference over the remaining buffered
    objects.  An object that is not compatible with the reference makes
    _appendSubElements append to _bufferedObjElements while this loop
    iterates over it: undefined behaviour, Fatal here. *)
Fixpoint replayBuffered (b : BSONColumnBuilder) (objs : list BSONObj)
  : Outcome BSONColumnBuilder :=
  match objs with
  | [] => Ok b
  | obj :: rest =>
      match appendSubElementsWith (fun _ _ => Fatal) b obj with
      | Ok b1 => replayBuffered b1 rest
      | other => other
      end
  end.

(** _finishDetermineSubObjReference(). *)
Definition _finishDetermineSubObjReference (b : BSONColumnBuilder)
  : Outcome BSONColumnBuilder :=
  let b1 := set_bufBuilder b
              (_bufBuilder b ++ [kInterleavedStartControlByte C]
                           ++ objdata (_referenceSubObj b)) in
  match _bufferedObjElements b1 with
  | [] => Fatal
  | front :: rest =>
      let '(calls, res) := traverseLockStep (_referenceSubObj b1) front in
      match setupStates calls (_subobjStates b1) (_subobjBuffers b1) with
      | Ok (states, buffers) =>
          if negb res then Fatal
          else
            let b2 := set_mode (set_subobj b1 states buffers) kSubObjAppending in
            match replayBuffered b2 rest with
            | Ok b3 => Ok (set_bufferedObjElements b3 [])
            | other => other
            end
      | Throw _ => Fatal
      | Fatal => Fatal
      | OutOfFuel => OutOfFuel
      end
  end.

(** The min-heap of _flushSubObjMode holds pairs (elements written, encoder
    index) under std::greater.  The pairs differ in their index, so the pair
    std::pop_heap moves to the back is the least one in the lexicographic
    order, whatever the layout of the heap. *)
Definition heapLess (a b : Z * Z) : bool :=
  (fst a <? fst b) || ((fst a =? fst b) && (snd a <? snd b)).

Fixpoint heapMin (heap : list (Z * Z)) : option (Z * Z) :=
  match heap with
  | [] => None
  | x :: rest =>
      match heapMin rest with
      | None => Some x
      | Some m => Some (if heapLess x m then x else m)
      end
  end.

Fixpoint heapRemove (x : Z * Z) (heap : list (Z * Z)) : list (Z * Z) :=
  match heap with
  | [] => []
  | y :: rest =>
      if (fst x =? fst y) && (snd x =? snd y) then rest
      else y :: heapRemove x rest
  end.

(** A 64-bit little-endian load at [offset] of a buffer. *)
Definition readBlock (buf : list Z) (offset : Z) : Z :=
  fold_right (fun b acc => b + 256 * acc) 0 (firstn 8 (skipn (Z.to_nat offset) buf)).

Definition slice (buf : list Z) (offset size : Z) : list Z :=
  firstn (Z.to_nat size) (skipn (Z.to_nat offset) buf).

(** The lambda of _flushSubObjMode that counts the elements of a control
    block: 1 for a literal, else the sum of blockSize() over the blocks of
    the run (a uint32_t). *)
Definition elemsInControlBlock (buf : list Z) (offset : Z) : Z :=
  let control := peekByte buf offset in
  if isLiteralControlByte C control then 1
  else
    wrapU 32
      (fold_left
         (fun num j => num + blockSize C (readBlock buf (offset + 1 + 8 * Z.of_nat j)))
         (seq 0 (Z.to_nat (numSimple8bBlocksForControlByte control))) 0).

Fixpoint replaceNth {A : Type} (n : nat) (x : A) (l : list A) : list A :=
  match l, n with
  | [], _ => []
  | _ :: r, O => x :: r
  | y :: r, S k => y :: replaceNth k x r
  end.

(** The while loop of _flushSubObjMode.  [out] is the main buffer.  A
    state without a control block left while it is on the heap makes the
    source call front() on an empty deque: Fatal.  Every turn takes one
    control block off a deque; [fuel] counts the turns. *)
Fixpoint interleaveLoop (fuel : nat) (heap : list (Z * Z)) (buffers : list Sink)
    (out : list Z) : Outcome (list Z) :=
  match heapMin heap with
  | None => Ok out
  | Some top =>
      match nth_error buffers (Z.to_nat (snd top)) with
      | None => Fatal
      | Some slot =>
          match snd slot with
          | [] => Fatal
          | (offset, size) :: remaining =>
              match fuel with
              | O => OutOfFuel
              | S fuel' =>
                  let out' := out ++ slice (fst slot) offset size in
                  let buffers' :=
                    replaceNth (Z.to_nat (snd top)) (fst slot, remaining) buffers in
                  let heap' := heapRemove top heap in
                  match remaining with
                  | [] => interleaveLoop fuel' heap' buffers' out'
                  | _ :: _ =>
                      let elems := elemsInControlBlock (fst slot) offset in
                      interleaveLoop fuel'
                        ((wrapU 32 (fst top + elems), snd top) :: heap')
                        buffers' out'
                  end
              end
          end
      end
  end.

Definition totalControlBlocks (buffers : list Sink) : nat :=
  fold_right (fun slot n => (List.length (snd slot) + n)%nat) O buffers.

(** _flushSubObjMode() after the reference is determined: the states are
    flushed, their control blocks are written in the decoder's order, EOO
    ends the interleaving and the builder is back in regular mode. *)
Definition flushSubObjStates (b : BSONColumnBuilder) : Outcome BSONColumnBuilder :=
  let flushed := map EncodingState_flush (combine (_subobjStates b) (_subobjBuffers b)) in
  let buffers := map snd flushed in
  let heap := map (fun i => (0, Z.of_nat i)) (seq 0 (List.length (_subobjBuffers b))) in
  match interleaveLoop (totalControlBlocks buffers) heap buffers (_bufBuilder b) with
  | Ok out =>
      Ok (set_mode (set_subobj (set_bufBuilder b (out ++ [typeCode EOO])) [] []) kRegular)
  | Throw _ => Fatal
  | Fatal => Fatal
  | OutOfFuel => OutOfFuel
  end.

(** _flushSubObjMode(). *)
Definition _flushSubObjMode (b : BSONColumnBuilder) : Outcome BSONColumnBuilder :=
  if Mode_eqb (_mode b) kSubObjDeterminingReference then
    match _finishDetermineSubObjReference b with
    | Ok b1 => flushSubObjStates b1
    | other => other
    end
  else flushSubObjStates b.

(** _appendSubElements(obj). *)
Definition _appendSubElements (b : BSONColumnBuilder) (obj : BSONObj)
  : Outcome BSONColumnBuilder :=
  appendSubElementsWith
    (fun b1 obj1 =>
       match _flushSubObjMode b1 with
       | Ok b2 => _startDetermineSubObjReference b2 obj1
       | other => other
       end) b obj.

Definition okCount (o : Outcome BSONColumnBuilder) : Outcome BSONColumnBuilder :=
  match o with
  | Ok b => Ok (incrementElementCount b)
  | other => other
  end.

(** What BSONColumnBuilder::append computes from the reference and the
    object in mode kSubObjDeterminingReference: the counter numElements of
    the callbacks of the traversal, and the reference to go on with, which
    is the old one if the object is compatible and else the merged one, if
    the merge succeeds. *)
Definition numElements (reference obj : BSONObj) : Z :=
  wrapU 32 (Z.of_nat (List.length (fst (traverseLockStep reference obj)))).

Definition mergedReference (reference obj : BSONObj) : option BSONObj :=
  if snd (traverseLockStep reference obj) then Some reference
  else mergeObj reference obj.

(** The branch of BSONColumnBuilder::append for a non-empty object in mode
    kSubObjDeterminingReference. *)
Definition appendDetermining (b : BSONColumnBuilder) (obj : BSONObj)
  : Outcome BSONColumnBuilder :=
  let '(calls, compatible) := traverseLockStep (_referenceSubObj b) obj in
  if existsb (fun c => isMinOrMaxKey (elemType (snd c))) calls then Throw b
  else
    let numElements := wrapU 32 (Z.of_nat (List.length calls)) in
    let merged := if compatible then Some (_referenceSubObj b)
                  else mergeObj (_referenceSubObj b) obj in
    match merged with
    | None =>
        (* the merge failed: flush and start over *)
        match _flushSubObjMode b with
        | Ok b1 =>
            Ok (incrementElementCount
                  (set_mode
                     (set_bufferedObjElements (set_referenceSubObj b1 obj)
                                              (_bufferedObjElements b1 ++ [obj]))
                     kSubObjDeterminingReference))
        | other => other
        end
    | Some reference =>
        let b1 := set_referenceSubObj b reference in
        if wrapU 32 (numElements * 2) >=? Z.of_nat (List.length (_bufferedObjElements b1))
        then
          Ok (incrementElementCount
                (set_bufferedObjElements b1 (_bufferedObjElements b1 ++ [obj])))
        else
          match _finishDetermineSubObjReference b1 with
          | Ok b2 => okCount (_appendSubElements b2 obj)
          | other => other
          end
    end.

(** BSONColumnBuilder::append(elem). *)
Definition append (b : BSONColumnBuilder) (elem : BSONElement)
  : Outcome BSONColumnBuilder :=
  if isMinOrMaxKey (elemType elem) then Throw b
  else
    match snd elem with
    | VObject (f :: fs) =>
        let obj := f :: fs in
        match _mode b with
        | kRegular => okCount (_startDetermineSubObjReference b obj)
        | kSubObjDeterminingReference => appendDetermining b obj
        | kSubObjAppending => okCount (_appendSubElements b obj)
        end
    | _ =>
        let flushed :=
          if negb (Mode_eqb (_mode b) kRegular) then _flushSubObjMode b else Ok b in
        match flushed with
        | Ok b1 =>
            match EncodingState_append (mainState b1) elem with
            | Ok st => Ok (incrementElementCount (set_state b1 st))
            | Throw _ => Fatal
            | Fatal => Fatal
            | OutOfFuel => OutOfFuel
            end
        | other => other
        end
    end.

(** BSONColumnBuilder::skip(). *)
Definition skip (b : BSONColumnBuilder) : BSONColumnBuilder :=
  let b1 := incrementElementCount b in
  match _mode b1 with
  | kRegular => set_state b1 (EncodingState_skip (mainState b1))
  | kSubObjDeterminingReference =>
      set_bufferedObjElements b1 (_bufferedObjElements b1 ++ [[]])
  | kSubObjAppending =>
      let skipped := map EncodingState_skip (combine (_subobjStates b1) (_subobjBuffers b1)) in
      set_subobj b1 (map fst skipped) (map snd skipped)
  end.

(** BSONColumnBuilder::finalize(): the builder it leaves and the bytes of
    the BSONBinData it returns (buf() .. buf()+len()). *)
Definition finalize (b : BSONColumnBuilder) : Outcome (BSONColumnBuilder * list Z) :=
  let flushed :=
    if Mode_eqb (_mode b) kRegular
    then Ok (set_state b (EncodingState_flush (mainState b)))
    else _flushSubObjMode b in
  match flushed with
  | Ok b1 =>
      let buf1 := _bufBuilder b1 ++ [typeCode EOO] in
      let buf2 := le 4 (_elementCount b1) ++ skipn kElementCountBytes buf1 in
      Ok (set_bufBuilder b1 buf2, buf2)
  | Throw b1 => Throw (b1, _bufBuilder b1)
  | Fatal => Fatal
  | OutOfFuel => OutOfFuel
  end.

End Builder.

(* ================================================================== *)
(** ** Sequences of calls *)
(* ================================================================== *)

(** A call a user makes on a builder between its construction and
    finalize(). *)
Inductive Call : Type :=
| CallAppend (elem : BSONElement)
| CallSkip.

Definition call (C : Collaborators) (depth : nat) (b : BSONColumnBuilder C) (c : Call)
  : Outcome (BSONColumnBuilder C) :=
  match c with
  | CallAppend elem => append C depth b elem
  | CallSkip => Ok (skip C b)
  end.

(** The calls are made in order; the sequence stops at the first call that
    does not return normally. *)
Fixpoint calls (C : Collaborators) (depth : nat) (b : BSONColumnBuilder C)
    (cs : list Call) : Outcome (BSONColumnBuilder C) :=
  match cs with
  | [] => Ok b
  | c :: rest =>
      match call C depth b c with
      | Ok b1 => calls C depth b1 rest
      | other => other
      end
  end.

(** Whether a call returned normally. *)
Definition returned {A : Type} (o : Outcome A) : bool :=
  match o with
  | Ok _ => true
  | _ => false
  end.

(** What can be seen of a call that returned, and of one that threw. *)
Definition onOk {A B : Type} (f : A -> B) (o : Outcome A) : option B :=
  match o with
  | Ok a => Some (f a)
  | _ => None
  end.

Definition onThrow {A B : Type} (f : A -> B) (o : Outcome A) : option B :=
  match o with
  | Throw a => Some (f a)
  | _ => None
  end.

(** A call made on the builder a sequence of calls has left. *)
Definition andThen {A B : Type} (o : Outcome A) (f : A -> Outcome B) : Outcome B :=
  match o with
  | Ok a => f a
  | Throw _ => Fatal
  | Fatal => Fatal
  | OutOfFuel => OutOfFuel
  end.

Definition finalizedBytes {A : Type} (o : Outcome (A * list Z)) : option (list Z) :=
  match o with
  | Ok (_, bytes) => Some bytes
  | _ => None
  end.

(** The column a fresh builder returns from finalize() after the calls
    [cs], when all of them and finalize() return normally. *)
Definition column (C : Collaborators) (depth : nat) (cs : list Call)
  : option (list Z) :=
  match calls C depth (newBuilder C) cs with
  | Ok b => finalizedBytes (finalize C depth b)
  | _ => None
  end.




(** What a decoder of the column is to give back: the values appended,
    without their field names, and the skips. *)
Definition valuesOf (cs : list Call) : list (option BSONValue) :=
  map (fun c => match c with CallAppend elem => Some (snd elem) | CallSkip => None end) cs.

(** Operations on one EncodingState and the buffer it writes to. *)
Inductive StateCall : Type :=
| StateAppend (elem : BSONElement)
| StateSkip
| StateFlush.

Definition stateCall (C : Collaborators) (depth : nat)
    (st : EncodingState C * Sink) (c : StateCall) : Outcome (EncodingState C * Sink) :=
  match c with
  | StateAppend elem => EncodingState_append C depth st elem
  | StateSkip => Ok (EncodingState_skip C st)
  | StateFlush => Ok (EncodingState_flush C st)
  end.

Fixpoint stateCalls (C : Collaborators) (depth : nat)
    (st : EncodingState C * Sink) (cs : list StateCall)
  : Outcome (EncodingState C * Sink) :=
  match cs with
  | [] => Ok st
  | c :: rest =>
      match stateCall C depth st c with
      | Ok st1 => stateCalls C depth st1 rest
      | other => other
      end
  end.

(* ================================================================== *)
(** ** A reference instance of the collaborators *)
(* ================================================================== *)

(** The definitions of this module stand in for Simple8bBuilder,
    Simple8b and Simple8bTypeUtil, whose code is not part of the sources.
    They give the embedding something to run on; the general theorems below
    do not depend on them. *)
Module Reference.

(** Modelled from the spec: the Simple-8b builder ("streams unsigned
    integers into 64-bit packed blocks; append, skip, flush"; a value above
    60 bits is refused).  Missing from the sources: the whole packer.  This
    model has the fourteen plain selectors (n slots of b bits, n * b <= 60),
    keeps the all-ones slot for a skip, and has neither the run-length
    selector nor the selectors that count trailing zeros. *)
Definition selectors : list (Z * nat) :=
  [(1, 60%nat); (2, 30%nat); (3, 20%nat); (4, 15%nat); (5, 12%nat);
   (6, 10%nat); (7, 8%nat); (8, 7%nat); (10, 6%nat); (12, 5%nat);
   (15, 4%nat); (20, 3%nat); (30, 2%nat); (60, 1%nat)].

Definition bitsNeeded (v : option Z) : Z :=
  match v with
  | None => 1
  | Some x => Z.log2 (x + 1) + 1
  end.

Definition fitsIn (bits : Z) (vals : list (option Z)) : bool :=
  forallb (fun v => bitsNeeded v <=? bits) vals.

(** The pending values fit in one block together. *)
Definition fitsTogether (vals : list (option Z)) : bool :=
  existsb (fun sel => Nat.leb (List.length vals) (snd sel) && fitsIn (fst sel) vals)
          selectors.

Fixpoint packSlots (bits : Z) (shift : Z) (vals : list (option Z)) : Z :=
  match vals with
  | [] => 0
  | v :: rest =>
      Z.shiftl (match v with Some x => x | None => 2 ^ bits - 1 end) shift
      + packSlots bits (shift + bits) rest
  end.

(** The largest block that leaves no slot unused: the first selector, in
    the order of the table, with no more slots than there are pending
    values and wide enough for the values it takes. *)
Fixpoint chooseSelector (index : Z) (sels : list (Z * nat)) (vals : list (option Z))
  : option (Z * Z * nat) :=
  match sels with
  | [] => None
  | (bits, n) :: rest =>
      if Nat.leb n (List.length vals) && fitsIn bits (firstn n vals)
      then Some (index, bits, n)
      else chooseSelector (index + 1) rest vals
  end.

Definition encodeLargestPossibleWord (vals : list (option Z))
  : option (Z * list (option Z)) :=
  match chooseSelector 1 selectors vals with
  | None => None
  | Some (index, bits, n) =>
      Some (index + packSlots bits 4 (firstn n vals), skipn n vals)
  end.

(** Blocks are written until [next] fits with what is left. *)
Fixpoint makeRoom (fuel : nat) (vals : list (option Z)) (next : option Z)
  : list Z * list (option Z) :=
  if fitsTogether (vals ++ [next]) then ([], vals)
  else
    match fuel with
    | O => ([], vals)
    | S k =>
        match encodeLargestPossibleWord vals with
        | None => ([], vals)
        | Some (word, rest) =>
            let '(words, kept) := makeRoom k rest next in
            (word :: words, kept)
        end
    end.

Fixpoint flushAll (fuel : nat) (vals : list (option Z)) : list Z :=
  match fuel, vals with
  | _, [] => []
  | O, _ => []
  | S k, _ =>
      match encodeLargestPossibleWord vals with
      | None => []
      | Some (word, rest) => word :: flushAll k rest
      end
  end.

Definition modelAppend (vals : list (option Z)) (v : Z)
  : bool * list Z * list (option Z) :=
  if (v <? 0) || (60 <? bitsNeeded (Some v)) then (false, [], vals)
  else
    let '(words, kept) := makeRoom (List.length vals) vals (Some v) in
    (true, words, kept ++ [Some v]).

Definition modelSkip (vals : list (option Z)) : list Z * list (option Z) :=
  let '(words, kept) := makeRoom (List.length vals) vals None in
  (words, kept ++ [None]).

Definition modelFlush (vals : list (option Z)) : list Z * list (option Z) :=
  (flushAll (List.length vals) vals, []).

Definition simple8b : Simple8bBuilder :=
  Build_Simple8bBuilder (list (option Z)) [] modelAppend modelSkip modelFlush
                        (fun vals => vals) eq_refl.

(** Simple8b::Iterator::blockSize(): the number of slots of the block's
    selector. *)
Definition modelBlockSize (word : Z) : Z :=
  match nth_error selectors (Z.to_nat (Z.land word 15 - 1)) with
  | Some (_, n) => Z.of_nat n
  | None => 0
  end.

(** Doubles: conversion between a 64-bit pattern and a primitive float. *)
Definition floatOfBits (b : Z) : float :=
  let s := Z.testbit b 63 in
  let e := Z.land (Z.shiftr b 52) 2047 in
  let m := Z.land b (2 ^ 52 - 1) in
  if e =? 2047 then
    if m =? 0 then (if s then neg_infinity else infinity) else nan
  else if e =? 0 then
    SF2Prim (match m with Zpos p => S754_finite s p (-1074) | _ => S754_zero s end)
  else
    SF2Prim (match m + 2 ^ 52 with
             | Zpos p => S754_finite s p (e - 1075)
             | _ => S754_zero s
             end).

Definition bitsOfFloat (f : float) : Z :=
  match Prim2SF f with
  | S754_zero s => if s then 2 ^ 63 else 0
  | S754_infinity s => (if s then 2 ^ 63 else 0) + 2047 * 2 ^ 52
  | S754_nan => 2047 * 2 ^ 52 + 2 ^ 51
  | S754_finite s m e =>
      let sign := if s then 2 ^ 63 else 0 in
      if Zpos m <? 2 ^ 52 then sign + Zpos m
      else sign + (e + 1075) * 2 ^ 52 + (Zpos m - 2 ^ 52)
  end.

Definition floatOfZ (z : Z) : float :=
  if z <? 0 then PrimFloat.opp (PrimFloat.of_uint63 (Uint63.of_Z (- z)))
  else PrimFloat.of_uint63 (Uint63.of_Z z).

(** std::llround: to the nearest integer, halfway cases away from zero. *)
Definition llround (f : float) : Z :=
  match Prim2SF f with
  | S754_finite s m e =>
      let magnitude :=
        if 0 <=? e then Zpos m * 2 ^ e
        else (2 * Zpos m + 2 ^ (- e)) / 2 ^ (- e + 1) in
      if s then - magnitude else magnitude
  | _ => 0
  end.

Definition kScaleMultiplier : list Z := [1; 10; 100; 10000; 100000000].

(** Modelled from the spec: Simple8bTypeUtil::encodeDouble "rounds
    d * 10^scale to int ... returns none on overflow", the result fitting
    in 53 bits, and every encoded value decodes to the input double bit for
    bit; decodeDouble divides by the same multiplier.  Missing from the
    sources: simple8b_type_util.cpp. *)
Definition modelEncodeDouble (bits scaleIndex : Z) : option Z :=
  let val := floatOfBits bits in
  let multiplier := floatOfZ (nth (Z.to_nat scaleIndex) kScaleMultiplier 1) in
  let scaled := PrimFloat.mul val multiplier in
  if PrimFloat.leb (PrimFloat.abs scaled) (floatOfZ (2 ^ 53)) then
    let intVal := llround scaled in
    if PrimFloat.eqb (PrimFloat.div (floatOfZ intVal) multiplier) val
       && (bitsOfFloat (PrimFloat.div (floatOfZ intVal) multiplier) =? bits)
    then Some intVal else None
  else None.

Definition modelDecodeDouble (encoded scaleIndex : Z) : Z :=
  bitsOfFloat (PrimFloat.div (floatOfZ encoded)
                             (floatOfZ (nth (Z.to_nat scaleIndex) kScaleMultiplier 1))).

(** Modelled from the spec: the remaining encoders of Simple8bTypeUtil.
    encodeObjectId reads the seven bytes of timestamp and counter;
    encodeString and encodeBinary succeed iff the length is at most 16;
    encodeDecimal128 is reversible.  The byte order within the integer is
    this model's own. *)
Definition leValue (bytes : list Z) : Z :=
  fold_right (fun b acc => b + 256 * acc) 0 bytes.

Definition modelEncodeObjectId (oid : list Z) : Z :=
  leValue (firstn 4 oid ++ skipn 9 oid).

Definition modelEncodeBytes (bytes : list Z) : option Z :=
  if Nat.leb (List.length bytes) 16 then Some (leValue bytes) else None.

Definition collaborators : Collaborators :=
  Build_Collaborators simple8b simple8b modelBlockSize
                      modelEncodeDouble modelDecodeDouble modelEncodeObjectId
                      modelEncodeBytes modelEncodeBytes (fun d => d)
                      0xF0 (fun c => Z.land c 0xE0 =? 0).

End Reference.

(* ================================================================== *)
(** ** Zero deltas *)
(* ================================================================== *)

(** The blocks the 64-bit Simple-8b builder hands out while [n] zero deltas
    are appended to a new builder, one at a time, and the builder this
    leaves. *)
Fixpoint feedZeros (C : Collaborators) (n : nat) : list Z * s8b (S64 C) :=
  match n with
  | O => ([], s8b_new (S64 C))
  | S k =>
      let '(blocks, b) := feedZeros C k in
      let '(_, more, b') := s8b_append (S64 C) b 0 in
      (blocks ++ more, b')
  end.

(** The same, followed by the blocks of the final flush. *)
Definition zeroDeltaBlocks (C : Collaborators) (n : nat) : list Z :=
  fst (feedZeros C n) ++ fst (s8b_flush (S64 C) (snd (feedZeros C n))).

(* ================================================================== *)
(** ** Inputs used in the examples *)
(* ================================================================== *)

Module Inputs.

Definition x5 : BSONElement := ("x"%string, VInt 5).

(** {a: {}, b: 1}, {a: {}, b: 2} and {b: 2}. *)
Definition emptySubObj1 : BSONElement :=
  (EmptyString, VObject [("a"%string, VObject []); ("b"%string, VInt 1)]).
Definition emptySubObj2 : BSONElement :=
  (EmptyString, VObject [("a"%string, VObject []); ("b"%string, VInt 2)]).
Definition withoutSubObj2 : BSONElement :=
  (EmptyString, VObject [("b"%string, VInt 2)]).

(** {a: 1}, {a: 1, b: MinKey} and {a: MinKey}. *)
Definition objA : BSONElement := (EmptyString, VObject [("a"%string, VInt 1)]).
Definition objAMinKey : BSONElement :=
  (EmptyString, VObject [("a"%string, VInt 1); ("b"%string, VMinKey)]).
Definition objMinKey : BSONElement := (EmptyString, VObject [("a"%string, VMinKey)]).

(** {a: 1, b: 1} and {b: 1, a: 1}. *)
Definition objAB : BSONElement :=
  (EmptyString, VObject [("a"%string, VInt 1); ("b"%string, VInt 1)]).
Definition objBA : BSONElement :=
  (EmptyString, VObject [("b"%string, VInt 1); ("a"%string, VInt 1)]).

(** The double n/2 as an element. *)
Definition half (n : Z) : BSONElement :=
  ("d"%string,
   VDouble (Reference.bitsOfFloat
              (PrimFloat.div (Reference.floatOfZ n) (Reference.floatOfZ 2)))).

(** 0.5, 1.0, 1.5, ..., 8.0 and then 9.0. *)
Definition halves : list BSONElement :=
  map half [1; 2; 3; 4; 5; 6; 7; 8; 9; 10; 11; 12; 13; 14; 15; 16; 18].

(** Three equal Int32 values and a flush. *)
Definition threeFivesAndFlush : list StateCall :=
  [StateAppend x5; StateAppend x5; StateAppend x5; StateFlush].

Definition one : BSONElement := ("d"%string, VDouble 0x3FF0000000000000).
Definition nine : Z := 0x4022000000000000.

(** The builder after {a: 1, b: 1} was appended to a fresh one: the
    object is the reference and the one buffered object. *)
Definition determining : BSONColumnBuilder Reference.collaborators :=
  mkBuilder Reference.collaborators (newEncodingState Reference.collaborators false)
            [0; 0; 0; 0] 1 kSubObjDeterminingReference
            [("a"%string, VInt 1); ("b"%string, VInt 1)]
            [[("a"%string, VInt 1); ("b"%string, VInt 1)]] [] [] [].

(** An object, a skip and a scalar. *)
Definition mixedCalls : list Call :=
  [CallAppend objAB; CallSkip; CallAppend x5].



End Inputs.

(* ================================================================== *)
(** ** The vocabulary of the statements *)
(* ================================================================== *)

(** An element paired with itself: what the leaf callback gets when an
    object is traversed against itself. *)
Definition twice (e : BSONElement) : BSONElement * BSONElement := (e, e).

(** The callback's work on the buffer, as a function of the three members
    it reads: the scale index, whether there is a control-block writer, and
    the control byte offset.  The results are the offset it leaves and the
    buffer with its records. *)
Definition recordBlock (writer : bool) (sink : Sink) (offset size : Z) : Sink :=
  if writer then (fst sink, snd sink ++ [(offset, size)]) else sink.

Definition writeBackCore (offset : Z) (sink : Sink) (control count : Z)
  : Z * Z * Sink :=
  let sink' := (pokeByte (fst sink) offset (Z.lor control (Z.land count kCountMask)),
                snd sink) in
  if count + 1 =? kMaxCount then (offset, kNoSimple8bControl, sink')
  else (kNoSimple8bControl, offset, sink').

Definition countCore (control : Z) (writer : bool) (offset : Z) (sink : Sink)
  : Z * Z * Sink :=
  if offset =? kNoSimple8bControl
  then writeBackCore (bufLen sink) (fst sink ++ [0], snd sink) control 0
  else
    let byte := peekByte (fst sink) offset in
    if negb (Z.land byte kControlMask =? control) then
      let sink1 := recordBlock writer sink offset (bufLen sink - offset) in
      let '(_, offset2, sink2) :=
        writeBackCore (bufLen sink1) (fst sink1 ++ [0], snd sink1) control 0 in
      (kNoSimple8bControl, offset2, sink2)
    else writeBackCore offset sink control (Z.land byte kCountMask + 1).

Definition writerCore (scaleIndex : Z) (writer : bool) (offset : Z) (sink : Sink)
    (block : Z) : Z * Sink :=
  let '(full, offset', sink1) :=
    countCore (controlForScale scaleIndex) writer offset sink in
  let sink2 : Sink := (fst sink1 ++ le 8 block, snd sink1) in
  (offset',
   if negb (full =? kNoSimple8bControl)
   then recordBlock writer sink2 full (bufLen sink2 - full)
   else sink2).

(** What a state appends to its buffer: literals and Simple-8b runs, a run
    being a control byte and the blocks that follow it. *)
Inductive Item : Type :=
| ILiteral (v : BSONValue)
| IRun (control : Z) (blocks : list Z).

Definition itemBytes (i : Item) : list Z :=
  match i with
  | ILiteral v => prevImage v
  | IRun control blocks => control :: flat_map (le 8) blocks
  end.

Definition layoutBytes (items : list Item) : list Z := flat_map itemBytes items.

(** A run as the claim describes it: the upper nibble of the control byte
    is one of kControlByteForScaleIndex, and its lower nibble plus one is
    the number of blocks. *)
Definition runWellFormed (i : Item) : Prop :=
  match i with
  | ILiteral _ => True
  | IRun control blocks =>
      In (Z.land control kControlMask) kControlByteForScaleIndex
      /\ Z.land control kCountMask + 1 = Z.of_nat (List.length blocks)
  end.

(** The run with the control byte the source writes for [blocks]. *)
Definition runOf (control : Z) (blocks : list Z) : Item :=
  IRun (control + Z.of_nat (List.length blocks) - 1) blocks.

(** A run as the write callback leaves it: one to sixteen blocks after
    one of the six control bytes plus the number of blocks minus one. *)
Definition goodItem (i : Item) : Prop :=
  match i with
  | ILiteral _ => True
  | IRun c blocks =>
      exists control,
        In control kControlByteForScaleIndex
        /\ (1 <= List.length blocks <= 16)%nat
        /\ c = control + Z.of_nat (List.length blocks) - 1
  end.

(** The buffer is [base] followed by [items]; when a control byte is open
    it is the one of the last item, a run that is not full. *)
Definition Written (base : list Z) (items : list Item) (offset : Z) (buf : list Z)
  : Prop :=
  buf = base ++ layoutBytes items
  /\ Forall goodItem items
  /\ (offset = kNoSimple8bControl
      \/ exists pre c blocks,
           items = pre ++ [IRun c blocks]
           /\ offset = Z.of_nat (List.length (base ++ layoutBytes pre))
           /\ (List.length blocks < 16)%nat).

(** How one block changes the items: a new run is opened (none was open,
    or the open one has another upper nibble), or the open run gets the
    block; the offset is cleared when that makes sixteen. *)
Definition Pushed (control block : Z) (base : list Z) (items : list Item) (offset : Z)
    (items' : list Item) (offset' : Z) : Prop :=
  (items' = items ++ [runOf control [block]]
   /\ offset' = Z.of_nat (List.length (base ++ layoutBytes items))
   /\ (offset = kNoSimple8bControl
       \/ exists pre c blocks,
            items = pre ++ [IRun c blocks] /\ Z.land c kControlMask <> control))
  \/ (exists pre blocks,
        items = pre ++ [runOf control blocks]
        /\ offset <> kNoSimple8bControl
        /\ (List.length blocks < 16)%nat
        /\ items' = pre ++ [runOf control (blocks ++ [block])]
        /\ offset' = (if Nat.eqb (List.length blocks) 15
                      then kNoSimple8bControl else offset)).

(** [items] are the runs of [blocks], in order and in groups of at most
    sixteen, every group but the last one full; with no control byte open
    the last group is full too. *)
Definition Chunked (control : Z) (blocks : list Z) (items : list Item) (offset : Z)
  : Prop :=
  exists groups,
    items = map (runOf control) groups
    /\ List.concat groups = blocks
    /\ Forall (fun g => (1 <= List.length g <= 16)%nat) groups
    /\ Forall (fun g => List.length g = 16%nat) (removelast groups)
    /\ (offset = kNoSimple8bControl -> Forall (fun g => List.length g = 16%nat) groups).

(** What the main buffer holds once the literal is written: the room for
    the element count and the image of the Int32 5. *)
Definition literalFive : list Z := repeat 0 kElementCountBytes ++ prevImage (VInt 5).

(** The scale index _initializeFromPrevious leaves for a stored value: the
    one the value itself is encoded with if it is a double, else the one it
    found. *)
Definition scaleIndexFor (C : Collaborators) (v : BSONValue) (found : Z) : Z :=
  match v with
  | VDouble d => snd (scaleAndEncodeDouble C d 0)
  | _ => found
  end.

(** A call of the traversal's callback as its documentation has it, "called
    for every matching pair of BSONElement": the second element is
    BSONElement() or has the field name of the first. *)
Definition PairedByName (c : BSONElement * BSONElement) : Prop :=
  snd c = eooElement \/ fieldName (snd c) = fieldName (fst c).

(** What _traverseLockStep has done on the object [reference] when it
    returns [r] (its calls, the iterator over obj and the flag): the calls
    are matching pairs, their reference elements are leaves of [reference]
    from the first one on, in order, and all of them when the flag is
    set. *)
Definition CallsOf (reference : BSONObj) (r : Calls * BSONObj * bool) : Prop :=
  Forall PairedByName (fst (fst r))
  /\ (exists rest, leaves reference = map fst (fst (fst r)) ++ rest)
  /\ (snd r = true -> map fst (fst (fst r)) = leaves reference).

(** The loop of _traverseLockStep over the elements [reference], started
    with the iterator over obj at [it], ends with the iterator at the end
    and the flag set, whatever calls were made before. *)
Definition Compatible (reference it : BSONObj) : Prop :=
  forall acc, exists calls,
    lockStepLoop lockStepValue reference it acc = (calls, [], true).

(** The control blocks a state has recorded for its buffer, in the order
    they were written: the bytes at each (offset, size). *)
Definition controlBlocks (slot : Sink) : list (list Z) :=
  map (fun r => slice (fst slot) (fst r) (snd r)) (snd slot).

(** The control blocks of the states that are on the heap of
    _flushSubObjMode. *)
Definition heapBlocks (heap : list (Z * Z)) (buffers : list Sink) : list (list Z) :=
  flat_map (fun h => match nth_error buffers (Z.to_nat (snd h)) with
                     | Some slot => controlBlocks slot
                     | None => []
                     end) heap.

Section Vocabulary.

Context {C : Collaborators}.

(** The last step of the write callback: when the stored previous element
    is a double it becomes _lastValueInPrevBlock. *)
Definition rememberLast (es : EncodingState C) : EncodingState C :=
  match _prev C es with
  | VDouble d => set_lastValueInPrevBlock C es d
  | _ => es
  end.

(** The layout invariant of a state and its buffer: the buffer is [base]
    followed by items, an open control byte is the one of the last item,
    and the scale index is one of the table. *)
Definition StateLayout (base : list Z) (items : list Item)
    (st : EncodingState C * Sink) : Prop :=
  Written base items (_controlByteOffset C (fst st)) (fst (snd st))
  /\ 0 <= _scaleIndex C (fst st) <= 5.

(** The same, for some items. *)
Definition Laid (base : list Z) (st : EncodingState C * Sink) : Prop :=
  exists items, StateLayout base items st.

(** The layout is kept by a recursive call of _appendDouble. *)
Definition againLaid (base : list Z)
    (again : EncodingState C * Sink -> Z -> Z
             -> Outcome (bool * (EncodingState C * Sink))) : Prop :=
  forall st value previous r,
    Laid base st -> again st value previous = Ok r -> Laid base (snd r).

(** The members the write callback leaves alone: all but the control byte
    offset and the last value of the previous block. *)
Definition sameButRun (es es' : EncodingState C) : Prop :=
  _prev C es' = _prev C es
  /\ _prevDelta C es' = _prevDelta C es
  /\ _simple8bBuilder64 C es' = _simple8bBuilder64 C es
  /\ _simple8bBuilder128 C es' = _simple8bBuilder128 C es
  /\ _storeWith128 C es' = _storeWith128 C es
  /\ _prevEncoded64 C es' = _prevEncoded64 C es
  /\ _prevEncoded128 C es' = _prevEncoded128 C es
  /\ _scaleIndex C es' = _scaleIndex C es
  /\ _controlBlockWriter C es' = _controlBlockWriter C es.

(** The main buffer begins with the room left for the element count, and
    what the main state has written after some such beginning is laid out
    as literals and runs; outside regular mode the main state has no
    control byte open. *)
Definition BuilderLaid (b : BSONColumnBuilder C) : Prop :=
  (exists base, (4 <= List.length base)%nat /\ Laid base (mainState C b))
  /\ (_mode C b <> kRegular -> _controlByteOffset C (_state C b) = kNoSimple8bControl).

(** What the steps of the sub-object modes keep of a builder: the main
    state and the element count; the main buffer may have grown. *)
Definition Kept (b b' : BSONColumnBuilder C) : Prop :=
  _state C b' = _state C b
  /\ _elementCount C b' = _elementCount C b
  /\ exists more, _bufBuilder C b' = _bufBuilder C b ++ more.

(** The main state after the literal and [k] further appends of the same
    value: the 64-bit builder has been fed [k] zeros, and what it handed out
    is in the buffer in runs of scale index kMemoryAsInteger. *)
Definition FivesState (k : nat) (st : EncodingState C * Sink) : Prop :=
  _prev C (fst st) = VInt 5
  /\ _storeWith128 C (fst st) = false
  /\ _simple8bBuilder128 C (fst st) = s8b_new (S128 C)
  /\ _simple8bBuilder64 C (fst st) = snd (feedZeros C k)
  /\ _scaleIndex C (fst st) = kMemoryAsInteger
  /\ exists items,
       StateLayout literalFive items st
       /\ Chunked 0x80 (fst (feedZeros C k)) items (_controlByteOffset C (fst st)).

(** The builder after the first append and [k] more. *)
Definition FivesBuilder (k : nat) (b : BSONColumnBuilder C) : Prop :=
  _mode C b = kRegular
  /\ _elementCount C b = Z.of_nat (S k)
  /\ FivesState k (mainState C b).

(** The encoding states of the sub-object compression: one state and one
    buffer per leaf of the reference object in mode kSubObjAppending, none
    in the other modes. *)
Definition SubStates (b : BSONColumnBuilder C) : Prop :=
  List.length (_subobjBuffers C b) = List.length (_subobjStates C b)
  /\ match _mode C b with
     | kSubObjAppending =>
         List.length (_subobjStates C b) = List.length (leaves (_referenceSubObj C b))
     | _ => _subobjStates C b = []
     end.

(** What the operations on the Simple-8b builders leave of a state: the
    stored previous element and the flag _storeWith128. *)
Definition SamePrev (es es' : EncodingState C) : Prop :=
  _prev C es' = _prev C es /\ _storeWith128 C es' = _storeWith128 C es.

(** The same, of a recursive call of _appendDouble. *)
Definition againSamePrev
    (again : EncodingState C * Sink -> Z -> Z
             -> Outcome (bool * (EncodingState C * Sink))) : Prop :=
  forall st value previous r,
    again st value previous = Ok r -> SamePrev (fst st) (fst (snd r)).

(** The flag _storeWith128 tells whether the stored previous element has
    one of the 128-bit types. *)
Definition FlagAgrees (es : EncodingState C) : Prop :=
  _storeWith128 C es = uses128bit (valueType (_prev C es)).

End Vocabulary.

(* ================================================================== *)
(** * Theorems *)
(* ================================================================== *)

Lemma returned_Ok {A : Type} (o : Outcome A) :
  returned o = true -> exists a, o = Ok a.
Proof. destruct o; try discriminate. intros _. now exists a. Qed.

(** The column after calls that return is what finalize() returns on the
    builder they leave. *)
Lemma column_calls (C : Collaborators) (depth : nat) (cs : list Call)
    (b : BSONColumnBuilder C) :
  calls C depth (newBuilder C) cs = Ok b ->
  column C depth cs = finalizedBytes (finalize C depth b).
Proof. intros E. unfold column. now rewrite E. Qed.

(** ** Induction over nested objects *)

(** Induction on a value whose Object case may use the property on every
    field of the object. *)
Lemma BSONValue_nested_ind (P : BSONValue -> Prop)
    (Hobj : forall fields, Forall (fun e => P (snd e)) fields -> P (VObject fields))
    (Hleaf : forall v, isObject v = false -> P v) :
  forall v, P v.
Proof.
  fix IH 1.
  intros v; destruct v; try (apply Hleaf; reflexivity).
  apply Hobj.
  revert fields.
  fix IHfields 1.
  intros [|e rest].
  - constructor.
  - constructor; [apply IH | apply IHfields].
Qed.

(** ** Lock-step traversal of an object against itself *)

Lemma traverseValue_leaf (name : string) (v : BSONValue) :
  isObject v = false -> traverseValue name v = [((name, v), eooElement)].
Proof. destruct v; simpl; intros H; try reflexivity; discriminate. Qed.

Lemma leavesValue_leaf (name : string) (v : BSONValue) :
  isObject v = false -> leavesValue name v = [(name, v)].
Proof. destruct v; simpl; intros H; try reflexivity; discriminate. Qed.

(** The loop of _traverseLockStep on a reference and an iterator that
    starts with the same elements: every element matches, the iterator ends
    on what follows them. *)
Lemma lockStepLoop_same (refs : BSONObj) :
  Forall (fun e => forall fields, snd e = VObject fields ->
            lockStepValue (VObject fields) fields = (map twice (leaves fields), [], true))
         refs ->
  forall (rest : BSONObj) (acc : Calls),
    lockStepLoop lockStepValue refs (refs ++ rest) acc
    = (acc ++ map twice (leaves refs), rest, isEmpty rest).
Proof.
  induction 1 as [|[name v] refs' Hhead _ IH]; intros rest acc.
  - simpl. now rewrite app_nil_r.
  - destruct (isObject v) eqn:Hobj.
    + destruct v; try discriminate Hobj.
      cbn [lockStepLoop app].
      rewrite String.eqb_refl, Bool.eqb_reflx. cbn [negb].
      rewrite (Hhead fields eq_refl).
      rewrite IH. unfold leaves. cbn [flat_map fst snd leavesValue].
      now rewrite map_app, app_assoc.
    + assert (Hstep : lockStepLoop lockStepValue ((name, v) :: refs')
                        (((name, v) :: refs') ++ rest) acc
                      = lockStepLoop lockStepValue refs' (refs' ++ rest)
                          (acc ++ [twice (name, v)])).
      { destruct v; try discriminate Hobj; cbn [lockStepLoop app];
          now rewrite String.eqb_refl. }
      refine (eq_trans Hstep _). rewrite IH. unfold leaves. cbn [flat_map fst snd].
      rewrite (leavesValue_leaf name v Hobj). cbn [map app].
      now rewrite <- app_assoc.
Qed.

Lemma lockStepValue_same (v : BSONValue) :
  forall fields, v = VObject fields ->
    lockStepValue (VObject fields) fields = (map twice (leaves fields), [], true).
Proof.
  induction v as [fields IH | v Hleaf] using BSONValue_nested_ind;
    intros fields' Heq.
  - injection Heq as <-.
    cbn [lockStepValue].
    rewrite <- (app_nil_r fields) at 2.
    rewrite lockStepLoop_same.
    + reflexivity.
    + eapply Forall_impl; [|exact IH].
      intros e He sub Hsub. apply He. exact Hsub.
  - subst v. discriminate Hleaf.
Qed.

(** C9.  For every object [ref], traverseLockStep(ref, ref) reports the
    hierarchies compatible, and the calls it makes to the leaf callback are
    exactly the non-Object leaves of [ref] in pre-order, each paired with
    itself; so the number of calls is the number of leaves. *)
Theorem traverseLockStep_self (ref : BSONObj) :
  traverseLockStep ref ref = (map twice (leaves ref), true)
  /\ List.length (fst (traverseLockStep ref ref)) = List.length (leaves ref).
Proof.
  assert (H : traverseLockStep ref ref = (map twice (leaves ref), true)).
  { unfold traverseLockStep, _traverseLockStep.
    now rewrite (lockStepValue_same (VObject ref) ref eq_refl). }
  split; [exact H|].
  rewrite H. cbn [fst]. apply length_map.
Qed.

(** ** A builder nothing was appended to *)

Section Fresh.

Variable C : Collaborators.

Lemma set_builder64_same (es : EncodingState C) :
  set_builder64 C es (_simple8bBuilder64 C es) = es.
Proof. now destruct es. Qed.

Lemma set_builder128_same (es : EncodingState C) :
  set_builder128 C es (_simple8bBuilder128 C es) = es.
Proof. now destruct es. Qed.

Lemma flush64_new (st : EncodingState C * Sink) :
  _simple8bBuilder64 C (fst st) = s8b_new (S64 C) -> flush64 C st = st.
Proof.
  destruct st as [es sink]. cbn [fst].
  intros H. unfold flush64. cbn [fst]. rewrite H, s8b_flush_new.
  cbn [writeBlocks fold_left]. rewrite <- H. now rewrite set_builder64_same.
Qed.

Lemma flush128_new (st : EncodingState C * Sink) :
  _simple8bBuilder128 C (fst st) = s8b_new (S128 C) -> flush128 C st = st.
Proof.
  destruct st as [es sink]. cbn [fst].
  intros H. unfold flush128. cbn [fst]. rewrite H, s8b_flush_new.
  cbn [writeBlocks fold_left]. rewrite <- H. now rewrite set_builder128_same.
Qed.

(** Flushing a state whose builders were never used and that has no
    control byte open changes nothing. *)
Lemma EncodingState_flush_unused (es : EncodingState C) (sink : Sink) :
  _simple8bBuilder64 C es = s8b_new (S64 C) ->
  _simple8bBuilder128 C es = s8b_new (S128 C) ->
  _controlByteOffset C es = kNoSimple8bControl ->
  EncodingState_flush C (es, sink) = (es, sink).
Proof.
  intros H64 H128 Hoff. unfold EncodingState_flush.
  rewrite (flush128_new (es, sink) H128), (flush64_new (es, sink) H64), Hoff.
  reflexivity.
Qed.

End Fresh.

(** C10.  A builder on which neither append nor skip was called finalizes
    to five bytes: the element count zero on four bytes and the EOO
    terminator, with nothing in between. *)
Theorem finalize_newBuilder (C : Collaborators) (depth : nat) :
  finalizedBytes (finalize C depth (newBuilder C)) = Some [0; 0; 0; 0; 0].
Proof.
  unfold finalize, newBuilder, mainState. cbn [_mode Mode_eqb _state _bufBuilder].
  rewrite EncodingState_flush_unused by reflexivity.
  reflexivity.
Qed.

(** ** Two sequences with one column *)

(** The objects {a: {}, b: 2} and {b: 2} give the leaf callback the same
    elements when traversed against the reference {a: {}, b: 1}: the empty
    sub-object of the reference is passed over whether the object has it or
    not. *)
Lemma traverseLockStep_empty_subobject :
  traverseLockStep (match snd Inputs.emptySubObj1 with VObject o => o | _ => [] end)
                   (match snd Inputs.emptySubObj2 with VObject o => o | _ => [] end)
  = traverseLockStep (match snd Inputs.emptySubObj1 with VObject o => o | _ => [] end)
                     (match snd Inputs.withoutSubObj2 with VObject o => o | _ => [] end).
Proof. reflexivity. Qed.

(** The two sequences of calls give the same column. *)
Lemma column_empty_subobject :
  column Reference.collaborators 0
         [CallAppend Inputs.emptySubObj1; CallAppend Inputs.emptySubObj2]
  = Some [2; 0; 0; 0; 240; 20; 0; 0; 0; 3; 97; 0; 5; 0; 0; 0; 0; 16; 98; 0;
          1; 0; 0; 0; 0; 128; 13; 0; 0; 0; 8; 0; 0; 0; 0; 0]
  /\ column Reference.collaborators 0
            [CallAppend Inputs.emptySubObj1; CallAppend Inputs.withoutSubObj2]
     = Some [2; 0; 0; 0; 240; 20; 0; 0; 0; 3; 97; 0; 5; 0; 0; 0; 0; 16; 98; 0;
             1; 0; 0; 0; 0; 128; 13; 0; 0; 0; 8; 0; 0; 0; 0; 0].
Proof. split; vm_compute; reflexivity. Qed.

(** C1 (the code departs from the claim).  No decoder gives back the
    appended values from every column the builder finalizes: the
    sequences [{a: {}, b: 1}, {a: {}, b: 2}] and [{a: {}, b: 1}, {b: 2}]
    are encoded to the same bytes. *)
Theorem column_round_trip_fails :
  ~ exists decode : list Z -> list (option BSONValue),
      forall (cs : list Call) (bytes : list Z),
        column Reference.collaborators 0 cs = Some bytes ->
        decode bytes = valuesOf cs.
Proof.
  intros [decode Hdecode].
  destruct column_empty_subobject as [H1 H2].
  pose proof (Hdecode _ _ H1) as E1.
  pose proof (Hdecode _ _ H2) as E2.
  rewrite E1 in E2. discriminate E2.
Qed.

(** ** MinKey and MaxKey inside objects *)

(** C3 (the code departs from the claim).  An object with a MinKey leaf is
    accepted when the leaf is a field the reference does not have yet: in
    mode kSubObjDeterminingReference only the leaves that match the reference
    are checked, and the merge carries the MinKey into the reference.  And an
    append that does fail can leave the builder changed: in regular mode
    _startDetermineSubObjReference flushes and replaces the main state before
    it checks the leaves. *)
Theorem append_MinKey_leaf :
  onOk (fun b => (_referenceSubObj Reference.collaborators b,
                  _elementCount Reference.collaborators b))
       (calls Reference.collaborators 0 (newBuilder Reference.collaborators)
              [CallAppend Inputs.objA; CallAppend Inputs.objAMinKey])
  = Some ([("a"%string, VInt 1); ("b"%string, VMinKey)], 2)
  /\ onOk (fun b => (_prev Reference.collaborators (_state Reference.collaborators b),
                     _bufBuilder Reference.collaborators b))
          (calls Reference.collaborators 0 (newBuilder Reference.collaborators)
                 [CallAppend Inputs.x5; CallAppend Inputs.x5])
     = Some (VInt 5, [0; 0; 0; 0; 16; 0; 5; 0; 0; 0])
  /\ onThrow (fun b => (_prev Reference.collaborators (_state Reference.collaborators b),
                        _bufBuilder Reference.collaborators b))
             (andThen (calls Reference.collaborators 0 (newBuilder Reference.collaborators)
                             [CallAppend Inputs.x5; CallAppend Inputs.x5])
                      (fun b => append Reference.collaborators 0 b Inputs.objMinKey))
     = Some (VEOO, [0; 0; 0; 0; 16; 0; 5; 0; 0; 0; 128; 14; 0; 0; 0; 0; 0; 0; 0]).
Proof. repeat split; vm_compute; reflexivity. Qed.

(** ** The encoded previous double after a replay *)

(** C6 (the code departs from the claim).  After the doubles 0.5, 1.0, ...,
    8.0, 9.0 are appended, the last append has written a block and replayed
    the pending delta at scale index 0, and then stored the value it had
    encoded at scale index 1: _prevEncoded64 is 90 with _scaleIndex 0, which
    decodes to 90.0 and not to 9.0, the last double appended. *)
Theorem appendDouble_stale_prevEncoded :
  onOk (fun b => let es := _state Reference.collaborators b in
                 (_prev Reference.collaborators es,
                  _scaleIndex Reference.collaborators es,
                  _prevEncoded64 Reference.collaborators es))
       (calls Reference.collaborators 1 (newBuilder Reference.collaborators)
              (map CallAppend Inputs.halves))
  = Some (VDouble Inputs.nine, 0, 90)
  /\ decodeDouble Reference.collaborators 90 0 <> Inputs.nine
  /\ encodeDouble Reference.collaborators Inputs.nine 0 = Some 9
  /\ decodeDouble Reference.collaborators 9 0 = Inputs.nine.
Proof.
  repeat split; try (vm_compute; reflexivity).
  vm_compute. discriminate.
Qed.

(** ** What the write callback reads and writes *)

Section Writer.

Variable C : Collaborators.

Lemma bufferWriter_core (es : EncodingState C) (sink : Sink) (block : Z) :
  bufferWriter C (es, sink) block
  = (rememberLast
       (set_controlByteOffset C es
          (fst (writerCore (_scaleIndex C es) (_controlBlockWriter C es)
                           (_controlByteOffset C es) sink block))),
     snd (writerCore (_scaleIndex C es) (_controlBlockWriter C es)
                     (_controlByteOffset C es) sink block)).
Proof.
  destruct es as [prev prevDelta b64 b128 with128 offset enc64 enc128 lastv scale writer].
  unfold bufferWriter, writerCore, _incrementSimple8bCount, countCore,
    allocateControlByte, writeBackCount, writeBackCore, writeControlBlock,
    recordBlock, rememberLast, set_controlByteOffset, set_lastValueInPrevBlock.
  cbn [_prev _prevDelta _simple8bBuilder64 _simple8bBuilder128 _storeWith128
       _controlByteOffset _prevEncoded64 _prevEncoded128 _lastValueInPrevBlock
       _scaleIndex _controlBlockWriter fst snd].
  repeat (match goal with
          | |- context [if ?c then _ else _] => destruct c eqn:?
          end;
          cbn [_prev _prevDelta _simple8bBuilder64 _simple8bBuilder128 _storeWith128
               _controlByteOffset _prevEncoded64 _prevEncoded128
               _lastValueInPrevBlock _scaleIndex _controlBlockWriter fst snd negb]);
    try reflexivity; try discriminate.
Qed.

End Writer.

(** ** The layout of what an EncodingState writes *)

Lemma control_bits (control n : Z) :
  In control kControlByteForScaleIndex -> 0 <= n < 16 ->
  Z.lor control (Z.land n kCountMask) = control + n
  /\ Z.land (control + n) kControlMask = control
  /\ Z.land (control + n) kCountMask = n.
Proof.
  intros Hc Hn.
  assert (En : In n (map Z.of_nat (seq 0 16))).
  { apply in_map_iff. exists (Z.to_nat n). split; [lia | apply in_seq; lia]. }
  cbn in En.
  unfold kControlByteForScaleIndex in Hc. cbn [In] in Hc.
  repeat (destruct Hc as [Hc|Hc]; [subst control|]); [ .. | contradiction ];
    repeat (destruct En as [En|En]; [subst n; repeat split|]);
    try contradiction; subst; repeat split.
Qed.

Lemma controlForScale_In (scaleIndex : Z) :
  0 <= scaleIndex <= 5 -> In (controlForScale scaleIndex) kControlByteForScaleIndex.
Proof.
  intros H.
  assert (E : scaleIndex = 0 \/ scaleIndex = 1 \/ scaleIndex = 2 \/ scaleIndex = 3
              \/ scaleIndex = 4 \/ scaleIndex = 5) by lia.
  repeat (destruct E as [E|E]; [subst; cbn; tauto|]). subst. cbn. tauto.
Qed.

Lemma goodItem_runWellFormed (i : Item) : goodItem i -> runWellFormed i.
Proof.
  destruct i as [v|c blocks]; [trivial|].
  intros [control [Hin [Hlen ->]]]. cbn [runWellFormed].
  destruct (control_bits control (Z.of_nat (List.length blocks) - 1) Hin ltac:(lia))
    as [_ [H1 H2]].
  replace (control + Z.of_nat (List.length blocks) - 1)
    with (control + (Z.of_nat (List.length blocks) - 1)) by lia.
  rewrite H1, H2. split; [exact Hin | lia].
Qed.

Lemma pokeByte_middle (xs ys : list Z) (c c' : Z) :
  pokeByte (xs ++ c :: ys) (Z.of_nat (List.length xs)) c' = xs ++ c' :: ys.
Proof.
  unfold pokeByte.
  rewrite length_app. cbn [List.length].
  replace ((0 <=? Z.of_nat (List.length xs))
           && (Z.of_nat (List.length xs)
               <? Z.of_nat (List.length xs + S (List.length ys)))) with true
    by (symmetry; apply andb_true_intro; split; [apply Z.leb_le | apply Z.ltb_lt]; lia).
  rewrite Nat2Z.id.
  rewrite firstn_app, firstn_all, Nat.sub_diag. cbn [firstn]. rewrite app_nil_r.
  rewrite skipn_app, (skipn_all2 xs) by lia.
  replace (S (List.length xs) - List.length xs)%nat with 1%nat by lia.
  reflexivity.
Qed.

Lemma peekByte_middle (xs ys : list Z) (c : Z) :
  peekByte (xs ++ c :: ys) (Z.of_nat (List.length xs)) = c.
Proof.
  unfold peekByte. rewrite Nat2Z.id. now rewrite nth_middle.
Qed.

Lemma layoutBytes_app (xs ys : list Item) :
  layoutBytes (xs ++ ys) = layoutBytes xs ++ layoutBytes ys.
Proof. apply flat_map_app. Qed.

Lemma layoutBytes_run (c : Z) (blocks : list Z) :
  layoutBytes [IRun c blocks] = c :: flat_map (le 8) blocks.
Proof. unfold layoutBytes. cbn [flat_map itemBytes]. now rewrite app_nil_r. Qed.

Lemma goodItem_runOf (control : Z) (blocks : list Z) :
  In control kControlByteForScaleIndex ->
  (1 <= List.length blocks <= 16)%nat ->
  goodItem (runOf control blocks).
Proof. intros Hin Hlen. exists control. repeat split; try assumption; lia. Qed.

(** A new run is opened at the end of the buffer. *)
Lemma writeBackCore_fresh (buf : list Z) (recs : list (Z * Z)) (control : Z) :
  In control kControlByteForScaleIndex ->
  writeBackCore (bufLen (buf, recs)) (buf ++ [0], recs) control 0
  = (kNoSimple8bControl, Z.of_nat (List.length buf), (buf ++ [control], recs)).
Proof.
  intros Hin. unfold writeBackCore, bufLen. cbn [fst snd].
  change (0 + 1 =? kMaxCount) with false. cbv iota.
  destruct (control_bits control 0 Hin ltac:(lia)) as [H _].
  rewrite H, Z.add_0_r.
  now rewrite (pokeByte_middle buf [] 0 control).
Qed.

Lemma Written_fresh_run (base : list Z) (items : list Item) (offset : Z) (buf : list Z)
    (control block : Z) :
  Written base items offset buf ->
  In control kControlByteForScaleIndex ->
  Written base (items ++ [runOf control [block]]) (Z.of_nat (List.length buf))
          ((buf ++ [control]) ++ le 8 block).
Proof.
  intros [Hbuf [Hgood _]] Hin. split; [|split].
  - rewrite layoutBytes_app. unfold runOf. rewrite layoutBytes_run.
    cbn [List.length flat_map]. rewrite app_nil_r.
    replace (control + Z.of_nat 1 - 1) with control by lia.
    rewrite Hbuf. rewrite <- !app_assoc. reflexivity.
  - apply Forall_app. split; [exact Hgood|].
    constructor; [|constructor]. apply goodItem_runOf; [exact Hin | cbn; lia].
  - right. exists items, (control + Z.of_nat 1 - 1), [block].
    split; [reflexivity|]. split; [now rewrite Hbuf | cbn; lia].
Qed.

(** The three ways the write callback runs. *)
Lemma writerCore_fresh (scaleIndex : Z) (writer : bool) (buf : list Z)
    (recs : list (Z * Z)) (block : Z) :
  0 <= scaleIndex <= 5 ->
  writerCore scaleIndex writer kNoSimple8bControl (buf, recs) block
  = (Z.of_nat (List.length buf),
     ((buf ++ [controlForScale scaleIndex]) ++ le 8 block, recs)).
Proof.
  intros Hscale. unfold writerCore, countCore.
  change (kNoSimple8bControl =? kNoSimple8bControl) with true. cbv iota.
  cbn [fst snd].
  rewrite (writeBackCore_fresh buf recs _ (controlForScale_In _ Hscale)).
  change (kNoSimple8bControl =? kNoSimple8bControl) with true.
  reflexivity.
Qed.

Lemma writerCore_mismatch (scaleIndex : Z) (writer : bool) (offset : Z) (buf : list Z)
    (recs : list (Z * Z)) (block : Z) :
  0 <= scaleIndex <= 5 ->
  offset <> kNoSimple8bControl ->
  Z.land (peekByte buf offset) kControlMask <> controlForScale scaleIndex ->
  fst (writerCore scaleIndex writer offset (buf, recs) block)
  = Z.of_nat (List.length buf)
  /\ fst (snd (writerCore scaleIndex writer offset (buf, recs) block))
     = (buf ++ [controlForScale scaleIndex]) ++ le 8 block.
Proof.
  intros Hscale Hoff Hctl. unfold writerCore, countCore.
  rewrite (proj2 (Z.eqb_neq _ _) Hoff). cbn [fst snd].
  rewrite (proj2 (Z.eqb_neq _ _) Hctl). cbn [negb].
  assert (E : forall sink1 : Sink, fst sink1 = buf ->
            writeBackCore (bufLen sink1) (fst sink1 ++ [0], snd sink1)
                          (controlForScale scaleIndex) 0
            = (kNoSimple8bControl, Z.of_nat (List.length buf),
               (buf ++ [controlForScale scaleIndex], snd sink1))).
  { intros [b r] Hb. cbn [fst snd] in *. subst b.
    apply writeBackCore_fresh. now apply controlForScale_In. }
  rewrite E by (unfold recordBlock; now destruct writer).
  change (kNoSimple8bControl =? kNoSimple8bControl) with true.
  split; reflexivity.
Qed.

Lemma writerCore_extend (scaleIndex : Z) (writer : bool) (offset : Z) (buf : list Z)
    (recs : list (Z * Z)) (block : Z) :
  offset <> kNoSimple8bControl ->
  Z.land (peekByte buf offset) kControlMask = controlForScale scaleIndex ->
  fst (writerCore scaleIndex writer offset (buf, recs) block)
  = (if Z.land (peekByte buf offset) kCountMask + 1 + 1 =? kMaxCount
     then kNoSimple8bControl else offset)
  /\ fst (snd (writerCore scaleIndex writer offset (buf, recs) block))
     = pokeByte buf offset
                (Z.lor (controlForScale scaleIndex)
                       (Z.land (Z.land (peekByte buf offset) kCountMask + 1) kCountMask))
         ++ le 8 block.
Proof.
  intros Hoff Hctl. unfold writerCore, countCore, writeBackCore.
  rewrite (proj2 (Z.eqb_neq _ _) Hoff). cbn [fst snd].
  rewrite (proj2 (Z.eqb_eq _ _) Hctl). cbn [negb].
  destruct (Z.land (peekByte buf offset) kCountMask + 1 + 1 =? kMaxCount).
  - rewrite (proj2 (Z.eqb_neq _ _) Hoff). cbn [negb fst snd].
    unfold recordBlock. destruct writer; split; reflexivity.
  - change (kNoSimple8bControl =? kNoSimple8bControl) with true.
    split; reflexivity.
Qed.

(** The write callback on a buffer with a layout: the block is added as
    [Pushed] says, and the buffer keeps a layout. *)
Lemma writerCore_pushed (base : list Z) (items : list Item) (offset : Z)
    (buf : list Z) (recs : list (Z * Z)) (scaleIndex : Z) (writer : bool) (block : Z) :
  Written base items offset buf ->
  0 <= scaleIndex <= 5 ->
  exists items',
    Written base items'
            (fst (writerCore scaleIndex writer offset (buf, recs) block))
            (fst (snd (writerCore scaleIndex writer offset (buf, recs) block)))
    /\ Pushed (controlForScale scaleIndex) block base items offset items'
              (fst (writerCore scaleIndex writer offset (buf, recs) block)).
Proof.
  intros HW Hscale.
  pose proof (controlForScale_In scaleIndex Hscale) as Hin.
  destruct (Z.eq_dec offset kNoSimple8bControl) as [Eoff|Eoff].
  - subst offset. rewrite (writerCore_fresh scaleIndex writer buf recs block Hscale).
    cbn [fst snd].
    exists (items ++ [runOf (controlForScale scaleIndex) [block]]). split.
    + eapply Written_fresh_run; eassumption.
    + left. destruct HW as [Hbuf _]. rewrite <- Hbuf. auto.
  - pose proof HW as [Hbuf [Hgood Hopen]].
    destruct Hopen as [Hopen | [pre [c [blocks [Hitems [Hoff Hlen]]]]]];
      [contradiction|].
    assert (Hc : goodItem (IRun c blocks)).
    { rewrite Hitems in Hgood. apply Forall_app in Hgood.
      destruct Hgood as [_ Hlast]. now inversion Hlast. }
    destruct Hc as [control0 [Hin0 [Hlen0 Hc]]].
    assert (Hbuf' : buf = (base ++ layoutBytes pre) ++ c :: flat_map (le 8) blocks).
    { rewrite Hbuf, Hitems, layoutBytes_app, layoutBytes_run.
      now rewrite app_assoc. }
    destruct (control_bits control0 (Z.of_nat (List.length blocks) - 1) Hin0
                           ltac:(lia)) as [_ [Hhi Hlo]].
    replace (control0 + (Z.of_nat (List.length blocks) - 1)) with c in Hhi, Hlo by lia.
    assert (Hpeek : peekByte buf offset = c).
    { rewrite Hbuf', Hoff. apply peekByte_middle. }
    destruct (Z.eq_dec control0 (controlForScale scaleIndex)) as [Ectl|Ectl].
    + (* the open run has the same upper nibble: it gets the block *)
      assert (Hctl : Z.land (peekByte buf offset) kControlMask
                     = controlForScale scaleIndex) by (rewrite Hpeek, Hhi; exact Ectl).
      destruct (writerCore_extend scaleIndex writer offset buf recs block Eoff Hctl)
        as [E1 E2].
      rewrite E1, E2, Hpeek, Hlo. clear E1 E2.
      replace (Z.of_nat (List.length blocks) - 1 + 1)
        with (Z.of_nat (List.length blocks)) by lia.
      destruct (control_bits (controlForScale scaleIndex)
                             (Z.of_nat (List.length blocks)) Hin ltac:(lia))
        as [Hlor _].
      rewrite Hlor.
      assert (Hpoke : pokeByte buf offset
                               (controlForScale scaleIndex
                                + Z.of_nat (List.length blocks))
                      = (base ++ layoutBytes pre)
                          ++ (controlForScale scaleIndex
                              + Z.of_nat (List.length blocks))
                          :: flat_map (le 8) blocks).
      { rewrite Hbuf', Hoff. apply pokeByte_middle. }
      rewrite Hpoke.
      exists (pre ++ [runOf (controlForScale scaleIndex) (blocks ++ [block])]).
      split; [split; [|split]|].
      * rewrite layoutBytes_app. unfold runOf. rewrite layoutBytes_run.
        rewrite length_app. cbn [List.length].
        replace (controlForScale scaleIndex + Z.of_nat (List.length blocks + 1) - 1)
          with (controlForScale scaleIndex + Z.of_nat (List.length blocks)) by lia.
        rewrite flat_map_app. cbn [flat_map]. rewrite app_nil_r.
        rewrite <- !app_assoc. reflexivity.
      * rewrite Hitems in Hgood. apply Forall_app in Hgood.
        destruct Hgood as [Hpre _]. apply Forall_app. split; [exact Hpre|].
        constructor; [|constructor]. apply goodItem_runOf; [exact Hin|].
        rewrite length_app. cbn. lia.
      * destruct (Z.of_nat (List.length blocks) + 1 =? kMaxCount) eqn:Efull.
        -- now left.
        -- apply Z.eqb_neq in Efull. unfold kMaxCount in Efull.
           right. exists pre, (controlForScale scaleIndex
                               + Z.of_nat (List.length (blocks ++ [block])) - 1),
                   (blocks ++ [block]).
           split; [reflexivity|]. split; [exact Hoff|].
           rewrite length_app. cbn. lia.
      * right. exists pre, blocks.
        split; [|split; [exact Eoff|split; [exact Hlen|split; [reflexivity|]]]].
        -- rewrite Hitems. unfold runOf. rewrite Hc, Ectl. reflexivity.
        -- destruct (Nat.eqb (List.length blocks) 15) eqn:E15.
           ++ apply Nat.eqb_eq in E15. rewrite E15. reflexivity.
           ++ apply Nat.eqb_neq in E15.
              replace (Z.of_nat (List.length blocks) + 1 =? kMaxCount) with false;
                [reflexivity|].
              symmetry. apply Z.eqb_neq. unfold kMaxCount. lia.
    + (* another upper nibble: the open run is left and a new one starts *)
      assert (Hctl : Z.land (peekByte buf offset) kControlMask
                     <> controlForScale scaleIndex) by (rewrite Hpeek, Hhi; exact Ectl).
      destruct (writerCore_mismatch scaleIndex writer offset buf recs block
                                    Hscale Eoff Hctl) as [E1 E2].
      rewrite E1, E2. clear E1 E2.
      exists (items ++ [runOf (controlForScale scaleIndex) [block]]). split.
      * eapply Written_fresh_run; eassumption.
      * left. rewrite <- Hbuf. split; [reflexivity|]. split; [reflexivity|].
        right. exists pre, c, blocks. split; [exact Hitems|].
        rewrite Hhi. exact Ectl.
Qed.

Section Layout.

Variable C : Collaborators.

Lemma rememberLast_run (es : EncodingState C) :
  _controlByteOffset C (rememberLast es) = _controlByteOffset C es
  /\ _scaleIndex C (rememberLast es) = _scaleIndex C es.
Proof. unfold rememberLast. destruct es as [p ? ? ? ? ? ? ? ? ? ?]. now destruct p. Qed.

Lemma bufferWriter_pushed (base : list Z) (items : list Item)
    (st : EncodingState C * Sink) (block : Z) :
  StateLayout base items st ->
  exists items',
    StateLayout base items' (bufferWriter C st block)
    /\ _scaleIndex C (fst (bufferWriter C st block)) = _scaleIndex C (fst st)
    /\ Pushed (controlForScale (_scaleIndex C (fst st))) block base items
              (_controlByteOffset C (fst st)) items'
              (_controlByteOffset C (fst (bufferWriter C st block))).
Proof.
  destruct st as [es [buf recs]]. intros [HW Hscale]. cbn [fst snd] in *.
  rewrite bufferWriter_core. cbn [fst snd].
  destruct (writerCore_pushed base items _ buf recs _ (_controlBlockWriter C es) block
                              HW Hscale) as [items' [HW' HP]].
  set (r := writerCore (_scaleIndex C es) (_controlBlockWriter C es)
                       (_controlByteOffset C es) (buf, recs) block) in *.
  destruct (rememberLast_run (set_controlByteOffset C es (fst r))) as [Eoff Escale].
  assert (Eset : _controlByteOffset C (set_controlByteOffset C es (fst r)) = fst r
                 /\ _scaleIndex C (set_controlByteOffset C es (fst r))
                    = _scaleIndex C es)
    by (now destruct es).
  destruct Eset as [Eset1 Eset2].
  rewrite Eset1 in Eoff. rewrite Eset2 in Escale.
  exists items'. unfold StateLayout. cbn [fst snd].
  rewrite Eoff, Escale.
  split; [split; [exact HW' | exact Hscale] | split; [reflexivity | exact HP]].
Qed.

Lemma writeBlocks_Laid (base : list Z) (blocks : list Z) :
  forall st, Laid base st -> Laid base (writeBlocks C st blocks).
Proof.
  induction blocks as [|b rest IH]; intros st H; [exact H|].
  cbn [writeBlocks fold_left]. apply IH.
  destruct H as [items H].
  destruct (bufferWriter_pushed base items st b H) as [items' [H' _]].
  now exists items'.
Qed.

(** A change of members that keeps the offset or clears it, and leaves a
    scale index of the table, keeps the layout. *)
Lemma Laid_change (base : list Z) (es es' : EncodingState C) (sink : Sink) :
  Laid base (es, sink) ->
  _controlByteOffset C es' = _controlByteOffset C es
  \/ _controlByteOffset C es' = kNoSimple8bControl ->
  0 <= _scaleIndex C es' <= 5 ->
  Laid base (es', sink).
Proof.
  intros [items [[Hbuf [Hgood Hopen]] _]] Hoff Hscale. cbn [fst snd] in *.
  exists items. split; [|exact Hscale]. cbn [fst snd].
  split; [exact Hbuf|]. split; [exact Hgood|].
  destruct Hoff as [-> | ->]; [exact Hopen | now left].
Qed.

Lemma Laid_scale (base : list Z) (st : EncodingState C * Sink) :
  Laid base st -> 0 <= _scaleIndex C (fst st) <= 5.
Proof. now intros [items [_ H]]. Qed.

Lemma scaleAndEncodeFrom_range (tries : nat) :
  forall value idx,
    idx <= snd (scaleAndEncodeFrom C tries value idx) <= idx + Z.of_nat tries.
Proof.
  induction tries as [|k IH]; intros value idx; cbn [scaleAndEncodeFrom];
    destruct (encodeDouble C value idx); cbn [snd]; try lia.
  specialize (IH value (idx + 1)). lia.
Qed.

Lemma scaleAndEncodeDouble_range (value minScaleIndex : Z) :
  0 <= minScaleIndex <= 5 ->
  0 <= snd (scaleAndEncodeDouble C value minScaleIndex) <= 5.
Proof.
  intros H. unfold scaleAndEncodeDouble, kMemoryAsInteger.
  pose proof (scaleAndEncodeFrom_range (Z.to_nat (5 - minScaleIndex)) value
                                       minScaleIndex).
  lia.
Qed.

(** A change of members other than the offset and the scale index. *)
Lemma Laid_kept (base : list Z) (es es' : EncodingState C) (sink : Sink) :
  Laid base (es, sink) ->
  _controlByteOffset C es' = _controlByteOffset C es
  /\ _scaleIndex C es' = _scaleIndex C es ->
  Laid base (es', sink).
Proof.
  intros H [Hoff Hscale]. pose proof (Laid_scale _ _ H) as Hs. cbn [fst] in Hs.
  eapply Laid_change; [exact H | now left | lia].
Qed.

Lemma set_builder64_run (es : EncodingState C) (b : s8b (S64 C)) :
  _controlByteOffset C (set_builder64 C es b) = _controlByteOffset C es
  /\ _scaleIndex C (set_builder64 C es b) = _scaleIndex C es.
Proof. now destruct es. Qed.

Lemma set_builder128_run (es : EncodingState C) (b : s8b (S128 C)) :
  _controlByteOffset C (set_builder128 C es b) = _controlByteOffset C es
  /\ _scaleIndex C (set_builder128 C es b) = _scaleIndex C es.
Proof. now destruct es. Qed.

Lemma set_prev_run (es : EncodingState C) (v : BSONValue) :
  _controlByteOffset C (set_prev C es v) = _controlByteOffset C es
  /\ _scaleIndex C (set_prev C es v) = _scaleIndex C es.
Proof. now destruct es. Qed.

Lemma set_prevDelta_run (es : EncodingState C) (x : Z) :
  _controlByteOffset C (set_prevDelta C es x) = _controlByteOffset C es
  /\ _scaleIndex C (set_prevDelta C es x) = _scaleIndex C es.
Proof. now destruct es. Qed.

Lemma set_prevEncoded64_run (es : EncodingState C) (x : Z) :
  _controlByteOffset C (set_prevEncoded64 C es x) = _controlByteOffset C es
  /\ _scaleIndex C (set_prevEncoded64 C es x) = _scaleIndex C es.
Proof. now destruct es. Qed.

Lemma set_prevEncoded128_run (es : EncodingState C) (x : Z) :
  _controlByteOffset C (set_prevEncoded128 C es x) = _controlByteOffset C es
  /\ _scaleIndex C (set_prevEncoded128 C es x) = _scaleIndex C es.
Proof. now destruct es. Qed.

Lemma set_storeWith128_run (es : EncodingState C) (x : bool) :
  _controlByteOffset C (set_storeWith128 C es x) = _controlByteOffset C es
  /\ _scaleIndex C (set_storeWith128 C es x) = _scaleIndex C es.
Proof. now destruct es. Qed.

Lemma set_lastValueInPrevBlock_run (es : EncodingState C) (x : Z) :
  _controlByteOffset C (set_lastValueInPrevBlock C es x) = _controlByteOffset C es
  /\ _scaleIndex C (set_lastValueInPrevBlock C es x) = _scaleIndex C es.
Proof. now destruct es. Qed.

Lemma set_scaleIndex_run (es : EncodingState C) (x : Z) :
  _controlByteOffset C (set_scaleIndex C es x) = _controlByteOffset C es
  /\ _scaleIndex C (set_scaleIndex C es x) = x.
Proof. now destruct es. Qed.

Lemma set_controlByteOffset_run (es : EncodingState C) (x : Z) :
  _controlByteOffset C (set_controlByteOffset C es x) = x
  /\ _scaleIndex C (set_controlByteOffset C es x) = _scaleIndex C es.
Proof. now destruct es. Qed.

Lemma flush64_Laid (base : list Z) (st : EncodingState C * Sink) :
  Laid base st -> Laid base (flush64 C st).
Proof.
  intros H. unfold flush64.
  destruct (s8b_flush (S64 C) (_simple8bBuilder64 C (fst st))) as [blocks b].
  pose proof (writeBlocks_Laid base blocks st H) as H1.
  destruct (writeBlocks C st blocks) as [es1 sink1].
  eapply Laid_kept; [exact H1 | apply set_builder64_run].
Qed.

Lemma flush128_Laid (base : list Z) (st : EncodingState C * Sink) :
  Laid base st -> Laid base (flush128 C st).
Proof.
  intros H. unfold flush128.
  destruct (s8b_flush (S128 C) (_simple8bBuilder128 C (fst st))) as [blocks b].
  pose proof (writeBlocks_Laid base blocks st H) as H1.
  destruct (writeBlocks C st blocks) as [es1 sink1].
  eapply Laid_kept; [exact H1 | apply set_builder128_run].
Qed.

Lemma skip64_Laid (base : list Z) (st : EncodingState C * Sink) :
  Laid base st -> Laid base (skip64 C st).
Proof.
  intros H. unfold skip64.
  destruct (s8b_skip (S64 C) (_simple8bBuilder64 C (fst st))) as [blocks b].
  pose proof (writeBlocks_Laid base blocks st H) as H1.
  destruct (writeBlocks C st blocks) as [es1 sink1].
  eapply Laid_kept; [exact H1 | apply set_builder64_run].
Qed.

Lemma skip128_Laid (base : list Z) (st : EncodingState C * Sink) :
  Laid base st -> Laid base (skip128 C st).
Proof.
  intros H. unfold skip128.
  destruct (s8b_skip (S128 C) (_simple8bBuilder128 C (fst st))) as [blocks b].
  pose proof (writeBlocks_Laid base blocks st H) as H1.
  destruct (writeBlocks C st blocks) as [es1 sink1].
  eapply Laid_kept; [exact H1 | apply set_builder128_run].
Qed.

Lemma append64_Laid (base : list Z) (st : EncodingState C * Sink) (v : Z) :
  Laid base st -> Laid base (snd (append64 C st v)).
Proof.
  intros H. unfold append64.
  destruct (s8b_append (S64 C) (_simple8bBuilder64 C (fst st)) v) as [[ok blocks] b].
  pose proof (writeBlocks_Laid base blocks st H) as H1.
  destruct (writeBlocks C st blocks) as [es1 sink1]. cbn [snd].
  eapply Laid_kept; [exact H1 | apply set_builder64_run].
Qed.

Lemma append128_Laid (base : list Z) (st : EncodingState C * Sink) (v : Z) :
  Laid base st -> Laid base (snd (append128 C st v)).
Proof.
  intros H. unfold append128.
  destruct (s8b_append (S128 C) (_simple8bBuilder128 C (fst st)) v) as [[ok blocks] b].
  pose proof (writeBlocks_Laid base blocks st H) as H1.
  destruct (writeBlocks C st blocks) as [es1 sink1]. cbn [snd].
  eapply Laid_kept; [exact H1 | apply set_builder128_run].
Qed.

Lemma writeControlBlock_fst (es : EncodingState C) (sink : Sink) (offset size : Z) :
  fst (writeControlBlock C es sink offset size) = fst sink.
Proof. unfold writeControlBlock. now destruct (_controlBlockWriter C es). Qed.

Lemma initializeFromPrevious_run (es : EncodingState C) :
  _controlByteOffset C (_initializeFromPrevious C es) = _controlByteOffset C es
  /\ (0 <= _scaleIndex C es <= 5 ->
      0 <= _scaleIndex C (_initializeFromPrevious C es) <= 5).
Proof.
  unfold _initializeFromPrevious.
  destruct (_prev C es) eqn:Eprev;
    try (destruct es; cbn; split; [reflexivity | tauto]).
  pose proof (scaleAndEncodeDouble_range bits 0 ltac:(lia)) as Hr.
  destruct (scaleAndEncodeDouble C bits 0) as [encoded scaleIndex].
  cbn [snd] in Hr. destruct es; cbn. split; [reflexivity | intros _; exact Hr].
Qed.

(** _writeLiteralFromPrevious appends the stored image as a literal and
    leaves no control byte open. *)
Lemma writeLiteralFromPrevious_written (st : EncodingState C * Sink) :
  fst (snd (_writeLiteralFromPrevious C st))
  = fst (snd st) ++ prevImage (_prev C (fst st))
  /\ _controlByteOffset C (fst (_writeLiteralFromPrevious C st)) = kNoSimple8bControl
  /\ 0 <= _scaleIndex C (fst (_writeLiteralFromPrevious C st)) <= 5.
Proof.
  destruct st as [es sink]. unfold _writeLiteralFromPrevious. cbn [fst snd].
  destruct (initializeFromPrevious_run
              (set_prevDelta C
                 (set_scaleIndex C (set_controlByteOffset C es kNoSimple8bControl)
                                 kMemoryAsInteger) 0)) as [Hoff Hscale].
  split; [|split].
  - rewrite writeControlBlock_fst. cbn [fst].
    destruct (negb (_controlByteOffset C es =? kNoSimple8bControl));
      [now rewrite writeControlBlock_fst | reflexivity].
  - rewrite Hoff. now destruct es.
  - apply Hscale. destruct es. cbn. unfold kMemoryAsInteger. lia.
Qed.

Lemma writeLiteralFromPrevious_Laid (base : list Z) (st : EncodingState C * Sink) :
  Laid base st -> Laid base (_writeLiteralFromPrevious C st).
Proof.
  intros [items [[Hbuf [Hgood _]] _]].
  destruct (writeLiteralFromPrevious_written st) as [Ebuf [Eoff Escale]].
  exists (items ++ [ILiteral (_prev C (fst st))]).
  split; [|exact Escale]. split; [|split].
  - rewrite Ebuf, Hbuf, layoutBytes_app.
    change (layoutBytes [ILiteral (_prev C (fst st))])
      with (prevImage (_prev C (fst st)) ++ []).
    now rewrite app_nil_r, app_assoc.
  - apply Forall_app. split; [exact Hgood|]. now repeat constructor.
  - now left.
Qed.

Lemma storePrevious_Laid (base : list Z) (es : EncodingState C) (sink : Sink)
    (elem : BSONElement) :
  Laid base (es, sink) -> Laid base (_storePrevious C es elem, sink).
Proof. intros H. eapply Laid_kept; [exact H | apply set_prev_run]. Qed.

Lemma rescaleOrFlush_Laid (base : list Z) (st : EncodingState C * Sink)
    (value previous encoded scaleIndex : Z) r :
  Laid base st -> 0 <= scaleIndex <= 5 ->
  rescaleOrFlush C st value previous encoded scaleIndex = Ok r ->
  match r with
  | inl st' => Laid base st'
  | inr (_, st') => Laid base st'
  end.
Proof.
  intros H Hscale. destruct st as [es sink]. unfold rescaleOrFlush.
  destruct (_tryRescalePending C es encoded scaleIndex) as [[rescaled|]| | |];
    try discriminate.
  - intros E. injection E as <-.
    eapply Laid_change; [exact H | left | ].
    + rewrite (proj1 (set_scaleIndex_run _ _)), (proj1 (set_prevEncoded64_run _ _)).
      apply set_builder64_run.
    + now rewrite (proj2 (set_scaleIndex_run _ _)).
  - pose proof (flush64_Laid base (es, sink) H) as H1.
    destruct (flush64 C (es, sink)) as [es1 sink1].
    pose proof (scaleAndEncodeDouble_range previous scaleIndex Hscale) as Hp.
    destruct (scaleAndEncodeDouble C previous scaleIndex) as [prevEncoded prevScaleIndex].
    cbn [snd] in Hp.
    pose proof (scaleAndEncodeDouble_range value prevScaleIndex Hp) as Hv.
    destruct (scaleAndEncodeDouble C value prevScaleIndex) as [encoded' scaleIndex'].
    cbn [snd] in Hv.
    destruct (scaleAndEncodeDouble C previous scaleIndex') as [prevEncoded' ignored].
    destruct (negb (scaleIndex =? prevScaleIndex)); intros E; injection E as <-;
      (eapply Laid_change; [exact H1 | right | ]);
      try (rewrite (proj1 (set_scaleIndex_run _ _)),
             (proj1 (set_prevEncoded64_run _ _));
           apply set_controlByteOffset_run);
      now rewrite (proj2 (set_scaleIndex_run _ _)).
Qed.

Lemma replayPending_Laid (base : list Z) again (prevScale : Z)
    (pending : list (option Z)) :
  againLaid base again ->
  forall st prev prevEncoded st',
    Laid base st ->
    replayPending C again prevScale pending st prev prevEncoded = Ok st' ->
    Laid base st'.
Proof.
  intros Hagain.
  induction pending as [|[p|] rest IH]; intros st prev prevEncoded st' H E;
    cbn [replayPending] in E.
  - now injection E as <-.
  - destruct (again st (decodeDouble C (expandDelta prevEncoded (decodeInt64 p)) prevScale)
                    prev) as [[ok st1]| | |] eqn:Ea; try discriminate.
    eapply IH; [|exact E]. exact (Hagain _ _ _ _ H Ea).
  - eapply IH; [|exact E]. now apply skip64_Laid.
Qed.

Lemma appendDoubleStep_Laid (base : list Z) again :
  againLaid base again -> againLaid base (appendDoubleStep C again).
Proof.
  intros Hagain st value previous r H. unfold appendDoubleStep.
  pose proof (scaleAndEncodeDouble_range value (_scaleIndex C (fst st))
                                         (Laid_scale _ _ H)) as Hs.
  destruct (scaleAndEncodeDouble C value (_scaleIndex C (fst st)))
    as [encoded0 scaleIndex]. cbn [snd] in Hs.
  set (afterScale := if negb (scaleIndex =? _scaleIndex C (fst st))
                     then rescaleOrFlush C st value previous encoded0 scaleIndex
                     else Ok (inr (encoded0, st))).
  assert (Hafter : forall x, afterScale = Ok x ->
                     match x with
                     | inl st' => Laid base st'
                     | inr (_, st') => Laid base st'
                     end).
  { intros x. unfold afterScale.
    destruct (negb (scaleIndex =? _scaleIndex C (fst st))).
    - now apply rescaleOrFlush_Laid.
    - intros E. injection E as <-. exact H. }
  destruct afterScale as [[st'|[encoded st1]]| | |]; try discriminate.
  - intros E. injection E as <-. exact (Hafter _ eq_refl).
  - pose proof (Hafter _ eq_refl) as H1. cbn in H1.
    pose proof (append64_Laid base st1
                  (encodeInt64 (calcDelta encoded (_prevEncoded64 C (fst st1)))) H1)
      as H2.
    destruct (append64 C st1
                (encodeInt64 (calcDelta encoded (_prevEncoded64 C (fst st1)))))
      as [appended [es2 sink2]]. cbn [snd] in H2.
    destruct (negb appended); [intros E; now injection E as <-|].
    destruct (negb (bufLen sink2 =? bufLen (snd st1))).
    + pose proof (scaleAndEncodeDouble_range (_lastValueInPrevBlock C es2) 0
                                             ltac:(lia)) as Hl.
      destruct (scaleAndEncodeDouble C (_lastValueInPrevBlock C es2) 0)
        as [prevEncoded64 scaleIndex0]. cbn [snd] in Hl.
      match goal with
      | |- context [encodeDouble C ?a ?b] => destruct (encodeDouble C a b)
      end; try discriminate.
      match goal with
      | |- context [replayPending C again ?s ?p ?st0 ?a ?b] =>
          destruct (replayPending C again s p st0 a b) as [[es4 sink4]| | |] eqn:Er
      end; try discriminate.
      intros E. injection E as <-. cbn [snd].
      eapply Laid_kept; [|apply set_prevEncoded64_run].
      eapply replayPending_Laid; [exact Hagain| |exact Er].
      eapply Laid_change; [exact H2 | left | ].
      * rewrite (proj1 (set_builder64_run _ _)), (proj1 (set_scaleIndex_run _ _)).
        apply set_prevEncoded64_run.
      * rewrite (proj2 (set_builder64_run _ _)).
        now rewrite (proj2 (set_scaleIndex_run _ _)).
    + intros E. injection E as <-. cbn [snd].
      eapply Laid_kept; [exact H2 | apply set_prevEncoded64_run].
Qed.

Lemma appendDouble_Laid (base : list Z) (depth : nat) :
  againLaid base (_appendDouble C depth).
Proof.
  induction depth as [|d IH]; cbn [_appendDouble]; apply appendDoubleStep_Laid.
  - intros st value previous r _ E. discriminate E.
  - exact IH.
Qed.

Lemma deltaValue64_run (es : EncodingState C) (elem previous : BSONValue)
    (possible : bool) (value : Z) (es1 : EncodingState C) :
  deltaValue64 C es elem previous = Ok (possible, value, es1) ->
  _controlByteOffset C es1 = _controlByteOffset C es
  /\ _scaleIndex C es1 = _scaleIndex C es.
Proof.
  unfold deltaValue64.
  destruct elem; try discriminate;
    try (intros E; injection E as <- <- <-; now split);
    destruct previous; try discriminate;
    try (intros E; injection E as <- <- <-; now split).
  destruct (negb (objectIdDeltaPossible oid oid0));
    intros E; injection E as <- <- <-; now split.
Qed.

Lemma appendEncoded_Laid (base : list Z) (st : EncodingState C * Sink) (encoded : Z) :
  Laid base st -> Laid base (snd (appendEncoded C st encoded)).
Proof.
  intros H. unfold appendEncoded.
  pose proof (append128_Laid base st
                (encodeInt128 (calcDelta128 encoded (_prevEncoded128 C (fst st)))) H)
    as H1.
  destruct (append128 C st
              (encodeInt128 (calcDelta128 encoded (_prevEncoded128 C (fst st)))))
    as [compressed [es1 sink1]]. cbn [snd] in *.
  eapply Laid_kept; [exact H1 | apply set_prevEncoded128_run].
Qed.

Lemma appendValue128_Laid (base : list Z) (st : EncodingState C * Sink)
    (elem previous : BSONValue) r :
  Laid base st -> appendValue128 C st elem previous = Ok r -> Laid base (snd r).
Proof.
  intros H. unfold appendValue128.
  destruct elem; try discriminate.
  - destruct (encodeString C s); intros E; injection E as <-;
      [now apply appendEncoded_Laid | exact H].
  - destruct (negb _); [intros E; injection E as <-; exact H|].
    destruct (encodeBinary C data); intros E; injection E as <-;
      [now apply appendEncoded_Laid | exact H].
  - intros E; injection E as <-. now apply appendEncoded_Laid.
Qed.

(** EncodingState::append keeps the layout. *)
Lemma EncodingState_append_Laid (base : list Z) (depth : nat)
    (st st' : EncodingState C * Sink) (elem : BSONElement) :
  Laid base st -> EncodingState_append C depth st elem = Ok st' -> Laid base st'.
Proof.
  intros H. destruct st as [es sink]. unfold EncodingState_append.
  destruct (negb (BSONType_eqb (elemType (_previous C es)) (elemType elem))).
  - intros E. injection E as <-.
    apply writeLiteralFromPrevious_Laid, flush64_Laid, flush128_Laid.
    now apply storePrevious_Laid.
  - match goal with
    | |- match ?res with _ => _ end = _ -> _ =>
        assert (Hres : forall r, res = Ok r -> Laid base (snd r));
        [|destruct res as [[compressed [es1 sink1]]| | |]; try discriminate]
    end.
    { intros r.
      destruct (negb (usesDeltaOfDelta (elemType elem))
                && binaryEqualValues elem (_previous C es)).
      - destruct (_storeWith128 C es); intros E; injection E as <-; cbn [snd];
          [now apply append128_Laid | now apply append64_Laid].
      - destruct (_storeWith128 C es); [now apply appendValue128_Laid|].
        destruct (snd elem) eqn:Eelem;
          try (match goal with
               | |- match deltaValue64 ?c ?e ?a ?b with _ => _ end = _ -> _ =>
                   destruct (deltaValue64 c e a b)
                     as [[[possible value] es1]| | |] eqn:Ed; try discriminate;
                   pose proof (deltaValue64_run _ _ _ _ _ _ Ed) as Hrun;
                   assert (H1 : Laid base (es1, sink))
                     by (eapply Laid_kept; [exact H | exact Hrun]);
                   destruct possible; cbv beta iota; intros E; injection E as <-;
                   first [now apply append64_Laid | exact H1]
               end).
        intros E.
        match type of E with
        | match ?x with _ => _ end = _ => destruct x; try discriminate E
        end.
        exact (appendDouble_Laid base depth _ _ _ _ H E). }
    pose proof (Hres _ eq_refl) as H1. cbn [snd] in H1.
    destruct (negb compressed); intros E; injection E as <-.
    + apply writeLiteralFromPrevious_Laid, flush64_Laid, flush128_Laid.
      now apply storePrevious_Laid.
    + now apply storePrevious_Laid.
Qed.

Lemma EncodingState_skip_Laid (base : list Z) (st : EncodingState C * Sink) :
  Laid base st -> Laid base (EncodingState_skip C st).
Proof.
  intros H. unfold EncodingState_skip.
  assert (H1 : Laid base (if _storeWith128 C (fst st) then skip128 C st else skip64 C st))
    by (destruct (_storeWith128 C (fst st)); [now apply skip128_Laid | now apply skip64_Laid]).
  destruct (if _storeWith128 C (fst st) then skip128 C st else skip64 C st)
    as [es1 sink1].
  destruct (negb (bufLen (snd st) =? bufLen sink1)
            && BSONType_eqb (valueType (_prev C es1)) NumberDouble); [|exact H1].
  pose proof (scaleAndEncodeDouble_range (_lastValueInPrevBlock C es1) 0 ltac:(lia)) as Hl.
  destruct (scaleAndEncodeDouble C (_lastValueInPrevBlock C es1) 0)
    as [encoded scaleIndex]. cbn [snd] in Hl.
  eapply Laid_change; [exact H1 | left | ].
  - rewrite (proj1 (set_scaleIndex_run _ _)). apply set_prevEncoded64_run.
  - now rewrite (proj2 (set_scaleIndex_run _ _)).
Qed.

Lemma EncodingState_flush_Laid (base : list Z) (st : EncodingState C * Sink) :
  Laid base st -> Laid base (EncodingState_flush C st).
Proof.
  intros H. unfold EncodingState_flush.
  pose proof (flush64_Laid base _ (flush128_Laid base _ H)) as H1.
  destruct (flush64 C (flush128 C st)) as [es1 sink1].
  destruct (negb (_controlByteOffset C es1 =? kNoSimple8bControl)); [|exact H1].
  destruct H1 as [items [HW Hs]]. exists items. split; [|exact Hs].
  cbn [fst snd] in *. now rewrite writeControlBlock_fst.
Qed.

Lemma stateCalls_Laid (base : list Z) (depth : nat) (cs : list StateCall) :
  forall st st',
    Laid base st -> stateCalls C depth st cs = Ok st' -> Laid base st'.
Proof.
  induction cs as [|c rest IH]; intros st st' H; cbn [stateCalls].
  - intros E. now injection E as <-.
  - destruct (stateCall C depth st c) as [st1| | |] eqn:Ec; try discriminate.
    apply IH. destruct c; cbn [stateCall] in Ec.
    + eapply EncodingState_append_Laid; eassumption.
    + injection Ec as <-. now apply EncodingState_skip_Laid.
    + injection Ec as <-. now apply EncodingState_flush_Laid.
Qed.

Lemma newEncodingState_Laid (base : list Z) (writer : bool) (recs : list (Z * Z)) :
  Laid base (newEncodingState C writer, (base, recs)).
Proof.
  exists []. split; [|cbn; unfold kMemoryAsInteger; lia].
  split; [cbn; now rewrite app_nil_r|]. split; [constructor | now left].
Qed.

(** C5.  Whatever calls are made on an EncodingState, what it has written
    after [base] is a sequence of literals and Simple-8b runs in which the
    lower nibble of every control byte, plus one, is the number of 8-byte
    blocks that follow it (up to the next control byte, literal or the end).
    A control byte that is open (its offset is recorded) is the one of the
    last run and its lower nibble is below 15; and the next block either
    starts a run of its own at the end of the buffer, with lower nibble 0,
    or is added to the open run, whose offset is cleared when that makes
    sixteen blocks. *)
Theorem simple8b_runs_layout (depth : nat) (writer : bool) (base : list Z)
    (recs : list (Z * Z)) (cs : list StateCall) (es : EncodingState C) (sink : Sink) :
  stateCalls C depth (newEncodingState C writer, (base, recs)) cs = Ok (es, sink) ->
  exists items,
    fst sink = base ++ layoutBytes items
    /\ Forall runWellFormed items
    /\ (_controlByteOffset C es = kNoSimple8bControl
        \/ exists pre control blocks,
             items = pre ++ [IRun control blocks]
             /\ _controlByteOffset C es
                = Z.of_nat (List.length (base ++ layoutBytes pre))
             /\ Z.land control kCountMask < 15)
    /\ forall block,
        exists items',
          fst (snd (bufferWriter C (es, sink) block)) = base ++ layoutBytes items'
          /\ Forall runWellFormed items'
          /\ Pushed (controlForScale (_scaleIndex C es)) block base items
                    (_controlByteOffset C es) items'
                    (_controlByteOffset C (fst (bufferWriter C (es, sink) block))).
Proof.
  intros E.
  destruct (stateCalls_Laid base depth cs _ _ (newEncodingState_Laid base writer recs) E)
    as [items HL].
  pose proof HL as [[Hbuf [Hgood Hopen]] Hscale]. cbn [fst snd] in *.
  exists items. split; [exact Hbuf|]. split; [|split].
  - eapply Forall_impl; [|exact Hgood]. apply goodItem_runWellFormed.
  - destruct Hopen as [Hopen | [pre [c [blocks [Hitems [Hoff Hlen]]]]]];
      [now left | right].
    exists pre, c, blocks. split; [exact Hitems|]. split; [exact Hoff|].
    assert (Hc : goodItem (IRun c blocks)).
    { rewrite Hitems in Hgood. apply Forall_app in Hgood.
      destruct Hgood as [_ Hlast]. now inversion Hlast. }
    apply goodItem_runWellFormed in Hc. destruct Hc as [_ Hc]. lia.
  - intros block.
    destruct (bufferWriter_pushed base items (es, sink) block HL)
      as [items' [[[Hbuf' [Hgood' _]] _] [_ HP]]].
    exists items'. split; [exact Hbuf'|]. split; [|exact HP].
    eapply Forall_impl; [|exact Hgood']. apply goodItem_runWellFormed.
Qed.

End Layout.

(** ** Runs of one scale: the blocks in groups of sixteen *)

Lemma map_eq_snoc {A B : Type} (f : A -> B) (l : list A) (pre : list B) (x : B) :
  map f l = pre ++ [x] ->
  exists l' a, l = l' ++ [a] /\ map f l' = pre /\ f a = x.
Proof.
  intros H.
  destruct (exists_last (l := l)) as [l' [a ->]].
  { intros ->. destruct pre; discriminate H. }
  rewrite map_app in H. cbn [map] in H. apply app_inj_tail in H.
  destruct H as [H1 H2]. now exists l', a.
Qed.

Lemma Chunked_pushed (control block : Z) (base : list Z) (blocks : list Z)
    (items items' : list Item) (offset offset' : Z) :
  In control kControlByteForScaleIndex ->
  Chunked control blocks items offset ->
  Pushed control block base items offset items' offset' ->
  Chunked control (blocks ++ [block]) items' offset'.
Proof.
  intros Hin [groups [Hitems [Hconcat [Hrange [Hfull Hclosed]]]]] HP.
  destruct HP as [[Hitems' [Hoff' Hwhy]]
                 | [pre [bs [Hlast [Hopen [Hlen [Hitems' Hoff']]]]]]].
  - assert (Hallfull : Forall (fun g => List.length g = 16%nat) groups).
    { destruct Hwhy as [Hoff | [pre [c [bs [Hlast Hmis]]]]]; [now apply Hclosed|].
      exfalso. rewrite Hitems in Hlast.
      destruct (map_eq_snoc _ _ _ _ Hlast) as [gs [g [-> [_ Hg]]]].
      injection Hg as Hc _.
      apply Forall_app in Hrange. destruct Hrange as [_ Hg].
      inversion Hg as [|? ? Hg1 _]; subst.
      destruct (control_bits control (Z.of_nat (List.length g) - 1) Hin ltac:(lia))
        as [_ [Hhi _]].
      apply Hmis. rewrite <- Hhi. f_equal. lia. }
    exists (groups ++ [[block]]). split; [|split; [|split; [|split]]].
    + rewrite Hitems', Hitems, map_app. reflexivity.
    + rewrite concat_app, Hconcat. cbn. reflexivity.
    + apply Forall_app. split; [exact Hrange|]. repeat constructor.
    + rewrite removelast_last. exact Hallfull.
    + intros E. exfalso. rewrite Hoff' in E. unfold kNoSimple8bControl in E. lia.
  - rewrite Hitems in Hlast.
    destruct (map_eq_snoc _ _ _ _ Hlast) as [gs [g [-> [Hpre Hg]]]].
    injection Hg as _ ->.
    rewrite removelast_last in Hfull.
    exists (gs ++ [bs ++ [block]]). split; [|split; [|split; [|split]]].
    + rewrite Hitems', map_app, Hpre. reflexivity.
    + rewrite <- Hconcat, !concat_app. cbn. now rewrite !app_nil_r, app_assoc.
    + apply Forall_app in Hrange. destruct Hrange as [Hgs _].
      apply Forall_app. split; [exact Hgs|]. constructor; [|constructor].
      rewrite length_app. cbn. lia.
    + rewrite removelast_last. exact Hfull.
    + intros E. rewrite Hoff' in E.
      destruct (Nat.eqb (List.length bs) 15) eqn:E15; [|contradiction].
      apply Nat.eqb_eq in E15.
      apply Forall_app. split; [exact Hfull|]. constructor; [|constructor].
      rewrite length_app. cbn. lia.
Qed.

Lemma Chunked_nil (control : Z) (offset : Z) : Chunked control [] [] offset.
Proof. exists []. repeat split; constructor. Qed.

Section Runs.

Variable C : Collaborators.

Lemma sameButRun_refl (es : EncodingState C) : sameButRun es es.
Proof. repeat split. Qed.

Lemma sameButRun_trans (a b c : EncodingState C) :
  sameButRun a b -> sameButRun b c -> sameButRun a c.
Proof. unfold sameButRun. intuition congruence. Qed.

Lemma bufferWriter_sameButRun (es : EncodingState C) (sink : Sink) (block : Z) :
  sameButRun es (fst (bufferWriter C (es, sink) block)).
Proof.
  rewrite bufferWriter_core. cbn [fst]. unfold rememberLast.
  destruct (_prev C (set_controlByteOffset C es _)) eqn:E;
    destruct es; cbn in *; repeat split; assumption.
Qed.

Lemma writeBlocks_sameButRun (blocks : list Z) :
  forall (es : EncodingState C) (sink : Sink),
    sameButRun es (fst (writeBlocks C (es, sink) blocks)).
Proof.
  induction blocks as [|b rest IH]; intros es sink.
  - apply sameButRun_refl.
  - cbn [writeBlocks fold_left].
    pose proof (bufferWriter_sameButRun es sink b) as H.
    destruct (bufferWriter C (es, sink) b) as [es1 sink1].
    eapply sameButRun_trans; [exact H | apply IH].
Qed.

(** Blocks written at one scale index stay in groups of sixteen. *)
Lemma writeBlocks_chunked (base : list Z) (control : Z) (more : list Z) :
  forall st items blocks,
    StateLayout base items st ->
    controlForScale (_scaleIndex C (fst st)) = control ->
    Chunked control blocks items (_controlByteOffset C (fst st)) ->
    exists items',
      StateLayout base items' (writeBlocks C st more)
      /\ Chunked control (blocks ++ more) items'
                 (_controlByteOffset C (fst (writeBlocks C st more))).
Proof.
  induction more as [|b rest IH]; intros st items blocks HL Hctl HC.
  - exists items. rewrite app_nil_r. now split.
  - cbn [writeBlocks fold_left].
    destruct (bufferWriter_pushed C base items st b HL) as [items1 [HL1 [Hs1 HP]]].
    rewrite Hctl in HP.
    assert (Hin : In control kControlByteForScaleIndex).
    { rewrite <- Hctl. apply controlForScale_In. now destruct HL. }
    pose proof (Chunked_pushed control b base blocks items items1 _ _ Hin HC HP) as HC1.
    destruct (IH (bufferWriter C st b) items1 (blocks ++ [b]) HL1
                 ltac:(now rewrite Hs1) HC1) as [items' [HL' HC']].
    exists items'. split; [exact HL'|].
    now rewrite <- app_assoc in HC'.
Qed.

End Runs.

(* ================================================================== *)
(** ** A value of another type than the previous one *)
(* ================================================================== *)

Section TypeChange.

Variable C : Collaborators.

(** What a flush of a Simple-8b builder leaves of the state. *)
Lemma flush128_members (st : EncodingState C * Sink) :
  _prev C (fst (flush128 C st)) = _prev C (fst st)
  /\ _simple8bBuilder64 C (fst (flush128 C st)) = _simple8bBuilder64 C (fst st)
  /\ _simple8bBuilder128 C (fst (flush128 C st))
     = snd (s8b_flush (S128 C) (_simple8bBuilder128 C (fst st))).
Proof.
  unfold flush128.
  destruct (s8b_flush (S128 C) (_simple8bBuilder128 C (fst st))) as [blocks b].
  destruct st as [es sink].
  pose proof (writeBlocks_sameButRun C blocks es sink) as H.
  destruct (writeBlocks C (es, sink) blocks) as [es1 sink1].
  cbn [fst snd] in *. destruct H as [Hprev [_ [H64 _]]].
  destruct es1; cbn in *. now rewrite Hprev, H64.
Qed.

Lemma flush64_members (st : EncodingState C * Sink) :
  _prev C (fst (flush64 C st)) = _prev C (fst st)
  /\ _simple8bBuilder128 C (fst (flush64 C st)) = _simple8bBuilder128 C (fst st)
  /\ _simple8bBuilder64 C (fst (flush64 C st))
     = snd (s8b_flush (S64 C) (_simple8bBuilder64 C (fst st))).
Proof.
  unfold flush64.
  destruct (s8b_flush (S64 C) (_simple8bBuilder64 C (fst st))) as [blocks b].
  destruct st as [es sink].
  pose proof (writeBlocks_sameButRun C blocks es sink) as H.
  destruct (writeBlocks C (es, sink) blocks) as [es1 sink1].
  cbn [fst snd] in *. destruct H as [Hprev [_ [_ [H128 _]]]].
  destruct es1; cbn in *. now rewrite Hprev, H128.
Qed.

Lemma initializeFromPrevious_members (es : EncodingState C) :
  _prev C (_initializeFromPrevious C es) = _prev C es
  /\ _prevDelta C (_initializeFromPrevious C es) = _prevDelta C es
  /\ _simple8bBuilder64 C (_initializeFromPrevious C es) = _simple8bBuilder64 C es
  /\ _simple8bBuilder128 C (_initializeFromPrevious C es) = _simple8bBuilder128 C es
  /\ _storeWith128 C (_initializeFromPrevious C es) = uses128bit (valueType (_prev C es))
  /\ _scaleIndex C (_initializeFromPrevious C es)
     = scaleIndexFor C (_prev C es) (_scaleIndex C es).
Proof.
  unfold _initializeFromPrevious, scaleIndexFor.
  destruct (_prev C es) eqn:Eprev;
    try (destruct es; cbn in *; subst; repeat split; reflexivity).
  destruct (scaleAndEncodeDouble C bits 0) as [encoded scaleIndex].
  destruct es; cbn in *; subst. repeat split; reflexivity.
Qed.

Lemma writeLiteralFromPrevious_members (st : EncodingState C * Sink) :
  _prev C (fst (_writeLiteralFromPrevious C st)) = _prev C (fst st)
  /\ _prevDelta C (fst (_writeLiteralFromPrevious C st)) = 0
  /\ _simple8bBuilder64 C (fst (_writeLiteralFromPrevious C st))
     = _simple8bBuilder64 C (fst st)
  /\ _simple8bBuilder128 C (fst (_writeLiteralFromPrevious C st))
     = _simple8bBuilder128 C (fst st)
  /\ _storeWith128 C (fst (_writeLiteralFromPrevious C st))
     = uses128bit (valueType (_prev C (fst st)))
  /\ _scaleIndex C (fst (_writeLiteralFromPrevious C st))
     = scaleIndexFor C (_prev C (fst st)) kMemoryAsInteger.
Proof.
  destruct st as [es sink]. unfold _writeLiteralFromPrevious. cbn [fst snd].
  destruct (initializeFromPrevious_members
              (set_prevDelta C
                 (set_scaleIndex C (set_controlByteOffset C es kNoSimple8bControl)
                                 kMemoryAsInteger) 0))
    as [Hprev [Hdelta [H64 [H128 [Hstore Hscale]]]]].
  rewrite Hprev, Hdelta, H64, H128, Hstore, Hscale.
  destruct es; cbn. repeat split; reflexivity.
Qed.

(** C4 (amended).  When EncodingState::append receives a value whose type
    differs from the type of the stored previous element (EOO when nothing
    is stored), the call returns, and: the value is the new previous; the
    128-bit builder and then the 64-bit builder are flushed, and are left
    as the flush left them, with nothing appended to them; the buffer is
    the buffer after the two flushes followed by the literal, which is the
    type byte, the zero byte that ends the empty field name, and the
    payload; no control byte is open; _prevDelta is 0; _storeWith128 tells
    whether the type is a 128-bit one; and _scaleIndex is 5 unless the
    value is a double, for which it is the scale index the value itself is
    encoded with. *)
Theorem append_type_change (depth : nat) (es : EncodingState C) (sink : Sink)
    (elem : BSONElement) :
  BSONType_eqb (elemType (_previous C es)) (elemType elem) = false ->
  exists (es' : EncodingState C) (sink' : Sink),
    EncodingState_append C depth (es, sink) elem = Ok (es', sink')
    /\ _prev C es' = snd elem
    /\ _simple8bBuilder128 C es'
       = snd (s8b_flush (S128 C) (_simple8bBuilder128 C es))
    /\ _simple8bBuilder64 C es'
       = snd (s8b_flush (S64 C) (_simple8bBuilder64 C es))
    /\ fst sink'
       = fst (snd (flush64 C (flush128 C (_storePrevious C es elem, sink))))
         ++ [Z.land (typeCode (elemType elem)) 255; 0] ++ valueBytes (snd elem)
    /\ _controlByteOffset C es' = kNoSimple8bControl
    /\ _prevDelta C es' = 0
    /\ _storeWith128 C es' = uses128bit (elemType elem)
    /\ _scaleIndex C es'
       = match snd elem with
         | VDouble d => snd (scaleAndEncodeDouble C d 0)
         | _ => kMemoryAsInteger
         end.
Proof.
  intros Htype.
  set (flushed := flush64 C (flush128 C (_storePrevious C es elem, sink))).
  exists (fst (_writeLiteralFromPrevious C flushed)),
         (snd (_writeLiteralFromPrevious C flushed)).
  assert (Hprev : _prev C (fst flushed) = snd elem).
  { unfold flushed.
    rewrite (proj1 (flush64_members _)), (proj1 (flush128_members _)).
    cbn [fst]. unfold _storePrevious. now destruct es. }
  destruct (writeLiteralFromPrevious_members flushed)
    as [Ep [Ed [E64 [E128 [Es Esc]]]]].
  destruct (writeLiteralFromPrevious_written C flushed) as [Ebuf [Eoff _]].
  split.
  { unfold EncodingState_append. rewrite Htype. cbn [negb]. fold flushed.
    now destruct (_writeLiteralFromPrevious C flushed). }
  split; [now rewrite Ep|].
  split.
  { rewrite E128. unfold flushed.
    rewrite (proj1 (proj2 (flush64_members _))).
    rewrite (proj2 (proj2 (flush128_members _))).
    cbn [fst]. unfold _storePrevious. now destruct es. }
  split.
  { rewrite E64. unfold flushed.
    rewrite (proj2 (proj2 (flush64_members _))).
    rewrite (proj1 (proj2 (flush128_members _))).
    cbn [fst]. unfold _storePrevious. now destruct es. }
  split; [rewrite Ebuf, Hprev; reflexivity|].
  split; [exact Eoff|].
  split; [exact Ed|].
  split; [rewrite Es, Hprev; reflexivity|].
  rewrite Esc, Hprev. reflexivity.
Qed.

End TypeChange.

(** C4 (as stated, refuted).  The first value a state gets is a double,
    1.0: the scale index is left at 0, not at 5, and a zero byte stands
    between the type byte and the payload of the literal. *)
Lemma append_first_double_scale :
  BSONType_eqb
    (elemType (_previous Reference.collaborators
                         (newEncodingState Reference.collaborators false)))
    (elemType Inputs.one) = false
  /\ onOk (fun st => (_scaleIndex Reference.collaborators (fst st), fst (snd st)))
          (EncodingState_append Reference.collaborators 0
             (newEncodingState Reference.collaborators false, ([], []))
             Inputs.one)
     = Some (0, [1; 0; 0; 0; 0; 0; 0; 0; 0xF0; 0x3F])
  /\ 0 <> kMemoryAsInteger.
Proof.
  split; [vm_compute; reflexivity|].
  split; [vm_compute; reflexivity|].
  unfold kMemoryAsInteger. lia.
Qed.

(* ================================================================== *)
(** ** The element count and the main buffer *)
(* ================================================================== *)

Section Count.

Variable C : Collaborators.
Variable depth : nat.

Lemma Kept_refl (b : BSONColumnBuilder C) : Kept b b.
Proof. split; [reflexivity|]. split; [reflexivity|]. exists []. now rewrite app_nil_r. Qed.

Lemma Kept_trans (a b c : BSONColumnBuilder C) : Kept a b -> Kept b c -> Kept a c.
Proof.
  intros [Hs [Hc [m Hb]]] [Hs' [Hc' [m' Hb']]].
  split; [congruence|]. split; [congruence|].
  exists (m ++ m'). now rewrite Hb', Hb, app_assoc.
Qed.

Lemma Laid_length (base : list Z) (st : EncodingState C * Sink) :
  Laid base st -> (List.length base <= List.length (fst (snd st)))%nat.
Proof.
  intros [items [[Hbuf _] _]]. rewrite Hbuf, length_app. lia.
Qed.

Lemma Laid_rebase (base buf : list Z) (es : EncodingState C) (sink : Sink)
    (recs : list (Z * Z)) :
  Laid base (es, sink) ->
  _controlByteOffset C es = kNoSimple8bControl ->
  Laid buf (es, (buf, recs)).
Proof.
  intros H Hoff. pose proof (Laid_scale C _ _ H) as Hs.
  exists []. split; [|exact Hs]. cbn [fst snd].
  split; [cbn; now rewrite app_nil_r|]. split; [constructor | now left].
Qed.

Lemma BuilderLaid_length (b : BSONColumnBuilder C) :
  BuilderLaid b -> (4 <= List.length (_bufBuilder C b))%nat.
Proof.
  intros [[base [Hlen H]] _]. apply Laid_length in H. cbn in H. lia.
Qed.

(** A builder outside regular mode whose main buffer grew. *)
Lemma BuilderLaid_grown (b b' : BSONColumnBuilder C) :
  BuilderLaid b -> _mode C b <> kRegular ->
  _state C b' = _state C b ->
  (exists more, _bufBuilder C b' = _bufBuilder C b ++ more) ->
  BuilderLaid b'.
Proof.
  intros HL Hmode Hs [more Hb].
  pose proof (BuilderLaid_length b HL) as Hlen.
  destruct HL as [[base [_ H]] Hoff]. specialize (Hoff Hmode).
  split.
  - exists (_bufBuilder C b'). split; [rewrite Hb, length_app; lia|].
    unfold mainState. rewrite Hs.
    eapply Laid_rebase; [exact H | exact Hoff].
  - intros _. now rewrite Hs.
Qed.

Lemma BuilderLaid_kept (b b' : BSONColumnBuilder C) :
  BuilderLaid b -> _mode C b <> kRegular -> Kept b b' -> BuilderLaid b'.
Proof.
  intros HL Hmode [Hs [_ Hb]]. now apply (BuilderLaid_grown b).
Qed.

Lemma startDetermineSubObjReference_laid (b b' : BSONColumnBuilder C) (obj : BSONObj) :
  BuilderLaid b ->
  _startDetermineSubObjReference C b obj = Ok b' ->
  BuilderLaid b'
  /\ _elementCount C b' = _elementCount C b
  /\ _mode C b' = kSubObjDeterminingReference.
Proof.
  intros [[base [Hlen H]] _]. unfold _startDetermineSubObjReference.
  pose proof (EncodingState_flush_Laid C base _ H) as H1.
  destruct (EncodingState_flush C (mainState C b)) as [es1 sink1].
  destruct (existsb _ _); [discriminate|].
  intros E. injection E as <-. cbn.
  split; [|now split].
  pose proof (Laid_length _ _ H1) as Hl. cbn [fst snd] in Hl.
  split; [|reflexivity].
  exists (fst sink1). split; [lia|].
  unfold mainState. cbn.
  exists []. split; [|cbn; unfold kMemoryAsInteger; lia].
  split; [cbn; now rewrite app_nil_r|]. split; [constructor | now left].
Qed.

(** _appendSubElements either takes the way of an incompatible object or
    changes only the flattened object and the sub-object states. *)
Lemma appendSubElementsWith_cases
    (restart : BSONColumnBuilder C -> BSONObj -> Outcome (BSONColumnBuilder C))
    (b b' : BSONColumnBuilder C) (obj : BSONObj) :
  appendSubElementsWith C depth restart b obj = Ok b' ->
  (exists flat, restart (set_flattenedAppendedObj C b flat) obj = Ok b')
  \/ (exists flat states buffers,
        b' = set_subobj C (set_flattenedAppendedObj C b flat) states buffers).
Proof.
  unfold appendSubElementsWith.
  destruct (traverseLockStep (_referenceSubObj C b) obj) as [calls compatible].
  destruct (flattenCalls calls []) as [flat thrown].
  destruct thrown; [discriminate|].
  destruct (negb compatible).
  - intros E. left. now exists flat.
  - destruct (negb _); [discriminate|].
    destruct (appendToStates _ _ _ _ _) as [[states buffers]| | |]; try discriminate.
    intros E. injection E as <-. right. now exists flat, states, buffers.
Qed.

Lemma replayBuffered_kept (objs : list BSONObj) :
  forall b b',
    replayBuffered C depth b objs = Ok b' ->
    Kept b b' /\ _mode C b' = _mode C b.
Proof.
  induction objs as [|obj rest IH]; intros b b'; cbn [replayBuffered].
  - intros E. injection E as <-. split; [apply Kept_refl | reflexivity].
  - destruct (appendSubElementsWith C depth _ b obj) as [b1| | |] eqn:E1;
      try discriminate.
    intros E. destruct (IH _ _ E) as [HK Hm].
    destruct (appendSubElementsWith_cases _ _ _ _ E1)
      as [[flat Hf] | [flat [states [buffers ->]]]]; [discriminate|].
    split; [|exact Hm].
    eapply Kept_trans; [|exact HK].
    split; [reflexivity|]. split; [reflexivity|]. exists []. cbn. now rewrite app_nil_r.
Qed.

Lemma finishDetermineSubObjReference_kept (b b' : BSONColumnBuilder C) :
  _finishDetermineSubObjReference C depth b = Ok b' ->
  Kept b b'
  /\ _mode C b' = kSubObjAppending
  /\ _bufferedObjElements C b' = [].
Proof.
  unfold _finishDetermineSubObjReference.
  set (b1 := set_bufBuilder C b _).
  destruct (_bufferedObjElements C b1) as [|front rest]; [discriminate|].
  destruct (traverseLockStep (_referenceSubObj C b1) front) as [calls res].
  destruct (setupStates C depth calls _ _) as [[states buffers]| | |]; try discriminate.
  destruct (negb res); [discriminate|].
  destruct (replayBuffered C depth _ rest) as [b3| | |] eqn:E3; try discriminate.
  intros E. injection E as <-.
  destruct (replayBuffered_kept _ _ _ E3) as [[Hs [Hc [more Hb]]] Hm].
  subst b1.
  cbn [_state _bufBuilder _elementCount _mode _bufferedObjElements
       set_bufferedObjElements set_mode set_subobj set_bufBuilder] in *.
  split; [|split; [exact Hm | reflexivity]].
  split; [exact Hs|]. split; [exact Hc|].
  eexists. cbn [_bufBuilder set_bufferedObjElements].
  rewrite Hb. rewrite <- app_assoc. reflexivity.
Qed.

Lemma interleaveLoop_grows (fuel : nat) :
  forall heap buffers out out',
    interleaveLoop C fuel heap buffers out = Ok out' ->
    exists more, out' = out ++ more.
Proof.
  induction fuel as [|k IH]; intros heap buffers out out'.
  - cbn [interleaveLoop].
    destruct (heapMin heap) as [top|].
    + destruct (nth_error buffers _) as [slot|]; [|discriminate].
      destruct (snd slot) as [|[offset size] remaining]; discriminate.
    + intros E. injection E as <-. exists []. now rewrite app_nil_r.
  - cbn [interleaveLoop].
    destruct (heapMin heap) as [top|].
    + destruct (nth_error buffers _) as [slot|]; [|discriminate].
      destruct (snd slot) as [|[offset size] remaining]; [discriminate|].
      destruct remaining as [|r rs]; intros E; apply IH in E;
        destruct E as [more ->]; eexists; rewrite <- app_assoc; reflexivity.
    + intros E. injection E as <-. exists []. now rewrite app_nil_r.
Qed.

(** The loop of _flushSubObjMode takes one control block off a buffer at
    every turn, so the number of control blocks is fuel enough. *)
Lemma replaceNth_total (buffers : list Sink) :
  forall (n : nat) (slot : Sink) (x : Z * Z) (remaining : list (Z * Z)),
    nth_error buffers n = Some slot ->
    snd slot = x :: remaining ->
    S (totalControlBlocks (replaceNth n (fst slot, remaining) buffers))
    = totalControlBlocks buffers.
Proof.
  induction buffers as [|s0 rest IH]; intros [|n] slot x remaining Hn Hs;
    cbn [nth_error] in Hn; try discriminate.
  - injection Hn as ->. cbn [replaceNth totalControlBlocks fold_right snd].
    rewrite Hs. reflexivity.
  - cbn [replaceNth totalControlBlocks fold_right].
    specialize (IH n slot x remaining Hn Hs). unfold totalControlBlocks in IH.
    rewrite <- IH. lia.
Qed.

Lemma interleaveLoop_fuel (fuel : nat) :
  forall heap buffers out,
    (totalControlBlocks buffers <= fuel)%nat ->
    interleaveLoop C fuel heap buffers out <> OutOfFuel.
Proof.
  induction fuel as [|k IH]; intros heap buffers out Hfuel; cbn [interleaveLoop];
    destruct (heapMin heap) as [top|]; try discriminate;
    destruct (nth_error buffers _) as [slot|] eqn:En; try discriminate;
    destruct (snd slot) as [|[offset size] remaining] eqn:Es; try discriminate;
    pose proof (replaceNth_total buffers _ slot _ remaining En Es) as Ht.
  - lia.
  - destruct remaining as [|r rs]; apply IH; lia.
Qed.

Lemma flushSubObjStates_fuel (b : BSONColumnBuilder C) :
  flushSubObjStates C b <> OutOfFuel.
Proof.
  unfold flushSubObjStates.
  match goal with
  | |- context [interleaveLoop C ?f ?h ?bs ?o] =>
      pose proof (interleaveLoop_fuel f h bs o (Nat.le_refl _)) as H;
      destruct (interleaveLoop C f h bs o)
  end; congruence.
Qed.

Lemma flushSubObjStates_kept (b b' : BSONColumnBuilder C) :
  flushSubObjStates C b = Ok b' ->
  Kept b b'
  /\ _mode C b' = kRegular
  /\ _bufferedObjElements C b' = _bufferedObjElements C b.
Proof.
  unfold flushSubObjStates.
  destruct (interleaveLoop C _ _ _ _) as [out| | |] eqn:E1; try discriminate.
  intros E. injection E as <-.
  destruct (interleaveLoop_grows _ _ _ _ _ E1) as [more ->].
  cbn. split; [|now split].
  split; [reflexivity|]. split; [reflexivity|].
  eexists. rewrite <- app_assoc. reflexivity.
Qed.

Lemma flushSubObjMode_kept (b b' : BSONColumnBuilder C) :
  _flushSubObjMode C depth b = Ok b' ->
  Kept b b'
  /\ _mode C b' = kRegular
  /\ (_mode C b = kSubObjDeterminingReference -> _bufferedObjElements C b' = []).
Proof.
  unfold _flushSubObjMode.
  destruct (_mode C b) eqn:Em; cbn [Mode_eqb].
  - intros E. destruct (flushSubObjStates_kept _ _ E) as [HK [Hm _]].
    split; [exact HK|]. split; [exact Hm | discriminate].
  - destruct (_finishDetermineSubObjReference C depth b) as [b1| | |] eqn:E1;
      try discriminate.
    intros E. destruct (finishDetermineSubObjReference_kept _ _ E1) as [HK1 [_ Hb1]].
    destruct (flushSubObjStates_kept _ _ E) as [HK [Hm Hb]].
    split; [eapply Kept_trans; eassumption|]. split; [exact Hm|].
    intros _. now rewrite Hb.
  - intros E. destruct (flushSubObjStates_kept _ _ E) as [HK [Hm _]].
    split; [exact HK|]. split; [exact Hm | discriminate].
Qed.

Lemma BuilderLaid_same (b b' : BSONColumnBuilder C) :
  BuilderLaid b ->
  _state C b' = _state C b -> _bufBuilder C b' = _bufBuilder C b ->
  _mode C b' = _mode C b ->
  BuilderLaid b'.
Proof.
  intros [H Hoff] Hs Hb Hm. unfold BuilderLaid, mainState.
  rewrite Hs, Hb, Hm. now split.
Qed.

Lemma Mode_eqb_eq (a b : Mode) : Mode_eqb a b = true <-> a = b.
Proof. destruct a, b; cbn; split; congruence. Qed.

Lemma appendSubElements_laid (b b' : BSONColumnBuilder C) (obj : BSONObj) :
  BuilderLaid b -> _mode C b <> kRegular ->
  _appendSubElements C depth b obj = Ok b' ->
  BuilderLaid b' /\ _elementCount C b' = _elementCount C b.
Proof.
  intros HL Hm E. unfold _appendSubElements in E.
  apply appendSubElementsWith_cases in E.
  destruct E as [[flat E] | [flat [states [buffers ->]]]].
  - set (b1 := set_flattenedAppendedObj C b flat) in *.
    assert (HL1 : BuilderLaid b1) by (apply (BuilderLaid_same b); [exact HL | reflexivity..]).
    destruct (_flushSubObjMode C depth b1) as [b2| | |] eqn:E2; try discriminate.
    destruct (flushSubObjMode_kept _ _ E2) as [HK _].
    pose proof (BuilderLaid_kept b1 b2 HL1 Hm HK) as HL2.
    destruct (startDetermineSubObjReference_laid _ _ _ HL2 E) as [HL' [Hc _]].
    split; [exact HL'|]. rewrite Hc. now destruct HK as [_ [-> _]].
  - split; [|reflexivity].
    apply (BuilderLaid_same b); [exact HL | reflexivity..].
Qed.

Lemma appendDetermining_laid (b b' : BSONColumnBuilder C) (obj : BSONObj) :
  BuilderLaid b -> _mode C b = kSubObjDeterminingReference ->
  appendDetermining C depth b obj = Ok b' ->
  BuilderLaid b' /\ _elementCount C b' = wrapU 32 (_elementCount C b + 1).
Proof.
  intros HL Hm. unfold appendDetermining.
  assert (Hnr : _mode C b <> kRegular) by (rewrite Hm; discriminate).
  destruct (traverseLockStep (_referenceSubObj C b) obj) as [calls compatible].
  destruct (existsb _ calls); [discriminate|].
  destruct (if compatible then _ else _) as [reference|].
  - set (b1 := set_referenceSubObj C b reference).
    assert (HL1 : BuilderLaid b1) by (apply (BuilderLaid_same b); [exact HL | reflexivity..]).
    destruct (_ >=? _).
    + intros E. injection E as <-. split; [|reflexivity].
      apply (BuilderLaid_same b); [exact HL | reflexivity..].
    + destruct (_finishDetermineSubObjReference C depth b1) as [b2| | |] eqn:E2;
        try discriminate.
      destruct (finishDetermineSubObjReference_kept _ _ E2) as [HK [Hm2 _]].
      pose proof (BuilderLaid_kept b1 b2 HL1 Hnr HK) as HL2.
      destruct (_appendSubElements C depth b2 obj) as [b3| | |] eqn:E3;
        cbn [okCount]; try discriminate.
      intros E. injection E as <-.
      destruct (appendSubElements_laid b2 b3 obj HL2
                  ltac:(rewrite Hm2; discriminate) E3) as [HL3 Hc3].
      split.
      * apply (BuilderLaid_same b3); [exact HL3 | reflexivity..].
      * cbn [_elementCount incrementElementCount]. rewrite Hc3.
        now destruct HK as [_ [-> _]].
  - destruct (_flushSubObjMode C depth b) as [b1| | |] eqn:E1; try discriminate.
    destruct (flushSubObjMode_kept _ _ E1) as [HK _].
    intros E. injection E as <-. split.
    + destruct HK as [Hs [_ Hb]].
      apply (BuilderLaid_grown b); [exact HL | exact Hnr | exact Hs | exact Hb].
    + cbn [_elementCount incrementElementCount set_mode set_bufferedObjElements
           set_referenceSubObj].
      now destruct HK as [_ [-> _]].
Qed.

Lemma stateAppend_laid (b b' : BSONColumnBuilder C) (elem : BSONElement) :
  BuilderLaid b -> _mode C b = kRegular ->
  match EncodingState_append C depth (mainState C b) elem with
  | Ok st => Ok (incrementElementCount C (set_state C b st))
  | _ => Fatal
  end = Ok b' ->
  BuilderLaid b' /\ _elementCount C b' = wrapU 32 (_elementCount C b + 1).
Proof.
  intros [[base [Hlen H]] _] Hm.
  destruct (EncodingState_append C depth (mainState C b) elem) as [st| | |] eqn:Ea;
    try discriminate.
  intros E. injection E as <-. split; [|reflexivity].
  pose proof (EncodingState_append_Laid C base depth _ _ _ H Ea) as [items [HW Hs]].
  split.
  - exists base. split; [exact Hlen|]. exists items. destruct st as [es [buf recs]].
    exact (conj HW Hs).
  - cbn [_mode incrementElementCount set_state]. intros Hn. now rewrite Hm in Hn.
Qed.

Lemma appendScalar_laid (b b' : BSONColumnBuilder C) (elem : BSONElement) :
  BuilderLaid b ->
  (let flushed :=
     if negb (Mode_eqb (_mode C b) kRegular) then _flushSubObjMode C depth b else Ok b in
   match flushed with
   | Ok b1 =>
       match EncodingState_append C depth (mainState C b1) elem with
       | Ok st => Ok (incrementElementCount C (set_state C b1 st))
       | Throw _ => Fatal
       | Fatal => Fatal
       | OutOfFuel => OutOfFuel
       end
   | other => other
   end) = Ok b' ->
  BuilderLaid b' /\ _elementCount C b' = wrapU 32 (_elementCount C b + 1).
Proof.
  intros HL. cbv zeta. destruct (Mode_eqb (_mode C b) kRegular) eqn:Em; cbn [negb].
  - apply Mode_eqb_eq in Em. intros E. apply (stateAppend_laid b b' elem HL Em).
    now destruct (EncodingState_append C depth (mainState C b) elem).
  - assert (Hnr : _mode C b <> kRegular)
      by (intros Hr; apply Mode_eqb_eq in Hr; congruence).
    destruct (_flushSubObjMode C depth b) as [b1| | |] eqn:E1; try discriminate.
    destruct (flushSubObjMode_kept _ _ E1) as [HK [Hm1 _]].
    pose proof (BuilderLaid_kept b b1 HL Hnr HK) as HL1.
    intros E. destruct HK as [_ [<- _]].
    apply (stateAppend_laid b1 b' elem HL1 Hm1).
    now destruct (EncodingState_append C depth (mainState C b1) elem).
Qed.

Lemma append_laid (b b' : BSONColumnBuilder C) (elem : BSONElement) :
  BuilderLaid b -> append C depth b elem = Ok b' ->
  BuilderLaid b' /\ _elementCount C b' = wrapU 32 (_elementCount C b + 1).
Proof.
  intros HL. unfold append.
  destruct (isMinOrMaxKey (elemType elem)); [discriminate|].
  destruct (snd elem) as [| | |fields| | | | | | | | | | | | | | | | | |];
    try apply (appendScalar_laid b b' elem HL).
  destruct fields as [|f fs]; [apply (appendScalar_laid b b' elem HL)|].
  destruct (_mode C b) eqn:Em.
  - destruct (_startDetermineSubObjReference C b (f :: fs)) as [b1| | |] eqn:E1;
      cbn [okCount]; try discriminate.
    intros E. injection E as <-.
    destruct (startDetermineSubObjReference_laid _ _ _ HL E1) as [HL1 [Hc _]].
    split; [apply (BuilderLaid_same b1); [exact HL1 | reflexivity..]|].
    cbn [_elementCount incrementElementCount]. now rewrite Hc.
  - now apply appendDetermining_laid.
  - destruct (_appendSubElements C depth b (f :: fs)) as [b1| | |] eqn:E1;
      cbn [okCount]; try discriminate.
    intros E. injection E as <-.
    destruct (appendSubElements_laid b b1 _ HL ltac:(rewrite Em; discriminate) E1)
      as [HL1 Hc].
    split; [apply (BuilderLaid_same b1); [exact HL1 | reflexivity..]|].
    cbn [_elementCount incrementElementCount]. now rewrite Hc.
Qed.

Lemma skip_laid (b : BSONColumnBuilder C) :
  BuilderLaid b ->
  BuilderLaid (skip C b)
  /\ _elementCount C (skip C b) = wrapU 32 (_elementCount C b + 1).
Proof.
  intros HL. unfold skip. cbn [_mode incrementElementCount].
  destruct (_mode C b) eqn:Em.
  - split; [|reflexivity].
    destruct HL as [[base [Hlen H]] _].
    pose proof (EncodingState_skip_Laid C base _ H) as [items [HW Hs]].
    split.
    + exists base. split; [exact Hlen|]. exists items.
      change (mainState C (incrementElementCount C b)) with (mainState C b).
      destruct (EncodingState_skip C (mainState C b)) as [es [buf recs]].
      exact (conj HW Hs).
    + cbn [_mode set_state incrementElementCount]. intros Hn. now rewrite Em in Hn.
  - split; [|reflexivity]. apply (BuilderLaid_same b); [exact HL | reflexivity..].
  - split; [|reflexivity]. apply (BuilderLaid_same b); [exact HL | reflexivity..].
Qed.

Lemma wrapU_succ (c n : Z) :
  wrapU 32 (wrapU 32 (c + 1) + n) = wrapU 32 (c + (1 + n)).
Proof. unfold wrapU. rewrite Zplus_mod_idemp_l. f_equal. lia. Qed.

Lemma calls_laid (cs : list Call) :
  forall b b',
    BuilderLaid b -> calls C depth b cs = Ok b' ->
    BuilderLaid b'
    /\ wrapU 32 (_elementCount C b')
       = wrapU 32 (_elementCount C b + Z.of_nat (List.length cs)).
Proof.
  induction cs as [|c rest IH]; intros b b' HL; cbn [calls].
  - intros E. injection E as <-. split; [exact HL|]. cbn. now rewrite Z.add_0_r.
  - destruct (call C depth b c) as [b1| | |] eqn:Ec; try discriminate.
    intros E.
    assert (H1 : BuilderLaid b1 /\ _elementCount C b1 = wrapU 32 (_elementCount C b + 1)).
    { destruct c; cbn [call] in Ec.
      - now apply (append_laid b b1 elem).
      - injection Ec as <-. now apply skip_laid. }
    destruct H1 as [HL1 Hc1]. destruct (IH _ _ HL1 E) as [HL' Hc'].
    split; [exact HL'|]. rewrite Hc', Hc1, wrapU_succ. f_equal.
    cbn [List.length]. lia.
Qed.

Lemma newBuilder_laid : BuilderLaid (newBuilder C).
Proof.
  split; [|intros H; now contradiction H].
  exists (repeat 0 kElementCountBytes). split; [cbn; lia|].
  apply newEncodingState_Laid.
Qed.

(** The bytes of a little-endian 32-bit store are those of the value
    modulo 2^32. *)
Lemma le_wrap (n : nat) : forall x, le n (x mod 256 ^ Z.of_nat n) = le n x.
Proof.
  induction n as [|k IH]; intros x; [reflexivity|].
  cbn [le].
  replace (256 ^ Z.of_nat (S k)) with (256 * 256 ^ Z.of_nat k)
    by (rewrite Nat2Z.inj_succ, Z.pow_succ_r; lia).
  assert (Hpos : 0 < 256 ^ Z.of_nat k) by (apply Z.pow_pos_nonneg; lia).
  rewrite Z.rem_mul_r by lia.
  f_equal.
  - rewrite (Z.mul_comm 256), Z_mod_plus_full. apply Z.mod_mod. lia.
  - rewrite (Z.mul_comm 256), Z.div_add by lia.
    rewrite (Z.div_small (x mod 256)) by (apply Z.mod_pos_bound; lia).
    rewrite Z.add_0_l. apply IH.
Qed.

Lemma finalize_laid (b b' : BSONColumnBuilder C) (out : list Z) :
  BuilderLaid b -> finalize C depth b = Ok (b', out) ->
  exists body, out = le 4 (_elementCount C b) ++ body ++ [0].
Proof.
  intros HL. unfold finalize.
  assert (Hfin : forall b1,
             (4 <= List.length (_bufBuilder C b1))%nat ->
             _elementCount C b1 = _elementCount C b ->
             exists body,
               le 4 (_elementCount C b1)
               ++ skipn kElementCountBytes (_bufBuilder C b1 ++ [typeCode EOO])
               = le 4 (_elementCount C b) ++ body ++ [0]).
  { intros b1 Hlen ->. exists (skipn 4 (_bufBuilder C b1)).
    unfold kElementCountBytes. rewrite skipn_app.
    replace (4 - List.length (_bufBuilder C b1))%nat with O by lia.
    reflexivity. }
  destruct (Mode_eqb (_mode C b) kRegular) eqn:Em.
  - intros E. injection E as _ <-.
    apply (Hfin (set_state C b (EncodingState_flush C (mainState C b))));
      [|reflexivity].
    destruct HL as [[base [Hlen H]] _].
    pose proof (Laid_length _ _ (EncodingState_flush_Laid C base _ H)) as Hl.
    cbn [_bufBuilder set_state]. lia.
  - assert (Hnr : _mode C b <> kRegular)
      by (intros Hr; apply Mode_eqb_eq in Hr; congruence).
    destruct (_flushSubObjMode C depth b) as [b1| | |] eqn:E1; try discriminate.
    intros E. injection E as _ <-.
    destruct (flushSubObjMode_kept _ _ E1) as [HK _].
    pose proof (BuilderLaid_length _ (BuilderLaid_kept b b1 HL Hnr HK)) as Hl.
    apply (Hfin b1); [exact Hl|]. now destruct HK as [_ [-> _]].
Qed.

End Count.

(** The count when no call is rejected: when the calls [cs] made on a
    fresh builder and finalize() after them all return, the bytes finalize()
    returns begin with the number of the calls, appends and skips alike, as
    an unsigned 32-bit little-endian integer, and end with the byte 0x00,
    whatever mode the calls left the builder in. *)
Theorem finalize_count_and_EOO (C : Collaborators) (depth : nat) (cs : list Call)
    (out : list Z) :
  column C depth cs = Some out ->
  exists body, out = le 4 (Z.of_nat (List.length cs)) ++ body ++ [0].
Proof.
  unfold column.
  destruct (calls C depth (newBuilder C) cs) as [b| | |] eqn:Ec; try discriminate.
  destruct (calls_laid C depth cs _ _ (newBuilder_laid C) Ec) as [HL Hc].
  destruct (finalize C depth b) as [[b' bytes]| | |] eqn:Ef; try discriminate.
  cbn [finalizedBytes]. intros E. injection E as <-.
  destruct (finalize_laid C depth _ _ _ HL Ef) as [body ->].
  exists body. f_equal.
  rewrite <- (le_wrap 4 (_elementCount C b)), <- (le_wrap 4 (Z.of_nat _)).
  change (256 ^ Z.of_nat 4) with (2 ^ 32).
  unfold wrapU in Hc. rewrite Hc. reflexivity.
Qed.

(* ================================================================== *)
(** ** An object appended while the reference is being determined *)
(* ================================================================== *)

Section Determining.

Variable C : Collaborators.
Variable depth : nat.

Lemma replayBuffered_reference (objs : list BSONObj) :
  forall b b',
    replayBuffered C depth b objs = Ok b' ->
    _referenceSubObj C b' = _referenceSubObj C b.
Proof.
  induction objs as [|obj rest IH]; intros b b'; cbn [replayBuffered].
  - intros E. now injection E as <-.
  - destruct (appendSubElementsWith C depth _ b obj) as [b1| | |] eqn:E1;
      try discriminate.
    intros E. rewrite (IH _ _ E).
    destruct (appendSubElementsWith_cases C depth _ _ _ _ E1)
      as [[flat Hf] | [flat [states [buffers ->]]]]; [discriminate | reflexivity].
Qed.

Lemma finishDetermineSubObjReference_reference (b b' : BSONColumnBuilder C) :
  _finishDetermineSubObjReference C depth b = Ok b' ->
  _referenceSubObj C b' = _referenceSubObj C b.
Proof.
  unfold _finishDetermineSubObjReference.
  set (b1 := set_bufBuilder C b _).
  destruct (_bufferedObjElements C b1) as [|front rest]; [discriminate|].
  destruct (traverseLockStep (_referenceSubObj C b1) front) as [calls res].
  destruct (setupStates C depth calls _ _) as [[states buffers]| | |]; try discriminate.
  destruct (negb res); [discriminate|].
  destruct (replayBuffered C depth _ rest) as [b3| | |] eqn:E3; try discriminate.
  intros E. injection E as <-.
  apply replayBuffered_reference in E3. exact E3.
Qed.

(** C7 (amended).  A non-empty object is appended in mode
    kSubObjDeterminingReference, and none of the leaves the lock-step
    traversal pairs up is MinKey or MaxKey.  The reference is kept when the
    object is compatible with it, else it is merged with the object.
    - When that gives a reference and numElements x 2 >= the number of
      buffered objects (numElements being the number of callbacks of the
      traversal, a 32-bit counter), the call returns and has only replaced
      the reference, pushed the object to the buffered ones and counted
      it.
    - When that gives a reference and numElements x 2 is less, the call is
      _finishDetermineSubObjReference with the new reference followed by
      _appendSubElements of the object, and the count; the first of them,
      when it returns, leaves mode kSubObjAppending, the reference and no
      buffered object.
    - When the merge fails, the counts are not looked at: the call returns
      when _flushSubObjMode does, with the main buffer that left, and
      starts over in mode kSubObjDeterminingReference with the object as
      the reference and as the one buffered object. *)
Theorem append_determining_reference (b : BSONColumnBuilder C) (name : string)
    (f : BSONElement) (fs : BSONObj) :
  _mode C b = kSubObjDeterminingReference ->
  existsb (fun c => isMinOrMaxKey (elemType (snd c)))
          (fst (traverseLockStep (_referenceSubObj C b) (f :: fs))) = false ->
  match mergedReference (_referenceSubObj C b) (f :: fs) with
  | Some reference =>
      if wrapU 32 (numElements (_referenceSubObj C b) (f :: fs) * 2)
         >=? Z.of_nat (List.length (_bufferedObjElements C b))
      then
        append C depth b (name, VObject (f :: fs))
        = Ok (incrementElementCount C
                (set_bufferedObjElements C (set_referenceSubObj C b reference)
                   (_bufferedObjElements C b ++ [f :: fs])))
      else
        append C depth b (name, VObject (f :: fs))
        = match _finishDetermineSubObjReference C depth
                  (set_referenceSubObj C b reference) with
          | Ok b2 => okCount C (_appendSubElements C depth b2 (f :: fs))
          | other => other
          end
        /\ onOk (fun b2 => (_mode C b2, _referenceSubObj C b2, _bufferedObjElements C b2))
                (_finishDetermineSubObjReference C depth
                   (set_referenceSubObj C b reference))
           = onOk (fun _ => (kSubObjAppending, reference, []))
                  (_finishDetermineSubObjReference C depth
                     (set_referenceSubObj C b reference))
  | None =>
      returned (append C depth b (name, VObject (f :: fs)))
      = returned (_flushSubObjMode C depth b)
      /\ onOk (fun b' => (_mode C b', _referenceSubObj C b',
                          _bufferedObjElements C b', _elementCount C b'))
              (append C depth b (name, VObject (f :: fs)))
         = onOk (fun _ => (kSubObjDeterminingReference, f :: fs, [f :: fs],
                           wrapU 32 (_elementCount C b + 1)))
                (_flushSubObjMode C depth b)
      /\ onOk (_bufBuilder C) (append C depth b (name, VObject (f :: fs)))
         = onOk (_bufBuilder C) (_flushSubObjMode C depth b)
  end.
Proof.
  intros Hm He.
  assert (Ea : append C depth b (name, VObject (f :: fs))
               = appendDetermining C depth b (f :: fs)).
  { unfold append. cbn [elemType snd valueType]. now rewrite Hm. }
  rewrite Ea. clear Ea.
  unfold mergedReference, numElements, appendDetermining.
  destruct (traverseLockStep (_referenceSubObj C b) (f :: fs)) as [calls compatible].
  cbn [fst snd] in *. rewrite He.
  destruct (if compatible then Some (_referenceSubObj C b)
            else mergeObj (_referenceSubObj C b) (f :: fs)) as [reference|].
  - cbn [_bufferedObjElements set_referenceSubObj].
    destruct (_ >=? _); [reflexivity|].
    split; [reflexivity|].
    destruct (_finishDetermineSubObjReference C depth (set_referenceSubObj C b reference))
      as [b2| | |] eqn:E2; try reflexivity.
    cbn [onOk].
    destruct (finishDetermineSubObjReference_kept C depth _ _ E2) as [_ [-> ->]].
    now rewrite (finishDetermineSubObjReference_reference _ _ E2).
  - destruct (_flushSubObjMode C depth b) as [b1| | |] eqn:E1;
      cbn [returned onOk]; try (repeat split; reflexivity).
    destruct (flushSubObjMode_kept C depth _ _ E1) as [[_ [Hc _]] [_ Hb]].
    cbn [_mode _referenceSubObj _bufferedObjElements _elementCount _bufBuilder
         incrementElementCount set_mode set_bufferedObjElements set_referenceSubObj].
    rewrite (Hb Hm), Hc. repeat split; reflexivity.
Qed.

End Determining.

(** C7 (as stated, refuted).  Two objects with the same fields in another
    order: the traversal makes two callbacks, the merge fails.  With one
    object buffered, 2 x 2 >= 1, and yet the buffered object is written out
    and only the new one is buffered; with five buffered, 2 x 2 < 5, and yet
    the builder is left in mode kSubObjDeterminingReference, with the new
    object buffered. *)
Lemma append_determining_merge_fails :
  numElements [("a"%string, VInt 1); ("b"%string, VInt 1)]
              [("b"%string, VInt 1); ("a"%string, VInt 1)] = 2
  /\ onOk (fun b => (_mode Reference.collaborators b,
                     _bufferedObjElements Reference.collaborators b))
          (calls Reference.collaborators 0 (newBuilder Reference.collaborators)
                 [CallAppend Inputs.objAB])
     = Some (kSubObjDeterminingReference,
             [[("a"%string, VInt 1); ("b"%string, VInt 1)]])
  /\ onOk (fun b => (_mode Reference.collaborators b,
                     _bufferedObjElements Reference.collaborators b))
          (calls Reference.collaborators 0 (newBuilder Reference.collaborators)
                 [CallAppend Inputs.objAB; CallAppend Inputs.objBA])
     = Some (kSubObjDeterminingReference,
             [[("b"%string, VInt 1); ("a"%string, VInt 1)]])
  /\ onOk (fun b => List.length (_bufferedObjElements Reference.collaborators b))
          (calls Reference.collaborators 0 (newBuilder Reference.collaborators)
                 [CallAppend Inputs.objAB; CallSkip; CallSkip; CallSkip; CallSkip])
     = Some 5%nat
  /\ onOk (fun b => (_mode Reference.collaborators b,
                     _bufferedObjElements Reference.collaborators b))
          (calls Reference.collaborators 0 (newBuilder Reference.collaborators)
                 [CallAppend Inputs.objAB; CallSkip; CallSkip; CallSkip; CallSkip;
                  CallAppend Inputs.objBA])
     = Some (kSubObjDeterminingReference,
             [[("b"%string, VInt 1); ("a"%string, VInt 1)]]).
Proof.
  split; [vm_compute; reflexivity|].
  split; [vm_compute; reflexivity|].
  split; [vm_compute; reflexivity|].
  split; vm_compute; reflexivity.
Qed.

(** ** One Int32 value appended again and again *)

Section Fives.

Variable C : Collaborators.
Variable depth : nat.

Lemma StateLayout_kept (base : list Z) (items : list Item)
    (es es' : EncodingState C) (sink sink' : Sink) :
  StateLayout base items (es, sink) ->
  _controlByteOffset C es' = _controlByteOffset C es ->
  _scaleIndex C es' = _scaleIndex C es ->
  fst sink' = fst sink ->
  StateLayout base items (es', sink').
Proof.
  unfold StateLayout. cbn [fst snd]. intros [HW Hs] -> -> ->. now split.
Qed.

Lemma feedZeros_step (k : nat) (ok : bool) (more : list Z) (b' : s8b (S64 C)) :
  s8b_append (S64 C) (snd (feedZeros C k)) 0 = (ok, more, b') ->
  feedZeros C (S k) = (fst (feedZeros C k) ++ more, b').
Proof.
  intros E. cbn [feedZeros]. destruct (feedZeros C k) as [blocks b].
  cbn [fst snd] in *. now rewrite E.
Qed.

(** Appending the value once more feeds the builder one more zero. *)
Lemma EncodingState_append_five (k : nat) (st : EncodingState C * Sink) :
  FivesState k st ->
  exists st',
    EncodingState_append C depth st Inputs.x5 = Ok st' /\ FivesState (S k) st'.
Proof.
  destruct st as [es sink].
  intros [Hprev [H128 [Hb128 [Hb64 [Hscale [items [HL HC]]]]]]]. cbn [fst snd] in *.
  unfold EncodingState_append, _previous.
  rewrite Hprev, H128.
  change (negb (BSONType_eqb (elemType (EmptyString, VInt 5)) (elemType Inputs.x5)))
    with false.
  change (negb (usesDeltaOfDelta (elemType Inputs.x5))
          && binaryEqualValues Inputs.x5 (EmptyString, VInt 5)) with true.
  cbv iota.
  unfold append64. cbn [fst snd].
  destruct (s8b_append (S64 C) (_simple8bBuilder64 C es) 0) as [[ok more] b'] eqn:Eapp.
  rewrite Hb64 in Eapp.
  pose proof (feedZeros_step k ok more b' Eapp) as Hfeed.
  destruct (writeBlocks_chunked C literalFive 0x80 more (es, sink) items
              (fst (feedZeros C k)) HL
              ltac:(cbn [fst]; rewrite Hscale; reflexivity) HC)
    as [items' [HL' HC']].
  pose proof (writeBlocks_sameButRun C more es sink)
    as [Sprev [_ [_ [S128 [Swith [_ [_ [Sscale _]]]]]]]].
  destruct (writeBlocks C (es, sink) more) as [es1 sink1]. cbn [fst snd] in *.
  cbn [negb]. eexists. split; [reflexivity|].
  unfold FivesState, _storePrevious. cbn [fst snd].
  split; [now destruct es1|].
  split; [destruct es1; cbn in *; congruence|].
  split; [destruct es1; cbn in *; congruence|].
  split; [destruct es1; cbn in *; now rewrite Hfeed|].
  split; [destruct es1; cbn in *; congruence|].
  exists items'. rewrite Hfeed. cbn [fst].
  split.
  - eapply StateLayout_kept; [exact HL' | now destruct es1 | now destruct es1
                              | reflexivity].
  - destruct es1; exact HC'.
Qed.

(** The first append writes the literal. *)
Lemma EncodingState_append_first_five :
  exists st',
    EncodingState_append C depth (mainState C (newBuilder C)) Inputs.x5 = Ok st'
    /\ FivesState 0 st'
    /\ snd (snd st') = [].
Proof.
  unfold mainState, newBuilder. cbn [_state _bufBuilder].
  unfold EncodingState_append.
  change (negb (BSONType_eqb (elemType (_previous C (newEncodingState C false)))
                             (elemType Inputs.x5))) with true.
  cbv iota.
  rewrite flush128_new by reflexivity.
  rewrite flush64_new by reflexivity.
  eexists. split; [reflexivity|].
  unfold _writeLiteralFromPrevious, _storePrevious, newEncodingState, writeControlBlock.
  cbn [fst snd _prev _controlByteOffset _controlBlockWriter set_prev
       set_controlByteOffset set_scaleIndex set_prevDelta].
  change (negb (kNoSimple8bControl =? kNoSimple8bControl)) with false. cbv iota.
  cbn [fst snd].
  split; [|reflexivity].
  unfold FivesState. cbn.
  do 5 (split; [reflexivity|]).
  exists []. split; [|apply Chunked_nil].
  split; [|cbn; unfold kMemoryAsInteger; lia]. cbn [fst snd].
  split; [cbn; reflexivity|]. split; [constructor | now left].
Qed.

Lemma FivesState_records (k : nat) (es : EncodingState C) (buf : list Z)
    (recs recs' : list (Z * Z)) :
  FivesState k (es, (buf, recs)) -> FivesState k (es, (buf, recs')).
Proof.
  unfold FivesState. cbn [fst snd].
  intros [H1 [H2 [H3 [H4 [H5 [items [HL HC]]]]]]].
  repeat (split; [assumption|]).
  exists items. split; [|exact HC].
  eapply StateLayout_kept; [exact HL | reflexivity | reflexivity | reflexivity].
Qed.

Lemma append_first_five :
  exists b, append C depth (newBuilder C) Inputs.x5 = Ok b /\ FivesBuilder 0 b.
Proof.
  destruct EncodingState_append_first_five as [[es [buf recs]] [E [HF _]]].
  unfold append.
  change (isMinOrMaxKey (elemType Inputs.x5)) with false. cbv iota.
  change (snd Inputs.x5) with (VInt 5). cbv iota.
  change (negb (Mode_eqb (_mode C (newBuilder C)) kRegular)) with false. cbv iota.
  rewrite E. eexists. split; [reflexivity|].
  unfold FivesBuilder, mainState. cbn.
  split; [reflexivity|]. split; [reflexivity|].
  eapply FivesState_records. exact HF.
Qed.

Lemma append_five (k : nat) (b : BSONColumnBuilder C) :
  Z.of_nat (S (S k)) < 2 ^ 32 ->
  FivesBuilder k b ->
  exists b', append C depth b Inputs.x5 = Ok b' /\ FivesBuilder (S k) b'.
Proof.
  intros Hk [Hmode [Hcount HF]].
  destruct (EncodingState_append_five k _ HF) as [[es [buf recs]] [E HF']].
  unfold append.
  change (isMinOrMaxKey (elemType Inputs.x5)) with false. cbv iota.
  change (snd Inputs.x5) with (VInt 5). cbv iota.
  rewrite Hmode. cbn [Mode_eqb negb].
  rewrite E. eexists. split; [reflexivity|].
  unfold FivesBuilder, mainState, incrementElementCount, set_state.
  cbn [_mode _elementCount _state _bufBuilder fst snd].
  split; [exact Hmode|]. split.
  - rewrite Hcount. unfold wrapU. rewrite Z.mod_small; lia.
  - eapply FivesState_records. exact HF'.
Qed.

Lemma calls_fives (k : nat) :
  Z.of_nat (S k) < 2 ^ 32 ->
  exists b,
    calls C depth (newBuilder C) (repeat (CallAppend Inputs.x5) (S k)) = Ok b
    /\ FivesBuilder k b.
Proof.
  induction k as [|k IH]; intros Hk.
  - destruct append_first_five as [b [E HF]]. exists b.
    cbn [repeat calls call]. now rewrite E.
  - destruct (IH ltac:(lia)) as [b [E HF]].
    destruct (append_five k b Hk HF) as [b' [E' HF']].
    exists b'. split; [|exact HF'].
    replace (repeat (CallAppend Inputs.x5) (S (S k)))
      with (repeat (CallAppend Inputs.x5) (S k) ++ [CallAppend Inputs.x5])
      by (rewrite <- repeat_cons; reflexivity).
    revert E. generalize (repeat (CallAppend Inputs.x5) (S k)).
    generalize (newBuilder C).
    intros b0 l. revert b0. induction l as [|c l IHl]; intros b0; cbn [calls app].
    + intros E. injection E as ->. cbn [call]. now rewrite E'.
    + destruct (call C depth b0 c); try discriminate. apply IHl.
Qed.

(** finalize() on the builder those appends leave: the count, the
    literal, the blocks of the zero deltas and of the final flush in runs
    of scale index kMemoryAsInteger, EOO. *)
Lemma finalize_fives (k : nat) (b : BSONColumnBuilder C) :
  FivesBuilder k b ->
  exists groups : list (list Z),
    finalizedBytes (finalize C depth b)
    = Some (le 4 (Z.of_nat (S k)) ++ [16; 0; 5; 0; 0; 0]
            ++ layoutBytes (map (runOf 0x80) groups) ++ [0])
    /\ List.concat groups = zeroDeltaBlocks C k
    /\ Forall (fun g => (1 <= List.length g <= 16)%nat) groups
    /\ Forall (fun g => List.length g = 16%nat) (removelast groups).
Proof.
  intros [Hmode [Hcount HF]].
  unfold finalize. rewrite Hmode. cbn [Mode_eqb].
  destruct HF as [Hprev [H128 [Hb128 [Hb64 [Hscale [items [HL HC]]]]]]].
  unfold EncodingState_flush.
  rewrite (flush128_new C _ Hb128).
  unfold flush64. cbn [fst].
  destruct (s8b_flush (S64 C) (_simple8bBuilder64 C (fst (mainState C b))))
    as [flushed bf] eqn:Eflush.
  destruct (writeBlocks_chunked C (literalFive) 0x80 flushed (mainState C b) items
              (fst (feedZeros C k)) HL
              ltac:(rewrite Hscale; reflexivity) HC)
    as [items' [[[Hbuf _] _] [groups [Hitems [Hconcat [Hrange [Hfull _]]]]]]].
  exists groups.
  split; [|split; [|split; [exact Hrange | exact Hfull]]].
  - destruct (writeBlocks C (mainState C b) flushed) as [es1 sink1].
    cbn [fst snd] in Hbuf.
    assert (Ebuf : forall st : EncodingState C * Sink,
               fst (snd st) = fst sink1 ->
               finalizedBytes
                 (Ok (set_bufBuilder C (set_state C b st)
                        (le 4 (_elementCount C (set_state C b st))
                         ++ skipn kElementCountBytes
                              (_bufBuilder C (set_state C b st) ++ [typeCode EOO])),
                      le 4 (_elementCount C (set_state C b st))
                      ++ skipn kElementCountBytes
                           (_bufBuilder C (set_state C b st) ++ [typeCode EOO])))
               = Some (le 4 (Z.of_nat (S k)) ++ [16; 0; 5; 0; 0; 0]
                       ++ layoutBytes (map (runOf 128) groups) ++ [0])).
    { intros st Hst. unfold finalizedBytes, set_state.
      cbn [_elementCount _bufBuilder]. rewrite Hst, Hbuf, Hcount, Hitems.
      reflexivity. }
    destruct (negb (_controlByteOffset C (set_builder64 C es1 bf)
                    =? kNoSimple8bControl)).
    + apply Ebuf. cbn [snd]. apply writeControlBlock_fst.
    + apply Ebuf. reflexivity.
  - rewrite Hconcat. unfold zeroDeltaBlocks.
    rewrite <- Hb64. now rewrite Eflush.
Qed.

End Fives.

(** C8 (as amended).  Appending {x: 5} (Int32) seventeen times and
    finalizing gives: the element count 17; one literal, the type byte of
    Int32, the terminator of the empty field name and the value 5; then the
    blocks the Simple-8b builder hands out for the sixteen zero deltas and
    the final flush, in runs of at most sixteen blocks, each run headed by
    the control byte 0x80 plus the number of its blocks minus one, every run
    but the last one full; then the EOO terminator. *)
Theorem seventeen_fives (C : Collaborators) (depth : nat) :
  exists groups : list (list Z),
    column C depth (repeat (CallAppend Inputs.x5) 17)
    = Some ([17; 0; 0; 0] ++ [16; 0; 5; 0; 0; 0]
            ++ layoutBytes (map (runOf 0x80) groups) ++ [0])
    /\ List.concat groups = zeroDeltaBlocks C 16
    /\ Forall (fun g => (1 <= List.length g <= 16)%nat) groups
    /\ Forall (fun g => List.length g = 16%nat) (removelast groups).
Proof.
  destruct (calls_fives C depth 16 ltac:(cbn; lia)) as [b [E HF]].
  destruct (finalize_fives C depth 16 b HF) as [groups [Hbytes Hrest]].
  exists groups. split; [|exact Hrest].
  rewrite (column_calls C depth _ b E).
  change (le 4 (Z.of_nat 17)) with [17; 0; 0; 0] in Hbytes. exact Hbytes.
Qed.

(** The same on the reference collaborators: the sixteen zero deltas are
    packed into two blocks, of fifteen slots and of one, in one run with
    the control byte 0x81. *)
Lemma seventeen_fives_reference :
  column Reference.collaborators 0 (repeat (CallAppend Inputs.x5) 17)
  = Some [17; 0; 0; 0; 16; 0; 5; 0; 0; 0; 0x81;
          4; 0; 0; 0; 0; 0; 0; 0; 14; 0; 0; 0; 0; 0; 0; 0; 0].
Proof. vm_compute. reflexivity. Qed.

Lemma length_blocks (blocks : list Z) :
  List.length (flat_map (le 8) blocks) = (8 * List.length blocks)%nat.
Proof.
  induction blocks as [|b rest IH]; [reflexivity|].
  cbn [flat_map]. rewrite length_app, IH. cbn [List.length le]. lia.
Qed.

(** C8 (as stated, refuted).  The column is not a literal, the control
    byte 0x8F with one block, the control byte 0x80 with one block, and
    EOO: a run whose control byte is 0x8F has sixteen blocks. *)
Lemma seventeen_fives_not_as_stated :
  ~ exists block1 block2 : Z,
      column Reference.collaborators 0 (repeat (CallAppend Inputs.x5) 17)
      = Some ([17; 0; 0; 0] ++ [16; 0; 5; 0; 0; 0]
              ++ [0x8F] ++ le 8 block1 ++ [0x80] ++ le 8 block2 ++ [0]).
Proof.
  intros [block1 [block2 H]].
  destruct (calls_fives Reference.collaborators 0 16 ltac:(cbn; lia)) as [b [E HF]].
  destruct (finalize_fives Reference.collaborators 0 16 b HF)
    as [groups [Hbytes [_ [Hr _]]]].
  change (le 4 (Z.of_nat 17)) with [17; 0; 0; 0] in Hbytes.
  rewrite (column_calls _ _ _ b E), Hbytes in H. injection H as H.
  destruct groups as [|g rest].
  - discriminate H.
  - cbn [map layoutBytes flat_map itemBytes runOf app] in H.
    pose proof (f_equal (fun l => hd 0 l) H) as Hc. cbn [hd] in Hc.
    pose proof (f_equal (@List.length Z) H) as Ht.
    cbn [List.length] in Ht.
    rewrite !length_app, length_blocks in Ht.
    cbn [List.length le] in Ht. lia.
Qed.

(** An instance of the run layout theorem: three equal Int32 values and a
    flush, written after the byte 9. *)
Lemma simple8b_runs_layout_witness :
  returned (stateCalls Reference.collaborators 0
                       (newEncodingState Reference.collaborators false, ([9], []))
                       Inputs.threeFivesAndFlush) = true
  /\ exists es sink items,
       stateCalls Reference.collaborators 0
                  (newEncodingState Reference.collaborators false, ([9], []))
                  Inputs.threeFivesAndFlush = Ok (es, sink)
       /\ fst sink = [9] ++ layoutBytes items
       /\ Forall runWellFormed items.
Proof.
  assert (H : returned (stateCalls Reference.collaborators 0
                          (newEncodingState Reference.collaborators false, ([9], []))
                          Inputs.threeFivesAndFlush) = true)
    by (vm_compute; reflexivity).
  split; [exact H|].
  destruct (returned_Ok _ H) as [[es sink] E].
  destruct (simple8b_runs_layout Reference.collaborators 0 false [9] []
              Inputs.threeFivesAndFlush es sink E)
    as [items [H1 [H2 _]]].
  exists es, sink, items. split; [exact E | split; [exact H1 | exact H2]].
Defined.

(** An instance of the type change theorem: the double 1.0 appended to a
    state that has no previous element. *)
Lemma append_type_change_witness :
  exists (es' : EncodingState Reference.collaborators) (sink' : Sink),
    EncodingState_append Reference.collaborators 0
      (newEncodingState Reference.collaborators false, ([], [])) Inputs.one
    = Ok (es', sink')
    /\ _prev Reference.collaborators es' = snd Inputs.one
    /\ _simple8bBuilder128 Reference.collaborators es'
       = snd (s8b_flush (S128 Reference.collaborators)
                (_simple8bBuilder128 Reference.collaborators
                   (newEncodingState Reference.collaborators false)))
    /\ _simple8bBuilder64 Reference.collaborators es'
       = snd (s8b_flush (S64 Reference.collaborators)
                (_simple8bBuilder64 Reference.collaborators
                   (newEncodingState Reference.collaborators false)))
    /\ fst sink'
       = fst (snd (flush64 Reference.collaborators
                     (flush128 Reference.collaborators
                        (_storePrevious Reference.collaborators
                           (newEncodingState Reference.collaborators false)
                           Inputs.one, ([], [])))))
         ++ [Z.land (typeCode (elemType Inputs.one)) 255; 0]
         ++ valueBytes (snd Inputs.one)
    /\ _controlByteOffset Reference.collaborators es' = kNoSimple8bControl
    /\ _prevDelta Reference.collaborators es' = 0
    /\ _storeWith128 Reference.collaborators es' = uses128bit (elemType Inputs.one)
    /\ _scaleIndex Reference.collaborators es'
       = match snd Inputs.one with
         | VDouble d => snd (scaleAndEncodeDouble Reference.collaborators d 0)
         | _ => kMemoryAsInteger
         end.
Proof.
  apply (append_type_change Reference.collaborators 0
           (newEncodingState Reference.collaborators false) ([], []) Inputs.one).
  vm_compute. reflexivity.
Defined.

(** An instance of the count and EOO theorem: an object, a skip and a
    scalar, which take the builder through the sub-object modes and back. *)
Lemma finalize_count_and_EOO_witness :
  exists body,
    [3; 0; 0; 0; 240; 19; 0; 0; 0; 16; 97; 0; 1; 0; 0; 0; 16; 98; 0; 1;
     0; 0; 0; 0; 128; 13; 0; 0; 0; 252; 255; 255; 255; 128; 13; 0; 0; 0;
     252; 255; 255; 255; 0; 16; 0; 5; 0; 0; 0; 0]
    = le 4 (Z.of_nat (List.length Inputs.mixedCalls)) ++ body ++ [0].
Proof.
  apply (finalize_count_and_EOO Reference.collaborators 0 Inputs.mixedCalls).
  vm_compute. reflexivity.
Defined.

(** An instance of the theorem on mode kSubObjDeterminingReference: with
    {a: 1, b: 1} as the reference and the one buffered object, {a: 1, b: 2}
    is compatible, the traversal makes two callbacks and 2 x 2 >= 1, so the
    object is buffered. *)
Lemma append_determining_reference_witness :
  append Reference.collaborators 0 Inputs.determining
         (EmptyString, VObject [("a"%string, VInt 1); ("b"%string, VInt 2)])
  = Ok (incrementElementCount Reference.collaborators
          (set_bufferedObjElements Reference.collaborators
             (set_referenceSubObj Reference.collaborators Inputs.determining
                [("a"%string, VInt 1); ("b"%string, VInt 1)])
             (_bufferedObjElements Reference.collaborators Inputs.determining
              ++ [[("a"%string, VInt 1); ("b"%string, VInt 2)]]))).
Proof.
  exact (append_determining_reference Reference.collaborators 0 Inputs.determining
           EmptyString ("a"%string, VInt 1) [("b"%string, VInt 2)]
           eq_refl eq_refl).
Defined.

(* ================================================================== *)
(** ** The callbacks of the lock-step traversal *)
(* ================================================================== *)

Lemma traverseValue_leaves (v : BSONValue) :
  forall name,
    map fst (traverseValue name v) = leavesValue name v
    /\ Forall (fun c => snd c = eooElement) (traverseValue name v).
Proof.
  induction v as [fields IH | v Hleaf] using BSONValue_nested_ind; intros name.
  - cbn [traverseValue leavesValue].
    induction IH as [|e rest He _ IHrest]; [split; [reflexivity | constructor]|].
    cbn [flat_map]. rewrite map_app.
    destruct (He (fst e)) as [E1 F1]. destruct IHrest as [E2 F2].
    rewrite E1, E2. split; [reflexivity | now apply Forall_app].
  - rewrite (traverseValue_leaf name v Hleaf), (leavesValue_leaf name v Hleaf).
    split; [reflexivity | now repeat constructor].
Qed.

(** One turn of the range-for of _traverseLockStep on a reference element
    that is not an Object. *)
Lemma lockStepLoop_leaf (descend : BSONValue -> BSONObj -> Calls * BSONObj * bool)
    (name : string) (v : BSONValue) (refs it : BSONObj) (acc : Calls) :
  isObject v = false ->
  lockStepLoop descend ((name, v) :: refs) it acc
  = match it with
    | (iname, iv) :: it' =>
        if String.eqb name iname
        then lockStepLoop descend refs it' (acc ++ [((name, v), (iname, iv))])
        else lockStepLoop descend refs it (acc ++ [((name, v), eooElement)])
    | [] => lockStepLoop descend refs it (acc ++ [((name, v), eooElement)])
    end.
Proof. destruct v; try discriminate; reflexivity. Qed.

(** What the loop of _traverseLockStep adds to the calls made so far: pairs
    of a reference leaf and either BSONElement() or an element of that name,
    the reference leaves in their order; all of them when the loop ends
    compatible. *)
Lemma lockStepLoop_calls (refs : BSONObj) :
  Forall (fun e => forall fields, snd e = VObject fields ->
            forall it, CallsOf fields (lockStepLoop lockStepValue fields it [])) refs ->
  forall it acc,
    exists calls,
      fst (fst (lockStepLoop lockStepValue refs it acc)) = acc ++ calls
      /\ CallsOf refs (calls, snd (fst (lockStepLoop lockStepValue refs it acc)),
                       snd (lockStepLoop lockStepValue refs it acc)).
Proof.
  induction 1 as [|[name v] refs' Hhead _ IH]; intros it acc.
  - exists []. cbn. rewrite app_nil_r. split; [reflexivity|].
    split; [constructor|]. split; [now exists [] | reflexivity].
  - assert (Hgo : forall it1 (more : Calls),
               Forall PairedByName more ->
               map fst more = leavesValue name v ->
               exists calls,
                 fst (fst (lockStepLoop lockStepValue refs' it1 (acc ++ more)))
                 = acc ++ calls
                 /\ CallsOf ((name, v) :: refs')
                      (calls,
                       snd (fst (lockStepLoop lockStepValue refs' it1 (acc ++ more))),
                       snd (lockStepLoop lockStepValue refs' it1 (acc ++ more)))).
    { intros it1 more Hmore Eq.
      destruct (IH it1 (acc ++ more)) as [calls [E [F [[rest P] A]]]].
      exists (more ++ calls). rewrite E, app_assoc. split; [reflexivity|].
      unfold CallsOf. cbn [fst snd] in *. unfold leaves. cbn [flat_map fst snd]. fold (leaves refs').
      split; [now apply Forall_app|].
      rewrite map_app, Eq.
      split; [exists rest; now rewrite P, app_assoc|].
      intros Hc. now rewrite (A Hc). }
    assert (Hstop : forall (r : Calls * BSONObj * bool) (more : Calls),
               fst (fst r) = acc ++ more -> snd r = false ->
               Forall PairedByName more ->
               (exists rest, leavesValue name v = map fst more ++ rest) ->
               exists calls,
                 fst (fst r) = acc ++ calls
                 /\ CallsOf ((name, v) :: refs') (calls, snd (fst r), snd r)).
    { intros r more E Hf Hmore [rest P]. exists more. split; [exact E|].
      unfold CallsOf. cbn [fst snd]. unfold leaves. cbn [flat_map fst snd]. fold (leaves refs').
      split; [exact Hmore|].
      split; [exists (rest ++ leaves refs'); now rewrite P, app_assoc|].
      rewrite Hf. discriminate. }
    assert (Heoo : Forall PairedByName (traverseValue name v)).
    { eapply Forall_impl; [|exact (proj2 (traverseValue_leaves v name))].
      intros c Hc. now left. }
    pose proof (proj1 (traverseValue_leaves v name)) as Eleaves.
    destruct (isObject v) eqn:Hobj.
    + destruct v as [| | |refObj| | | | | | | | | | | | | | | | | |];
        try discriminate Hobj.
      cbn [lockStepLoop].
      destruct it as [|[iname iv] it'].
      * destruct (isEmpty refObj).
        -- apply (Hstop (acc, [], false) []);
             [cbn; now rewrite app_nil_r | reflexivity | constructor
             | now exists (leavesValue name (VObject refObj))].
        -- now apply Hgo.
      * destruct (String.eqb name iname) eqn:En; [|now apply Hgo].
        destruct (isObject iv) eqn:Hiobj.
        -- destruct iv as [| | |itObj| | | | | | | | | | | | | | | | | |];
             try discriminate Hiobj.
           destruct (negb (Bool.eqb (isEmpty refObj) (isEmpty itObj))).
           ++ apply (Hstop (acc, (iname, VObject itObj) :: it', false) []);
                [cbn; now rewrite app_nil_r | reflexivity | constructor
                | now exists (leavesValue name (VObject refObj))].
           ++ pose proof (Hhead refObj eq_refl itObj) as Hsub.
              change (lockStepValue (VObject refObj) itObj)
                with (lockStepLoop lockStepValue refObj itObj []).
              destruct (lockStepLoop lockStepValue refObj itObj [])
                as [[calls x] compatible].
              destruct Hsub as [F [P A]]. cbn [fst snd] in *.
              destruct compatible.
              ** apply Hgo; [exact F | exact (A eq_refl)].
              ** apply (Hstop (acc ++ calls, it', false) calls);
                   [reflexivity | reflexivity | exact F | exact P].
        -- destruct iv; try discriminate Hiobj;
             apply (Hstop (acc, _ :: it', false) []);
             try (cbn; now rewrite app_nil_r); try reflexivity; try constructor;
             now exists (leavesValue name (VObject refObj)).
    + rewrite (lockStepLoop_leaf _ name v refs' it acc Hobj).
      rewrite (leavesValue_leaf name v Hobj) in *.
      destruct it as [|[iname iv] it'].
      * apply Hgo; [|reflexivity]. constructor; [now left | constructor].
      * destruct (String.eqb name iname) eqn:En.
        -- apply Hgo; [|reflexivity]. constructor; [|constructor].
           right. apply String.eqb_eq in En. now subst.
        -- apply Hgo; [|reflexivity]. constructor; [now left | constructor].
Qed.

Lemma lockStepValue_calls (v : BSONValue) :
  forall fields, v = VObject fields ->
    forall it, CallsOf fields (lockStepLoop lockStepValue fields it []).
Proof.
  induction v as [fields IH | v Hleaf] using BSONValue_nested_ind;
    intros fields' Heq it.
  - injection Heq as <-.
    destruct (lockStepLoop_calls fields IH it []) as [calls [E H]].
    destruct (lockStepLoop lockStepValue fields it []) as [[c x] ok].
    cbn [fst snd app] in *. now subst c.
  - subst v. discriminate Hleaf.
Qed.

Lemma traverseLockStep_CallsOf (reference obj : BSONObj) :
  CallsOf reference (_traverseLockStep reference obj)
  /\ fst (traverseLockStep reference obj) = fst (fst (_traverseLockStep reference obj))
  /\ (snd (traverseLockStep reference obj) = true ->
      snd (_traverseLockStep reference obj) = true).
Proof.
  split; [exact (lockStepValue_calls (VObject reference) reference eq_refl obj)|].
  unfold traverseLockStep.
  destruct (_traverseLockStep reference obj) as [[calls it] ok]. cbn [fst snd].
  split; [reflexivity|]. intros H. now apply andb_true_iff in H.
Qed.

Lemma traverseLockStep_calls_length (reference obj : BSONObj) :
  snd (traverseLockStep reference obj) = true ->
  List.length (fst (traverseLockStep reference obj)) = List.length (leaves reference).
Proof.
  intros H.
  destruct (traverseLockStep_CallsOf reference obj) as [[_ [_ A]] [E Hok]].
  rewrite E, <- (A (Hok H)). now rewrite length_map.
Qed.

(** X1.  When traverseLockStep(reference, obj) finds the hierarchies
    compatible, it has called the callback once for every leaf of
    [reference], in the order of the leaves, whatever [obj] is: the
    reference elements of the calls are the leaves of [reference], and
    there are as many calls as leaves. *)
Theorem traverseLockStep_reference_leaves (reference obj : BSONObj) :
  snd (traverseLockStep reference obj) = true ->
  map fst (fst (traverseLockStep reference obj)) = leaves reference
  /\ List.length (fst (traverseLockStep reference obj)) = List.length (leaves reference).
Proof.
  intros H.
  destruct (traverseLockStep_CallsOf reference obj) as [[_ [_ A]] [E Hok]].
  assert (Hl : map fst (fst (traverseLockStep reference obj)) = leaves reference)
    by (rewrite E; exact (A (Hok H))).
  split; [exact Hl|]. rewrite <- Hl. now rewrite length_map.
Qed.

(** An instance: {b: 2} against the reference {a: 1, b: 1}. *)
Lemma traverseLockStep_reference_leaves_witness :
  map fst (fst (traverseLockStep [("a"%string, VInt 1); ("b"%string, VInt 1)]
                                 [("b"%string, VInt 2)]))
  = leaves [("a"%string, VInt 1); ("b"%string, VInt 1)]
  /\ List.length (fst (traverseLockStep [("a"%string, VInt 1); ("b"%string, VInt 1)]
                                        [("b"%string, VInt 2)]))
     = List.length (leaves [("a"%string, VInt 1); ("b"%string, VInt 1)]).
Proof.
  apply (traverseLockStep_reference_leaves
           [("a"%string, VInt 1); ("b"%string, VInt 1)] [("b"%string, VInt 2)]).
  reflexivity.
Defined.

(** X2.  Whatever the two objects are, compatible or not, every call
    traverseLockStep makes pairs a leaf of [reference] with BSONElement()
    or with an element of the same field name, and the leaves are taken in
    their order from the first one on, none left out before the traversal
    stops. *)
Theorem traverseLockStep_matching_pairs (reference obj : BSONObj) :
  Forall PairedByName (fst (traverseLockStep reference obj))
  /\ exists rest,
       leaves reference = map fst (fst (traverseLockStep reference obj)) ++ rest.
Proof.
  destruct (traverseLockStep_CallsOf reference obj) as [[F [P _]] [E _]].
  rewrite E. now split.
Qed.

(* ================================================================== *)
(** ** Merging an object into the reference *)
(* ================================================================== *)

(** One turn of the while loop of _mergeObj. *)
Lemma mergeLoop_step (descend : BSONValue -> BSONObj -> option BSONObj)
    (name : string) (rv : BSONValue) (refs' : BSONObj)
    (iname : string) (iv : BSONValue) (it' built : BSONObj) :
  mergeLoop descend ((name, rv) :: refs') ((iname, iv) :: it') built
  = if String.eqb name iname then
      match rv, iv with
      | VObject refObj, VObject itObj =>
          if negb (Bool.eqb (isEmpty refObj) (isEmpty itObj)) then None
          else
            match descend rv itObj with
            | None => None
            | Some sub => mergeLoop descend refs' it' (built ++ [(name, VObject sub)])
            end
      | VObject _, _ => None
      | _, VObject _ => None
      | _, _ => mergeLoop descend refs' it' (built ++ [(name, rv)])
      end
    else if existsb (fun e => String.eqb (fieldName e) name) it' then
      if hasField built iname then None
      else mergeLoop descend ((name, rv) :: refs') it' (built ++ [(iname, iv)])
    else mergeLoop descend refs' ((iname, iv) :: it') (built ++ [(name, rv)]).
Proof. reflexivity. Qed.

Lemma mergeLoop_ref_end (descend : BSONValue -> BSONObj -> option BSONObj)
    (it built : BSONObj) :
  mergeLoop descend [] it built = mergeRemaining it built.
Proof. destruct it; reflexivity. Qed.

Lemma mergeLoop_obj_end (descend : BSONValue -> BSONObj -> option BSONObj)
    (refs built : BSONObj) :
  mergeLoop descend refs [] built = mergeRemaining refs built.
Proof. destruct refs as [|[name rv] refs']; reflexivity. Qed.

(** The name-match turn when neither element is an Object. *)
Lemma mergeLoop_leaves (descend : BSONValue -> BSONObj -> option BSONObj)
    (name : string) (rv iv : BSONValue) (refs' it' built : BSONObj) :
  isObject rv = false -> isObject iv = false ->
  (match rv, iv with
   | VObject refObj, VObject itObj =>
       if negb (Bool.eqb (isEmpty refObj) (isEmpty itObj)) then None
       else
         match descend rv itObj with
         | None => None
         | Some sub => mergeLoop descend refs' it' (built ++ [(name, VObject sub)])
         end
   | VObject _, _ => None
   | _, VObject _ => None
   | _, _ => mergeLoop descend refs' it' (built ++ [(name, rv)])
   end) = mergeLoop descend refs' it' (built ++ [(name, rv)]).
Proof.
  intros Hr Hi. destruct rv; try discriminate Hr; destruct iv; try discriminate Hi;
    reflexivity.
Qed.

Lemma mergeLoop_mixed (descend : BSONValue -> BSONObj -> option BSONObj)
    (name : string) (rv iv : BSONValue) (refs' it' built : BSONObj) :
  isObject rv <> isObject iv ->
  (match rv, iv with
   | VObject refObj, VObject itObj =>
       if negb (Bool.eqb (isEmpty refObj) (isEmpty itObj)) then None
       else
         match descend rv itObj with
         | None => None
         | Some sub => mergeLoop descend refs' it' (built ++ [(name, VObject sub)])
         end
   | VObject _, _ => None
   | _, VObject _ => None
   | _, _ => mergeLoop descend refs' it' (built ++ [(name, rv)])
   end) = None.
Proof.
  intros H. destruct rv, iv; try reflexivity; now contradiction H.
Qed.

Lemma mergeLoop_same (refs : BSONObj) :
  Forall (fun e => forall fields, snd e = VObject fields ->
            mergeValue (VObject fields) fields = Some fields) refs ->
  forall built, mergeLoop mergeValue refs refs built = Some (built ++ refs).
Proof.
  induction 1 as [|[name rv] refs' Hhead _ IH]; intros built.
  - cbn. now rewrite app_nil_r.
  - rewrite mergeLoop_step, String.eqb_refl.
    assert (Eapp : (built ++ [(name, rv)]) ++ refs' = built ++ (name, rv) :: refs')
      by now rewrite <- app_assoc.
    destruct (isObject rv) eqn:Hobj.
    + destruct rv; try discriminate Hobj.
      rewrite Bool.eqb_reflx. cbn [negb].
      rewrite (Hhead fields eq_refl), IH. now rewrite Eapp.
    + rewrite (mergeLoop_leaves _ name rv rv refs' refs' built Hobj Hobj), IH.
      now rewrite Eapp.
Qed.

Lemma mergeValue_same (v : BSONValue) :
  forall fields, v = VObject fields -> mergeValue (VObject fields) fields = Some fields.
Proof.
  induction v as [fields IH | v Hleaf] using BSONValue_nested_ind;
    intros fields' Heq.
  - injection Heq as <-. cbn [mergeValue].
    now rewrite (mergeLoop_same fields IH []).
  - subst v. discriminate Hleaf.
Qed.

(** X3.  Merging an object into itself succeeds and gives the object
    back: mergeObj(reference, reference) is [reference], whatever fields
    and sub-objects it has. *)
Theorem mergeObj_same (reference : BSONObj) :
  mergeObj reference reference = Some reference.
Proof. exact (mergeValue_same (VObject reference) reference eq_refl). Qed.

(** How the loop of _traverseLockStep goes on one reference element. *)
Lemma Compatible_self_all (xs : BSONObj) : Compatible xs xs.
Proof.
  intros acc. exists (acc ++ map twice (leaves xs)).
  rewrite <- (app_nil_r xs) at 2.
  apply (lockStepLoop_same xs).
  apply Forall_forall. intros e _ fields _.
  exact (lockStepValue_same (VObject fields) fields eq_refl).
Qed.

Lemma Compatible_match_leaf (name : string) (v iv : BSONValue) (refs it' : BSONObj) :
  isObject v = false ->
  Compatible refs it' -> Compatible ((name, v) :: refs) ((name, iv) :: it').
Proof.
  intros Hobj H acc. rewrite (lockStepLoop_leaf _ name v refs _ acc Hobj).
  rewrite String.eqb_refl. apply H.
Qed.

Lemma Compatible_match_obj (name : string) (sub itObj refs it' : BSONObj) :
  Compatible sub itObj -> isEmpty sub = isEmpty itObj ->
  Compatible refs it' ->
  Compatible ((name, VObject sub) :: refs) ((name, VObject itObj) :: it').
Proof.
  intros Hsub He H acc. cbn [lockStepLoop].
  rewrite String.eqb_refl, He, Bool.eqb_reflx. cbn [negb].
  destruct (Hsub []) as [calls E].
  change (lockStepValue (VObject sub) itObj)
    with (lockStepLoop lockStepValue sub itObj []).
  rewrite E. apply H.
Qed.

Lemma Compatible_self (e : BSONElement) (refs it' : BSONObj) :
  Compatible refs it' -> Compatible (e :: refs) (e :: it').
Proof.
  intros H. destruct e as [name v]. destruct (isObject v) eqn:Hobj.
  - destruct v; try discriminate Hobj.
    apply Compatible_match_obj; [apply Compatible_self_all | reflexivity | exact H].
  - now apply Compatible_match_leaf.
Qed.

(** A reference element the iterator does not stand on: it is traversed as
    if missing from obj. *)
Lemma Compatible_missing (name iname : string) (v iv : BSONValue) (refs it' : BSONObj) :
  String.eqb name iname = false ->
  Compatible refs ((iname, iv) :: it') ->
  Compatible ((name, v) :: refs) ((iname, iv) :: it').
Proof.
  intros En H acc. destruct (isObject v) eqn:Hobj.
  - destruct v; try discriminate Hobj. cbn [lockStepLoop]. rewrite En. apply H.
  - rewrite (lockStepLoop_leaf _ name v refs _ acc Hobj), En. apply H.
Qed.

Lemma Compatible_at_end (name : string) (v : BSONValue) (refs : BSONObj) :
  v <> VObject [] -> Compatible refs [] -> Compatible ((name, v) :: refs) [].
Proof.
  intros Hv H acc. destruct (isObject v) eqn:Hobj.
  - destruct v; try discriminate Hobj. cbn [lockStepLoop].
    destruct fields; [now contradiction Hv | apply H].
  - rewrite (lockStepLoop_leaf _ name v refs _ acc Hobj). apply H.
Qed.

Lemma Compatible_nil_inv (it : BSONObj) : Compatible [] it -> it = [].
Proof.
  intros H. destruct (H []) as [calls E]. cbn in E. now injection E.
Qed.

(** The tail loops of _mergeObj append what is left as it is. *)
Lemma mergeRemaining_spec (rest : BSONObj) :
  forall built m,
    mergeRemaining rest built = Some m ->
    m = built ++ rest /\ Forall (fun e => snd e <> VObject []) rest.
Proof.
  induction rest as [|[name v] rest' IH]; intros built m; cbn [mergeRemaining].
  - intros E. injection E as <-. now rewrite app_nil_r.
  - assert (Hgo : (if hasField built name then None
                   else mergeRemaining rest' (built ++ [(name, v)])) = Some m ->
                  v <> VObject [] ->
                  m = built ++ (name, v) :: rest'
                  /\ Forall (fun e => snd e <> VObject []) ((name, v) :: rest')).
    { destruct (hasField built name); [discriminate|].
      intros E Hv. destruct (IH _ _ E) as [-> F].
      split; [now rewrite <- app_assoc | now constructor]. }
    destruct v; try (intros E; apply Hgo; [exact E | discriminate]).
    destruct fields; [discriminate|].
    intros E; apply Hgo; [exact E | discriminate].
Qed.

Lemma Compatible_end_all (xs : BSONObj) :
  Forall (fun e => snd e <> VObject []) xs -> Compatible xs [].
Proof.
  induction 1 as [|[name v] xs' Hv _ IH].
  - intros acc. now exists acc.
  - now apply Compatible_at_end.
Qed.

(** What the while loop of _mergeObj adds to the builder is compatible
    with both of the objects it reads, from where their iterators stand. *)
Lemma mergeLoop_compatible (refs : BSONObj) :
  Forall (fun e => forall fields, snd e = VObject fields ->
            forall obj m,
              mergeLoop mergeValue fields obj [] = Some m ->
              Compatible m obj /\ Compatible m fields) refs ->
  forall it built m,
    mergeLoop mergeValue refs it built = Some m ->
    exists added,
      m = built ++ added /\ Compatible added it /\ Compatible added refs.
Proof.
  induction 1 as [|[name rv] refs' Hhead _ IHrefs].
  - intros it built m. rewrite mergeLoop_ref_end. intros E.
    destruct (mergeRemaining_spec _ _ _ E) as [-> F].
    exists it. split; [reflexivity|].
    split; [apply Compatible_self_all | now apply Compatible_end_all].
  - induction it as [|[iname iv] it' IHit]; intros built m.
    + rewrite mergeLoop_obj_end. intros E.
      destruct (mergeRemaining_spec _ _ _ E) as [-> F].
      exists ((name, rv) :: refs'). split; [reflexivity|].
      split; [now apply Compatible_end_all | apply Compatible_self_all].
    + rewrite mergeLoop_step.
      destruct (String.eqb name iname) eqn:En.
      * apply String.eqb_eq in En. subst iname.
        destruct (isObject rv) eqn:Hr, (isObject iv) eqn:Hi.
        -- destruct rv as [| | |refObj| | | | | | | | | | | | | | | | | |];
             try discriminate Hr.
           destruct iv as [| | |itObj| | | | | | | | | | | | | | | | | |];
             try discriminate Hi.
           destruct (Bool.eqb (isEmpty refObj) (isEmpty itObj)) eqn:Ee;
             cbn [negb]; [|discriminate].
           cbn [mergeValue].
           destruct (mergeLoop mergeValue refObj itObj []) as [sub|] eqn:Es;
             [|discriminate].
           intros E.
           destruct (Hhead refObj eq_refl itObj sub Es) as [Hso Hsr].
           destruct (IHrefs it' _ m E) as [added [-> [Ho Hrf]]].
           exists ((name, VObject sub) :: added).
           split; [now rewrite <- app_assoc|].
           assert (Hempty : isEmpty sub = isEmpty itObj /\ isEmpty sub = isEmpty refObj).
           { apply Bool.eqb_prop in Ee.
             destruct sub as [|s0 sub'].
             - rewrite (Compatible_nil_inv _ Hso), (Compatible_nil_inv _ Hsr).
               now split.
             - destruct refObj as [|r0 refObj'], itObj as [|i0 itObj'];
                 try discriminate Ee; [|now split].
               cbn in Es. discriminate Es. }
           split; apply Compatible_match_obj; tauto.
        -- rewrite mergeLoop_mixed by (rewrite Hr, Hi; discriminate). discriminate.
        -- rewrite mergeLoop_mixed by (rewrite Hr, Hi; discriminate). discriminate.
        -- rewrite mergeLoop_leaves by assumption. intros E.
           destruct (IHrefs it' _ m E) as [added [-> [Ho Hrf]]].
           exists ((name, rv) :: added).
           split; [now rewrite <- app_assoc|].
           split; now apply Compatible_match_leaf.
      * destruct (existsb _ it').
        -- destruct (hasField built iname); [discriminate|]. intros E.
           destruct (IHit _ m E) as [added [-> [Ho Hrf]]].
           exists ((iname, iv) :: added).
           split; [now rewrite <- app_assoc|].
           split; [now apply Compatible_self|].
           apply Compatible_missing; [|exact Hrf].
           now rewrite String.eqb_sym.
        -- intros E.
           destruct (IHrefs _ _ m E) as [added [-> [Ho Hrf]]].
           exists ((name, rv) :: added).
           split; [now rewrite <- app_assoc|].
           split; [now apply Compatible_missing | now apply Compatible_self].
Qed.

Lemma mergeValue_compatible (v : BSONValue) :
  forall fields, v = VObject fields ->
    forall obj m,
      mergeLoop mergeValue fields obj [] = Some m ->
      Compatible m obj /\ Compatible m fields.
Proof.
  induction v as [fields IH | v Hleaf] using BSONValue_nested_ind;
    intros fields' Heq obj m E.
  - injection Heq as <-.
    destruct (mergeLoop_compatible fields IH obj [] m E) as [added [-> H]].
    exact H.
  - subst v. discriminate Hleaf.
Qed.

Lemma Compatible_traverseLockStep (reference obj : BSONObj) :
  Compatible reference obj -> snd (traverseLockStep reference obj) = true.
Proof.
  intros H. destruct (H []) as [calls E].
  unfold traverseLockStep, _traverseLockStep. cbn [lockStepValue]. now rewrite E.
Qed.

(** X4.  When mergeObj(reference, obj) succeeds, both objects are
    compatible with the merged object: traverseLockStep finds the hierarchy
    of [obj] and the hierarchy of [reference] compatible with it.  So the
    objects buffered before the merge can still be encoded against the new
    reference, and so can the one that caused it. *)
Theorem mergeObj_compatible (reference obj merged : BSONObj) :
  mergeObj reference obj = Some merged ->
  snd (traverseLockStep merged obj) = true
  /\ snd (traverseLockStep merged reference) = true.
Proof.
  intros E.
  destruct (mergeValue_compatible (VObject reference) reference eq_refl obj merged E)
    as [Ho Hr].
  split; now apply Compatible_traverseLockStep.
Qed.

(** An instance: {c: 1, a: 2} merged into {a: 1, b: 1} gives {c: 1, a: 1,
    b: 1}. *)
Lemma mergeObj_compatible_witness :
  snd (traverseLockStep [("c"%string, VInt 1); ("a"%string, VInt 1); ("b"%string, VInt 1)]
                        [("c"%string, VInt 1); ("a"%string, VInt 2)]) = true
  /\ snd (traverseLockStep [("c"%string, VInt 1); ("a"%string, VInt 1); ("b"%string, VInt 1)]
                           [("a"%string, VInt 1); ("b"%string, VInt 1)]) = true.
Proof.
  apply (mergeObj_compatible [("a"%string, VInt 1); ("b"%string, VInt 1)]
                             [("c"%string, VInt 1); ("a"%string, VInt 2)]).
  reflexivity.
Defined.

(* ================================================================== *)
(** ** One encoding state per leaf of the reference *)
(* ================================================================== *)

Section PerLeaf.

Variable C : Collaborators.
Variable depth : nat.

Lemma appendToStates_length (states : list (EncodingState C)) :
  forall buffers elems ss bs,
    appendToStates C depth states buffers elems = Ok (ss, bs) ->
    List.length ss = List.length states /\ List.length bs = List.length states.
Proof.
  induction states as [|es states' IH]; intros buffers elems ss bs;
    cbn [appendToStates].
  - destruct buffers; [|discriminate]. destruct elems; [|discriminate].
    intros E. injection E as <- <-. now split.
  - destruct buffers as [|sink buffers']; [discriminate|].
    destruct elems as [|elem elems']; [discriminate|].
    destruct (appendOrSkip C depth (es, sink) elem) as [[es1 sink1]| | |];
      try discriminate.
    destruct (appendToStates C depth states' buffers' elems') as [[ss' bs']| | |] eqn:E1;
      try discriminate.
    intros E. injection E as <- <-.
    destruct (IH _ _ _ _ E1) as [Hs Hb]. cbn [List.length]. now rewrite Hs, Hb.
Qed.

Lemma setupStates_length (calls : Calls) :
  forall states buffers ss bs,
    setupStates C depth calls states buffers = Ok (ss, bs) ->
    List.length ss = (List.length states + List.length calls)%nat
    /\ List.length bs = (List.length buffers + List.length calls)%nat.
Proof.
  induction calls as [|[ref elem] rest IH]; intros states buffers ss bs;
    cbn [setupStates].
  - intros E. injection E as <- <-. cbn. lia.
  - destruct (appendOrSkip C depth _ elem) as [[es1 sink1]| | |]; try discriminate.
    intros E. destruct (IH _ _ _ _ E) as [-> ->].
    rewrite !length_app. cbn [List.length]. lia.
Qed.

Lemma flattenCalls_length (calls : Calls) :
  forall acc flat,
    flattenCalls calls acc = (flat, false) ->
    List.length flat = (List.length acc + List.length calls)%nat.
Proof.
  induction calls as [|[ref elem] rest IH]; intros acc flat; cbn [flattenCalls].
  - intros E. injection E as <-. cbn. lia.
  - destruct (isMinOrMaxKey (elemType elem)); [discriminate|].
    intros E. rewrite (IH _ _ E), length_app. cbn [List.length]. lia.
Qed.

(** _appendSubElements on an object that is compatible with the reference:
    the mode, the reference and the number of states stay. *)
Lemma appendSubElementsWith_states
    (restart : BSONColumnBuilder C -> BSONObj -> Outcome (BSONColumnBuilder C))
    (b b' : BSONColumnBuilder C) (obj : BSONObj) :
  appendSubElementsWith C depth restart b obj = Ok b' ->
  (exists flat, restart (set_flattenedAppendedObj C b flat) obj = Ok b')
  \/ (_mode C b' = _mode C b
      /\ _referenceSubObj C b' = _referenceSubObj C b
      /\ List.length (_subobjStates C b') = List.length (_subobjStates C b)
      /\ List.length (_subobjBuffers C b') = List.length (_subobjStates C b)).
Proof.
  unfold appendSubElementsWith.
  destruct (traverseLockStep (_referenceSubObj C b) obj) as [calls compatible].
  destruct (flattenCalls calls []) as [flat thrown].
  destruct thrown; [discriminate|].
  destruct (negb compatible).
  - intros E. left. now exists flat.
  - destruct (negb _); [discriminate|].
    destruct (appendToStates C depth _ _ _) as [[states buffers]| | |] eqn:Ea;
      try discriminate.
    intros E. injection E as <-. right.
    destruct (appendToStates_length _ _ _ _ _ Ea) as [Hs Hb].
    cbn in *. now repeat split.
Qed.

Lemma replayBuffered_states (objs : list BSONObj) :
  forall b b',
    replayBuffered C depth b objs = Ok b' ->
    List.length (_subobjBuffers C b) = List.length (_subobjStates C b) ->
    List.length (_subobjStates C b') = List.length (_subobjStates C b)
    /\ List.length (_subobjBuffers C b') = List.length (_subobjStates C b).
Proof.
  induction objs as [|obj rest IH]; intros b b'; cbn [replayBuffered].
  - intros E. injection E as <-. now split.
  - destruct (appendSubElementsWith C depth _ b obj) as [b1| | |] eqn:E1;
      try discriminate.
    intros E Hb.
    destruct (appendSubElementsWith_states _ _ _ _ E1)
      as [[flat Hf] | [_ [_ [Hs1 Hb1]]]]; [discriminate|].
    destruct (IH _ _ E ltac:(congruence)) as [Hs' Hb']. split; congruence.
Qed.

Lemma finishDetermineSubObjReference_states (b b' : BSONColumnBuilder C) :
  _finishDetermineSubObjReference C depth b = Ok b' ->
  _subobjStates C b = [] -> _subobjBuffers C b = [] ->
  List.length (_subobjStates C b') = List.length (leaves (_referenceSubObj C b))
  /\ List.length (_subobjBuffers C b') = List.length (_subobjStates C b').
Proof.
  unfold _finishDetermineSubObjReference.
  set (b1 := set_bufBuilder C b _).
  destruct (_bufferedObjElements C b1) as [|front rest]; [discriminate|].
  pose proof (traverseLockStep_calls_length (_referenceSubObj C b1) front) as Hl.
  destruct (traverseLockStep (_referenceSubObj C b1) front) as [calls res].
  destruct (setupStates C depth calls _ _) as [[states buffers]| | |] eqn:Es;
    try discriminate.
  destruct res; cbn [negb]; [|discriminate].
  destruct (replayBuffered C depth _ rest) as [b3| | |] eqn:E3; try discriminate.
  intros E Hs0 Hb0. injection E as <-.
  destruct (setupStates_length _ _ _ _ _ Es) as [Hs Hb].
  subst b1. cbn [_subobjStates _subobjBuffers set_bufBuilder] in Hs, Hb.
  rewrite Hs0 in Hs. rewrite Hb0 in Hb. cbn [List.length Nat.add] in Hs, Hb.
  destruct (replayBuffered_states _ _ _ E3) as [Hs3 Hb3].
  { cbn. congruence. }
  cbn [_subobjStates _subobjBuffers set_mode set_subobj set_bufferedObjElements
       _referenceSubObj set_bufBuilder] in *.
  pose proof (Hl eq_refl) as Hlen. cbn [fst] in Hlen.
  split; congruence.
Qed.

Lemma flushSubObjStates_states (b b' : BSONColumnBuilder C) :
  flushSubObjStates C b = Ok b' ->
  _subobjStates C b' = [] /\ _subobjBuffers C b' = [].
Proof.
  unfold flushSubObjStates.
  destruct (interleaveLoop C _ _ _ _) as [out| | |]; try discriminate.
  intros E. injection E as <-. now split.
Qed.

Lemma flushSubObjMode_states (b b' : BSONColumnBuilder C) :
  _flushSubObjMode C depth b = Ok b' ->
  _subobjStates C b' = [] /\ _subobjBuffers C b' = [].
Proof.
  unfold _flushSubObjMode.
  destruct (Mode_eqb (_mode C b) kSubObjDeterminingReference).
  - destruct (_finishDetermineSubObjReference C depth b) as [b1| | |];
      try discriminate.
    apply flushSubObjStates_states.
  - apply flushSubObjStates_states.
Qed.

Lemma startDetermineSubObjReference_states (b b' : BSONColumnBuilder C) (obj : BSONObj) :
  _startDetermineSubObjReference C b obj = Ok b' ->
  _subobjStates C b' = _subobjStates C b
  /\ _subobjBuffers C b' = _subobjBuffers C b
  /\ _mode C b' = kSubObjDeterminingReference.
Proof.
  unfold _startDetermineSubObjReference.
  destruct (EncodingState_flush C (mainState C b)) as [es1 sink1].
  destruct (existsb _ _); [discriminate|].
  intros E. injection E as <-. now repeat split.
Qed.

Lemma SubStates_none (b : BSONColumnBuilder C) :
  _subobjStates C b = [] -> _subobjBuffers C b = [] ->
  _mode C b <> kSubObjAppending -> SubStates b.
Proof.
  intros Hs Hb Hm. unfold SubStates. rewrite Hs, Hb. split; [reflexivity|].
  destruct (_mode C b); [reflexivity | reflexivity | now contradiction Hm].
Qed.

Lemma appendSubElements_SubStates (b b' : BSONColumnBuilder C) (obj : BSONObj) :
  SubStates b -> _mode C b = kSubObjAppending ->
  _appendSubElements C depth b obj = Ok b' -> SubStates b'.
Proof.
  intros [Hb Hs] Hm E. rewrite Hm in Hs. unfold _appendSubElements in E.
  apply appendSubElementsWith_states in E.
  destruct E as [[flat E] | [Em [Er [Es Eb]]]].
  - destruct (_flushSubObjMode C depth _) as [b2| | |] eqn:E2; try discriminate.
    destruct (flushSubObjMode_states _ _ E2) as [Hs2 Hb2].
    destruct (startDetermineSubObjReference_states _ _ _ E) as [Hs' [Hb' Hm']].
    apply SubStates_none; [congruence | congruence | rewrite Hm'; discriminate].
  - unfold SubStates. rewrite Em, Hm, Er, Es, Eb. now split.
Qed.

Lemma appendDetermining_SubStates (b b' : BSONColumnBuilder C) (obj : BSONObj) :
  SubStates b -> _mode C b = kSubObjDeterminingReference ->
  appendDetermining C depth b obj = Ok b' -> SubStates b'.
Proof.
  intros [Hb Hs] Hm. rewrite Hm in Hs. rewrite Hs in Hb.
  apply length_zero_iff_nil in Hb. unfold appendDetermining.
  destruct (traverseLockStep (_referenceSubObj C b) obj) as [calls compatible].
  destruct (existsb _ calls); [discriminate|].
  destruct (if compatible then _ else _) as [reference|].
  - destruct (_ >=? _).
    + intros E. injection E as <-.
      apply SubStates_none; [exact Hs | exact Hb | cbn; rewrite Hm; discriminate].
    + destruct (_finishDetermineSubObjReference C depth _) as [b2| | |] eqn:E2;
        try discriminate.
      destruct (_appendSubElements C depth b2 obj) as [b3| | |] eqn:E3;
        cbn [okCount]; try discriminate.
      intros E. injection E as <-.
      destruct (finishDetermineSubObjReference_states _ _ E2 Hs Hb) as [Hs2 Hb2].
      destruct (finishDetermineSubObjReference_kept C depth _ _ E2) as [_ [Hm2 _]].
      pose proof (finishDetermineSubObjReference_reference C depth _ _ E2) as Hr2.
      assert (H2 : SubStates b2).
      { unfold SubStates. rewrite Hm2, Hr2. now split. }
      exact (appendSubElements_SubStates b2 b3 obj H2 Hm2 E3).
  - destruct (_flushSubObjMode C depth b) as [b1| | |] eqn:E1; try discriminate.
    destruct (flushSubObjMode_states _ _ E1) as [Hs1 Hb1].
    intros E. injection E as <-.
    apply SubStates_none; [exact Hs1 | exact Hb1 | cbn; discriminate].
Qed.

Lemma SubStates_same (b b' : BSONColumnBuilder C) :
  SubStates b ->
  _subobjStates C b' = _subobjStates C b ->
  _subobjBuffers C b' = _subobjBuffers C b ->
  _mode C b' = _mode C b ->
  _referenceSubObj C b' = _referenceSubObj C b ->
  SubStates b'.
Proof. unfold SubStates. intros H -> -> -> ->. exact H. Qed.

Lemma SubStates_regular (b : BSONColumnBuilder C) :
  SubStates b -> _mode C b <> kSubObjAppending ->
  _subobjStates C b = [] /\ _subobjBuffers C b = [].
Proof.
  intros [Hb Hs] Hm.
  assert (E : _subobjStates C b = [])
    by (destruct (_mode C b); [exact Hs | exact Hs | now contradiction Hm]).
  split; [exact E|]. rewrite E in Hb. now apply length_zero_iff_nil in Hb.
Qed.

Lemma appendScalar_SubStates (b b' : BSONColumnBuilder C) (elem : BSONElement) :
  SubStates b ->
  (let flushed :=
     if negb (Mode_eqb (_mode C b) kRegular) then _flushSubObjMode C depth b else Ok b in
   match flushed with
   | Ok b1 =>
       match EncodingState_append C depth (mainState C b1) elem with
       | Ok st => Ok (incrementElementCount C (set_state C b1 st))
       | Throw _ => Fatal
       | Fatal => Fatal
       | OutOfFuel => OutOfFuel
       end
   | other => other
   end) = Ok b' ->
  SubStates b' /\ _mode C b' = kRegular.
Proof.
  intros HS. cbv zeta.
  assert (Hgo : forall b1,
             _subobjStates C b1 = [] -> _subobjBuffers C b1 = [] ->
             _mode C b1 = kRegular ->
             match EncodingState_append C depth (mainState C b1) elem with
             | Ok st => Ok (incrementElementCount C (set_state C b1 st))
             | Throw _ => Fatal
             | Fatal => Fatal
             | OutOfFuel => OutOfFuel
             end = Ok b' ->
             SubStates b' /\ _mode C b' = kRegular).
  { intros b1 Hs Hb Hm.
    destruct (EncodingState_append C depth (mainState C b1) elem) as [st| | |];
      try discriminate.
    intros E. injection E as <-. split; [|exact Hm].
    apply SubStates_none; [exact Hs | exact Hb | cbn; rewrite Hm; discriminate]. }
  destruct (Mode_eqb (_mode C b) kRegular) eqn:Em; cbn [negb].
  - apply Mode_eqb_eq in Em.
    destruct (SubStates_regular b HS ltac:(rewrite Em; discriminate)) as [Hs Hb].
    now apply Hgo.
  - destruct (_flushSubObjMode C depth b) as [b1| | |] eqn:E1; try discriminate.
    destruct (flushSubObjMode_states _ _ E1) as [Hs Hb].
    destruct (flushSubObjMode_kept C depth _ _ E1) as [_ [Hm _]].
    now apply Hgo.
Qed.

Lemma append_SubStates (b b' : BSONColumnBuilder C) (elem : BSONElement) :
  SubStates b -> append C depth b elem = Ok b' ->
  SubStates b'
  /\ match snd elem with
     | VObject (_ :: _) => _mode C b' <> kRegular
     | _ => _mode C b' = kRegular
     end.
Proof.
  intros HS. unfold append.
  destruct (isMinOrMaxKey (elemType elem)); [discriminate|].
  destruct (snd elem) as [| | |fields| | | | | | | | | | | | | | | | | |];
    try apply (appendScalar_SubStates b b' elem HS).
  destruct fields as [|f fs]; [apply (appendScalar_SubStates b b' elem HS)|].
  assert (Hcount : forall b1, SubStates b1 -> _mode C b1 <> kRegular ->
             SubStates (incrementElementCount C b1)
             /\ _mode C (incrementElementCount C b1) <> kRegular).
  { intros b1 H1 Hm1. split; [|exact Hm1].
    apply (SubStates_same b1); [exact H1 | reflexivity..]. }
  destruct (_mode C b) eqn:Em.
  - destruct (_startDetermineSubObjReference C b (f :: fs)) as [b1| | |] eqn:E1;
      cbn [okCount]; try discriminate.
    intros E. injection E as <-.
    destruct (startDetermineSubObjReference_states _ _ _ E1) as [Hs [Hb Hm]].
    destruct (SubStates_regular b HS ltac:(rewrite Em; discriminate)) as [Hs0 Hb0].
    apply Hcount; [|rewrite Hm; discriminate].
    apply SubStates_none; [congruence | congruence | rewrite Hm; discriminate].
  - intros E. split; [exact (appendDetermining_SubStates b b' _ HS Em E)|].
    revert E. unfold appendDetermining.
    destruct (traverseLockStep (_referenceSubObj C b) (f :: fs)) as [calls compatible].
    destruct (existsb _ calls); [discriminate|].
    destruct (if compatible then _ else _) as [reference|].
    + destruct (_ >=? _).
      * intros E. injection E as <-. cbn. rewrite Em. discriminate.
      * destruct (_finishDetermineSubObjReference C depth _) as [b2| | |] eqn:E2;
          try discriminate.
        destruct (finishDetermineSubObjReference_kept C depth _ _ E2) as [_ [Hm2 _]].
        unfold _appendSubElements.
        destruct (appendSubElementsWith C depth _ b2 (f :: fs)) as [b3| | |] eqn:E3;
          cbn [okCount]; try discriminate.
        intros E. injection E as <-.
        destruct (appendSubElementsWith_states _ _ _ _ E3) as [[flat Hf] | [Hm3 _]].
        -- destruct (_flushSubObjMode C depth _) as [b4| | |]; try discriminate.
           destruct (startDetermineSubObjReference_states _ _ _ Hf) as [_ [_ Hm]].
           cbn. rewrite Hm. discriminate.
        -- cbn. rewrite Hm3, Hm2. discriminate.
    + destruct (_flushSubObjMode C depth b) as [b1| | |]; try discriminate.
      intros E. injection E as <-. cbn. discriminate.
  - destruct (_appendSubElements C depth b (f :: fs)) as [b1| | |] eqn:E1;
      cbn [okCount]; try discriminate.
    intros E. injection E as <-.
    pose proof (appendSubElements_SubStates b b1 _ HS Em E1) as H1.
    apply Hcount; [exact H1|].
    unfold _appendSubElements in E1.
    destruct (appendSubElementsWith_states _ _ _ _ E1) as [[flat Hf] | [Hm1 _]].
    + destruct (_flushSubObjMode C depth _) as [b4| | |]; try discriminate.
      destruct (startDetermineSubObjReference_states _ _ _ Hf) as [_ [_ Hm]].
      rewrite Hm. discriminate.
    + rewrite Hm1, Em. discriminate.
Qed.

Lemma skip_SubStates (b : BSONColumnBuilder C) :
  SubStates b -> SubStates (skip C b) /\ _mode C (skip C b) = _mode C b.
Proof.
  intros HS. unfold skip. cbn [_mode incrementElementCount].
  destruct (_mode C b) eqn:Em.
  - split; [|exact Em].
    apply (SubStates_same b); [exact HS | reflexivity | reflexivity | | reflexivity].
    cbn. now rewrite Em.
  - split; [|exact Em].
    apply (SubStates_same b); [exact HS | reflexivity | reflexivity | | reflexivity].
    cbn. now rewrite Em.
  - split; [|exact Em].
    destruct HS as [Hb Hs]. rewrite Em in Hs.
    unfold SubStates.
    cbn [_subobjStates _subobjBuffers _mode _referenceSubObj set_subobj
         incrementElementCount].
    rewrite Em, !length_map, length_combine, Hb, Nat.min_id.
    now split.
Qed.

Lemma calls_SubStates (cs : list Call) :
  forall b b', SubStates b -> calls C depth b cs = Ok b' -> SubStates b'.
Proof.
  induction cs as [|c rest IH]; intros b b' HS; cbn [calls].
  - intros E. now injection E as <-.
  - destruct (call C depth b c) as [b1| | |] eqn:Ec; try discriminate.
    apply IH. destruct c; cbn [call] in Ec.
    + exact (proj1 (append_SubStates b b1 elem HS Ec)).
    + injection Ec as <-. exact (proj1 (skip_SubStates b HS)).
Qed.

End PerLeaf.

(** X5.  After any calls of append and skip that return, the builder holds
    as many sub-object buffers as sub-object encoding states; in mode
    kSubObjAppending there is one state per leaf of the reference object,
    which is what the invariant in _appendSubElements asks for, and in the
    other two modes there is none. *)
Theorem subobj_states_per_leaf (C : Collaborators) (depth : nat) (cs : list Call)
    (b : BSONColumnBuilder C) :
  calls C depth (newBuilder C) cs = Ok b ->
  List.length (_subobjBuffers C b) = List.length (_subobjStates C b)
  /\ match _mode C b with
     | kSubObjAppending =>
         List.length (_subobjStates C b) = List.length (leaves (_referenceSubObj C b))
     | _ => _subobjStates C b = []
     end.
Proof.
  intros E. apply (calls_SubStates C depth cs (newBuilder C) b); [|exact E].
  now split.
Qed.

(** X6.  An append that returns leaves the builder in regular mode when
    the element is not an Object or is an empty Object, and in one of the
    two sub-object modes when it is a non-empty Object, whatever mode the
    builder was in. *)
Theorem append_mode (C : Collaborators) (depth : nat)
    (b b' : BSONColumnBuilder C) (elem : BSONElement) :
  append C depth b elem = Ok b' ->
  match snd elem with
  | VObject (_ :: _) => _mode C b' <> kRegular
  | _ => _mode C b' = kRegular
  end.
Proof.
  assert (Hscalar :
    (let flushed :=
       if negb (Mode_eqb (_mode C b) kRegular) then _flushSubObjMode C depth b else Ok b in
     match flushed with
     | Ok b1 =>
         match EncodingState_append C depth (mainState C b1) elem with
         | Ok st => Ok (incrementElementCount C (set_state C b1 st))
         | Throw _ => Fatal
         | Fatal => Fatal
         | OutOfFuel => OutOfFuel
         end
     | other => other
     end) = Ok b' -> _mode C b' = kRegular).
  { cbv zeta.
    assert (Hgo : forall b1, _mode C b1 = kRegular ->
               match EncodingState_append C depth (mainState C b1) elem with
               | Ok st => Ok (incrementElementCount C (set_state C b1 st))
               | Throw _ => Fatal
               | Fatal => Fatal
               | OutOfFuel => OutOfFuel
               end = Ok b' -> _mode C b' = kRegular).
    { intros b1 Hm.
      destruct (EncodingState_append C depth (mainState C b1) elem) as [st| | |];
        try discriminate.
      intros E. now injection E as <-. }
    destruct (Mode_eqb (_mode C b) kRegular) eqn:Em; cbn [negb].
    - apply Mode_eqb_eq in Em. now apply Hgo.
    - destruct (_flushSubObjMode C depth b) as [b1| | |] eqn:E1; try discriminate.
      destruct (flushSubObjMode_kept C depth _ _ E1) as [_ [Hm _]].
      now apply Hgo. }
  assert (Hsub : forall b0 b1 obj,
             _mode C b0 = kSubObjAppending ->
             _appendSubElements C depth b0 obj = Ok b1 -> _mode C b1 <> kRegular).
  { intros b0 b1 obj Hm0 E1. unfold _appendSubElements in E1.
    destruct (appendSubElementsWith_states C depth _ _ _ _ E1) as [[flat Hf] | [Hm1 _]].
    - destruct (_flushSubObjMode C depth (set_flattenedAppendedObj C b0 flat))
        as [b4| | |]; try discriminate.
      destruct (startDetermineSubObjReference_states C _ _ _ Hf) as [_ [_ Hm]].
      rewrite Hm. discriminate.
    - rewrite Hm1, Hm0. discriminate. }
  unfold append.
  destruct (isMinOrMaxKey (elemType elem)); [discriminate|].
  destruct (snd elem) as [| | |fields| | | | | | | | | | | | | | | | | |];
    try exact Hscalar.
  destruct fields as [|f fs]; [exact Hscalar|].
  destruct (_mode C b) eqn:Em.
  - destruct (_startDetermineSubObjReference C b (f :: fs)) as [b1| | |] eqn:E1;
      cbn [okCount]; try discriminate.
    intros E. injection E as <-.
    destruct (startDetermineSubObjReference_states C _ _ _ E1) as [_ [_ Hm]].
    cbn. rewrite Hm. discriminate.
  - unfold appendDetermining.
    destruct (traverseLockStep (_referenceSubObj C b) (f :: fs)) as [calls compatible].
    destruct (existsb _ calls); [discriminate|].
    destruct (if compatible then _ else _) as [reference|].
    + destruct (_ >=? _).
      * intros E. injection E as <-. cbn. rewrite Em. discriminate.
      * destruct (_finishDetermineSubObjReference C depth _) as [b2| | |] eqn:E2;
          try discriminate.
        destruct (finishDetermineSubObjReference_kept C depth _ _ E2) as [_ [Hm2 _]].
        destruct (_appendSubElements C depth b2 (f :: fs)) as [b3| | |] eqn:E3;
          cbn [okCount]; try discriminate.
        intros E. injection E as <-. exact (Hsub b2 b3 _ Hm2 E3).
    + destruct (_flushSubObjMode C depth b) as [b1| | |]; try discriminate.
      intros E. injection E as <-. cbn. discriminate.
  - destruct (_appendSubElements C depth b (f :: fs)) as [b1| | |] eqn:E1;
      cbn [okCount]; try discriminate.
    intros E. injection E as <-. exact (Hsub b b1 _ Em E1).
Qed.

(** An instance: {a: 1, b: 2} appended while the reference is being
    determined. *)
Lemma append_mode_witness :
  returned (append Reference.collaborators 0 Inputs.determining
              (EmptyString, VObject [("a"%string, VInt 1); ("b"%string, VInt 2)])) = true
  /\ exists b',
       append Reference.collaborators 0 Inputs.determining
         (EmptyString, VObject [("a"%string, VInt 1); ("b"%string, VInt 2)]) = Ok b'
       /\ _mode Reference.collaborators b' <> kRegular.
Proof.
  assert (H : returned (append Reference.collaborators 0 Inputs.determining
                (EmptyString, VObject [("a"%string, VInt 1); ("b"%string, VInt 2)]))
              = true) by (vm_compute; reflexivity).
  split; [exact H|].
  destruct (returned_Ok _ H) as [b' E].
  exists b'. split; [exact E|].
  exact (append_mode Reference.collaborators 0 Inputs.determining b'
           (EmptyString, VObject [("a"%string, VInt 1); ("b"%string, VInt 2)]) E).
Defined.

(** An instance of the theorem on the states: the calls of
    Inputs.mixedCalls. *)
Lemma subobj_states_per_leaf_witness :
  returned (calls Reference.collaborators 0 (newBuilder Reference.collaborators)
                  Inputs.mixedCalls) = true
  /\ exists b,
       calls Reference.collaborators 0 (newBuilder Reference.collaborators)
             Inputs.mixedCalls = Ok b
       /\ List.length (_subobjBuffers Reference.collaborators b)
          = List.length (_subobjStates Reference.collaborators b)
       /\ match _mode Reference.collaborators b with
          | kSubObjAppending =>
              List.length (_subobjStates Reference.collaborators b)
              = List.length (leaves (_referenceSubObj Reference.collaborators b))
          | _ => _subobjStates Reference.collaborators b = []
          end.
Proof.
  assert (H : returned (calls Reference.collaborators 0
                          (newBuilder Reference.collaborators) Inputs.mixedCalls)
              = true) by (vm_compute; reflexivity).
  split; [exact H|].
  destruct (returned_Ok _ H) as [b E].
  exists b. split; [exact E|].
  exact (subobj_states_per_leaf Reference.collaborators 0 Inputs.mixedCalls b E).
Defined.

(* ================================================================== *)
(** ** The flag _storeWith128 and the type of the previous element *)
(* ================================================================== *)

Section Flag.

Variable C : Collaborators.

Lemma SamePrev_refl (es : EncodingState C) : SamePrev es es.
Proof. now split. Qed.

Lemma SamePrev_trans (a b c : EncodingState C) :
  SamePrev a b -> SamePrev b c -> SamePrev a c.
Proof. unfold SamePrev. intuition congruence. Qed.

Lemma writeBlocks_SamePrev (st : EncodingState C * Sink) (blocks : list Z) :
  SamePrev (fst st) (fst (writeBlocks C st blocks)).
Proof.
  destruct st as [es sink].
  destruct (writeBlocks_sameButRun C blocks es sink) as [Hp [_ [_ [_ [Hs _]]]]].
  now split.
Qed.

Lemma flush64_SamePrev (st : EncodingState C * Sink) :
  SamePrev (fst st) (fst (flush64 C st)).
Proof.
  unfold flush64.
  destruct (s8b_flush (S64 C) (_simple8bBuilder64 C (fst st))) as [blocks b].
  pose proof (writeBlocks_SamePrev st blocks) as H.
  destruct (writeBlocks C st blocks) as [es1 sink1]. cbn [fst] in *.
  destruct H as [Hp Hs]. split; [now rewrite <- Hp | now rewrite <- Hs];
    now destruct es1.
Qed.

Lemma flush128_SamePrev (st : EncodingState C * Sink) :
  SamePrev (fst st) (fst (flush128 C st)).
Proof.
  unfold flush128.
  destruct (s8b_flush (S128 C) (_simple8bBuilder128 C (fst st))) as [blocks b].
  pose proof (writeBlocks_SamePrev st blocks) as H.
  destruct (writeBlocks C st blocks) as [es1 sink1]. cbn [fst] in *.
  destruct H as [Hp Hs]. split; [now rewrite <- Hp | now rewrite <- Hs];
    now destruct es1.
Qed.

Lemma skip64_SamePrev (st : EncodingState C * Sink) :
  SamePrev (fst st) (fst (skip64 C st)).
Proof.
  unfold skip64.
  destruct (s8b_skip (S64 C) (_simple8bBuilder64 C (fst st))) as [blocks b].
  pose proof (writeBlocks_SamePrev st blocks) as H.
  destruct (writeBlocks C st blocks) as [es1 sink1]. cbn [fst] in *.
  destruct H as [Hp Hs]. split; [now rewrite <- Hp | now rewrite <- Hs];
    now destruct es1.
Qed.

Lemma skip128_SamePrev (st : EncodingState C * Sink) :
  SamePrev (fst st) (fst (skip128 C st)).
Proof.
  unfold skip128.
  destruct (s8b_skip (S128 C) (_simple8bBuilder128 C (fst st))) as [blocks b].
  pose proof (writeBlocks_SamePrev st blocks) as H.
  destruct (writeBlocks C st blocks) as [es1 sink1]. cbn [fst] in *.
  destruct H as [Hp Hs]. split; [now rewrite <- Hp | now rewrite <- Hs];
    now destruct es1.
Qed.

Lemma append64_SamePrev (st : EncodingState C * Sink) (v : Z) :
  SamePrev (fst st) (fst (snd (append64 C st v))).
Proof.
  unfold append64.
  destruct (s8b_append (S64 C) (_simple8bBuilder64 C (fst st)) v) as [[ok blocks] b].
  pose proof (writeBlocks_SamePrev st blocks) as H.
  destruct (writeBlocks C st blocks) as [es1 sink1]. cbn [fst snd] in *.
  destruct H as [Hp Hs]. split; [now rewrite <- Hp | now rewrite <- Hs];
    now destruct es1.
Qed.

Lemma append128_SamePrev (st : EncodingState C * Sink) (v : Z) :
  SamePrev (fst st) (fst (snd (append128 C st v))).
Proof.
  unfold append128.
  destruct (s8b_append (S128 C) (_simple8bBuilder128 C (fst st)) v) as [[ok blocks] b].
  pose proof (writeBlocks_SamePrev st blocks) as H.
  destruct (writeBlocks C st blocks) as [es1 sink1]. cbn [fst snd] in *.
  destruct H as [Hp Hs]. split; [now rewrite <- Hp | now rewrite <- Hs];
    now destruct es1.
Qed.

(** A member other than the previous element and the flag is set. *)
Lemma SamePrev_set (es es1 es2 : EncodingState C) :
  SamePrev es es1 ->
  _prev C es2 = _prev C es1 -> _storeWith128 C es2 = _storeWith128 C es1 ->
  SamePrev es es2.
Proof. unfold SamePrev. intuition congruence. Qed.

Lemma rescaleOrFlush_SamePrev (st : EncodingState C * Sink)
    (value previous encoded scaleIndex : Z) r :
  rescaleOrFlush C st value previous encoded scaleIndex = Ok r ->
  match r with
  | inl st' => SamePrev (fst st) (fst st')
  | inr (_, st') => SamePrev (fst st) (fst st')
  end.
Proof.
  destruct st as [es sink]. unfold rescaleOrFlush.
  destruct (_tryRescalePending C es encoded scaleIndex) as [[rescaled|]| | |];
    try discriminate.
  - intros E. injection E as <-. cbn [fst]. now destruct es.
  - pose proof (flush64_SamePrev (es, sink)) as H1.
    destruct (flush64 C (es, sink)) as [es1 sink1].
    destruct (scaleAndEncodeDouble C previous scaleIndex) as [prevEncoded prevScaleIndex].
    destruct (scaleAndEncodeDouble C value prevScaleIndex) as [encoded' scaleIndex'].
    destruct (scaleAndEncodeDouble C previous scaleIndex') as [prevEncoded' ignored].
    cbn [fst] in H1.
    destruct (negb (scaleIndex =? prevScaleIndex)); intros E; injection E as <-;
      cbn [fst]; (eapply SamePrev_set; [exact H1 | now destruct es1 | now destruct es1]).
Qed.

Lemma replayPending_SamePrev again (prevScale : Z) (pending : list (option Z)) :
  againSamePrev again ->
  forall st prev prevEncoded st',
    replayPending C again prevScale pending st prev prevEncoded = Ok st' ->
    SamePrev (fst st) (fst st').
Proof.
  intros Hagain.
  induction pending as [|[p|] rest IH]; intros st prev prevEncoded st' E;
    cbn [replayPending] in E.
  - injection E as <-. apply SamePrev_refl.
  - destruct (again st (decodeDouble C (expandDelta prevEncoded (decodeInt64 p)) prevScale)
                    prev) as [[ok st1]| | |] eqn:Ea; try discriminate.
    eapply SamePrev_trans; [exact (Hagain _ _ _ _ Ea) | exact (IH _ _ _ _ E)].
  - eapply SamePrev_trans; [apply skip64_SamePrev | exact (IH _ _ _ _ E)].
Qed.

Lemma appendDoubleStep_SamePrev again :
  againSamePrev again -> againSamePrev (appendDoubleStep C again).
Proof.
  intros Hagain st value previous r. unfold appendDoubleStep.
  destruct (scaleAndEncodeDouble C value (_scaleIndex C (fst st)))
    as [encoded0 scaleIndex].
  set (afterScale := if negb (scaleIndex =? _scaleIndex C (fst st))
                     then rescaleOrFlush C st value previous encoded0 scaleIndex
                     else Ok (inr (encoded0, st))).
  assert (Hafter : forall x, afterScale = Ok x ->
                     match x with
                     | inl st' => SamePrev (fst st) (fst st')
                     | inr (_, st') => SamePrev (fst st) (fst st')
                     end).
  { intros x. unfold afterScale.
    destruct (negb (scaleIndex =? _scaleIndex C (fst st))).
    - apply rescaleOrFlush_SamePrev.
    - intros E. injection E as <-. apply SamePrev_refl. }
  destruct afterScale as [[st'|[encoded st1]]| | |]; try discriminate.
  - intros E. injection E as <-. exact (Hafter _ eq_refl).
  - pose proof (Hafter _ eq_refl) as H1. cbn in H1.
    pose proof (append64_SamePrev st1
                  (encodeInt64 (calcDelta encoded (_prevEncoded64 C (fst st1))))) as H2.
    destruct (append64 C st1
                (encodeInt64 (calcDelta encoded (_prevEncoded64 C (fst st1)))))
      as [appended [es2 sink2]]. cbn [fst snd] in H2.
    pose proof (SamePrev_trans _ _ _ H1 H2) as H12.
    destruct (negb appended); [intros E; now injection E as <-|].
    destruct (negb (bufLen sink2 =? bufLen (snd st1))).
    + destruct (scaleAndEncodeDouble C (_lastValueInPrevBlock C es2) 0)
        as [prevEncoded64 scaleIndex0].
      match goal with
      | |- context [encodeDouble C ?a ?b] => destruct (encodeDouble C a b)
      end; try discriminate.
      match goal with
      | |- context [replayPending C again ?s ?p ?st0 ?a ?b] =>
          destruct (replayPending C again s p st0 a b) as [[es4 sink4]| | |] eqn:Er
      end; try discriminate.
      intros E. injection E as <-. cbn [fst snd].
      pose proof (replayPending_SamePrev _ _ _ Hagain _ _ _ _ Er) as H4.
      cbn [fst] in H4.
      eapply SamePrev_set; [eapply SamePrev_trans; [|exact H4] | now destruct es4..].
      eapply SamePrev_set; [exact H12 | now destruct es2..].
    + intros E. injection E as <-. cbn [fst snd].
      eapply SamePrev_set; [exact H12 | now destruct es2..].
Qed.

Lemma appendDouble_SamePrev (depth : nat) : againSamePrev (_appendDouble C depth).
Proof.
  induction depth as [|d IH]; cbn [_appendDouble]; apply appendDoubleStep_SamePrev.
  - intros st value previous r E. discriminate E.
  - exact IH.
Qed.

End Flag.

Lemma BSONType_eqb_eq (a b : BSONType) : BSONType_eqb a b = true -> a = b.
Proof. destruct a, b; intros H; try reflexivity; discriminate H. Qed.

Section FlagAppend.

Variable C : Collaborators.
Variable depth : nat.

Lemma writeLiteralFromPrevious_FlagAgrees (st : EncodingState C * Sink) :
  FlagAgrees (fst (_writeLiteralFromPrevious C st)).
Proof.
  destruct (writeLiteralFromPrevious_members C st) as [Hp [_ [_ [_ [Hs _]]]]].
  unfold FlagAgrees. now rewrite Hs, Hp.
Qed.

Lemma deltaValue64_SamePrev (es : EncodingState C) (elem previous : BSONValue)
    (possible : bool) (value : Z) (es1 : EncodingState C) :
  deltaValue64 C es elem previous = Ok (possible, value, es1) -> SamePrev es es1.
Proof.
  unfold deltaValue64.
  destruct elem; try discriminate;
    try (intros E; injection E as <- <- <-; apply SamePrev_refl);
    destruct previous; try discriminate;
    try (intros E; injection E as <- <- <-; apply SamePrev_refl);
    try (intros E; injection E as <- <- <-; now destruct es).
  destruct (negb (objectIdDeltaPossible oid oid0));
    intros E; injection E as <- <- <-; [apply SamePrev_refl | now destruct es].
Qed.

Lemma appendEncoded_SamePrev (st : EncodingState C * Sink) (encoded : Z) :
  SamePrev (fst st) (fst (snd (appendEncoded C st encoded))).
Proof.
  unfold appendEncoded.
  pose proof (append128_SamePrev C st
                (encodeInt128 (calcDelta128 encoded (_prevEncoded128 C (fst st))))) as H1.
  destruct (append128 C st
              (encodeInt128 (calcDelta128 encoded (_prevEncoded128 C (fst st)))))
    as [compressed [es1 sink1]]. cbn [fst snd] in *.
  eapply SamePrev_set; [exact H1 | now destruct es1..].
Qed.

Lemma appendValue128_SamePrev (st : EncodingState C * Sink)
    (elem previous : BSONValue) r :
  appendValue128 C st elem previous = Ok r -> SamePrev (fst st) (fst (snd r)).
Proof.
  unfold appendValue128.
  destruct elem; try discriminate.
  - destruct (encodeString C s); intros E; injection E as <-;
      [apply appendEncoded_SamePrev | apply SamePrev_refl].
  - destruct (negb _); [intros E; injection E as <-; apply SamePrev_refl|].
    destruct (encodeBinary C data); intros E; injection E as <-;
      [apply appendEncoded_SamePrev | apply SamePrev_refl].
  - intros E; injection E as <-. apply appendEncoded_SamePrev.
Qed.

(** EncodingState::append keeps the flag in step with the type of the
    previous element. *)
Lemma EncodingState_append_FlagAgrees (st st' : EncodingState C * Sink)
    (elem : BSONElement) :
  FlagAgrees (fst st) -> EncodingState_append C depth st elem = Ok st' ->
  FlagAgrees (fst st').
Proof.
  intros HF. destruct st as [es sink]. unfold EncodingState_append.
  destruct (negb (BSONType_eqb (elemType (_previous C es)) (elemType elem))) eqn:Et.
  - intros E. injection E as <-. apply writeLiteralFromPrevious_FlagAgrees.
  - apply negb_false_iff, BSONType_eqb_eq in Et.
    match goal with
    | |- match ?res with _ => _ end = _ -> _ =>
        assert (Hres : forall r, res = Ok r -> SamePrev es (fst (snd r)));
        [|destruct res as [[compressed [es1 sink1]]| | |]; try discriminate]
    end.
    { intros r.
      destruct (negb (usesDeltaOfDelta (elemType elem))
                && binaryEqualValues elem (_previous C es)).
      - destruct (_storeWith128 C es); intros E; injection E as <-; cbn [snd];
          [exact (append128_SamePrev C (es, sink) 0)
          | exact (append64_SamePrev C (es, sink) 0)].
      - destruct (_storeWith128 C es);
          [exact (appendValue128_SamePrev (es, sink) _ _ r)|].
        destruct (snd elem) eqn:Eelem;
          try (match goal with
               | |- match deltaValue64 ?c ?e ?a ?b with _ => _ end = _ -> _ =>
                   destruct (deltaValue64 c e a b)
                     as [[[possible value] es1]| | |] eqn:Ed; try discriminate;
                   pose proof (deltaValue64_SamePrev _ _ _ _ _ _ Ed) as Hrun;
                   destruct possible; cbv beta iota; intros E; injection E as <-;
                   first [exact (SamePrev_trans _ _ _ _ Hrun
                                   (append64_SamePrev C (es1, sink) _))
                         | exact Hrun]
               end).
        intros E.
        match type of E with
        | match ?x with _ => _ end = _ => destruct x; try discriminate E
        end.
        exact (appendDouble_SamePrev C depth _ _ _ _ E). }
    destruct (Hres _ eq_refl) as [Hp Hs]. cbn [fst snd] in Hp, Hs.
    destruct (negb compressed); intros E; injection E as <-.
    + apply writeLiteralFromPrevious_FlagAgrees.
    + unfold FlagAgrees, _storePrevious in *. cbn [fst snd] in *.
      replace (_storeWith128 C (set_prev C es1 (snd elem))) with (_storeWith128 C es1)
        by now destruct es1.
      replace (_prev C (set_prev C es1 (snd elem))) with (snd elem)
        by now destruct es1.
      rewrite Hs, HF. f_equal. exact Et.
Qed.

Lemma EncodingState_skip_SamePrev (st : EncodingState C * Sink) :
  SamePrev (fst st) (fst (EncodingState_skip C st)).
Proof.
  unfold EncodingState_skip.
  assert (H1 : SamePrev (fst st)
                 (fst (if _storeWith128 C (fst st) then skip128 C st else skip64 C st)))
    by (destruct (_storeWith128 C (fst st));
        [apply skip128_SamePrev | apply skip64_SamePrev]).
  destruct (if _storeWith128 C (fst st) then skip128 C st else skip64 C st)
    as [es1 sink1].
  destruct (negb (bufLen (snd st) =? bufLen sink1)
            && BSONType_eqb (valueType (_prev C es1)) NumberDouble); [|exact H1].
  destruct (scaleAndEncodeDouble C (_lastValueInPrevBlock C es1) 0)
    as [encoded scaleIndex].
  cbn [fst] in *. eapply SamePrev_set; [exact H1 | now destruct es1..].
Qed.

Lemma EncodingState_flush_SamePrev (st : EncodingState C * Sink) :
  SamePrev (fst st) (fst (EncodingState_flush C st)).
Proof.
  unfold EncodingState_flush.
  pose proof (SamePrev_trans _ _ _ _ (flush128_SamePrev C st)
                (flush64_SamePrev C (flush128 C st))) as H.
  destruct (flush64 C (flush128 C st)) as [es1 sink1].
  now destruct (negb (_controlByteOffset C es1 =? kNoSimple8bControl)).
Qed.

Lemma SamePrev_FlagAgrees (es es' : EncodingState C) :
  SamePrev es es' -> FlagAgrees es -> FlagAgrees es'.
Proof. unfold SamePrev, FlagAgrees. intros [-> ->] H. exact H. Qed.

Lemma stateCalls_FlagAgrees (cs : list StateCall) :
  forall st st',
    FlagAgrees (fst st) -> stateCalls C depth st cs = Ok st' -> FlagAgrees (fst st').
Proof.
  induction cs as [|c rest IH]; intros st st' H; cbn [stateCalls].
  - intros E. now injection E as <-.
  - destruct (stateCall C depth st c) as [st1| | |] eqn:Ec; try discriminate.
    apply IH. destruct c; cbn [stateCall] in Ec.
    + eapply EncodingState_append_FlagAgrees; eassumption.
    + injection Ec as <-.
      exact (SamePrev_FlagAgrees _ _ (EncodingState_skip_SamePrev st) H).
    + injection Ec as <-.
      exact (SamePrev_FlagAgrees _ _ (EncodingState_flush_SamePrev st) H).
Qed.

End FlagAppend.

(** X7.  Whatever is appended, skipped or flushed, the flag _storeWith128
    of an EncodingState tells whether the stored previous element is a
    String, a BinData or a Decimal128: it agrees with uses128bit of the
    type of the previous element after every call that returns, when it did
    so before the calls. *)
Theorem storeWith128_agrees (C : Collaborators) (depth : nat)
    (es0 es : EncodingState C) (sink0 sink : Sink) (cs : list StateCall) :
  _storeWith128 C es0 = uses128bit (valueType (_prev C es0)) ->
  stateCalls C depth (es0, sink0) cs = Ok (es, sink) ->
  _storeWith128 C es = uses128bit (valueType (_prev C es)).
Proof.
  intros H0 E.
  exact (stateCalls_FlagAgrees C depth cs (es0, sink0) (es, sink) H0 E).
Qed.

(** An instance: three equal Int32 values and a flush on a new state. *)
Lemma storeWith128_agrees_witness :
  returned (stateCalls Reference.collaborators 0
              (newEncodingState Reference.collaborators false, ([], []))
              Inputs.threeFivesAndFlush) = true
  /\ exists es sink,
       stateCalls Reference.collaborators 0
         (newEncodingState Reference.collaborators false, ([], []))
         Inputs.threeFivesAndFlush = Ok (es, sink)
       /\ _storeWith128 Reference.collaborators es
          = uses128bit (valueType (_prev Reference.collaborators es)).
Proof.
  assert (H : returned (stateCalls Reference.collaborators 0
                          (newEncodingState Reference.collaborators false, ([], []))
                          Inputs.threeFivesAndFlush) = true)
    by (vm_compute; reflexivity).
  split; [exact H|].
  destruct (returned_Ok _ H) as [[es sink] E].
  exists es, sink. split; [exact E|].
  exact (storeWith128_agrees Reference.collaborators 0
           (newEncodingState Reference.collaborators false) es ([], []) sink
           Inputs.threeFivesAndFlush eq_refl E).
Defined.

(** With the flag in agreement, every element that is neither a double nor
    JavaScript code finds its case in the switch the flag selects. *)
Lemma EncodingState_append_total (C : Collaborators) (depth : nat)
    (es : EncodingState C) (sink : Sink) (elem : BSONElement) :
  FlagAgrees es ->
  BSONType_eqb (elemType elem) NumberDouble = false ->
  BSONType_eqb (elemType elem) Code = false ->
  exists st', EncodingState_append C depth (es, sink) elem = Ok st'.
Proof.
  unfold FlagAgrees.
  intros HF Hd Hc. unfold EncodingState_append.
  destruct (negb (BSONType_eqb (elemType (_previous C es)) (elemType elem))) eqn:Et;
    [eexists; reflexivity|].
  apply negb_false_iff, BSONType_eqb_eq in Et.
  match goal with
  | |- exists st', match ?res with _ => _ end = Ok st' =>
      assert (Hres : exists r, res = Ok r)
  end.
  { destruct elem as [name v]. unfold _previous, elemType in *. cbn [snd fst] in *.
    destruct (negb (usesDeltaOfDelta (valueType v))
              && binaryEqualValues (name, v) (EmptyString, _prev C es)) eqn:Ec.
    - destruct (_storeWith128 C es); eexists; reflexivity.
    - rewrite Et in HF.
      destruct (_storeWith128 C es).
      + unfold appendValue128.
        destruct v; try discriminate HF.
        * destruct (encodeString C s); eexists; reflexivity.
        * match goal with
          | |- context [if negb ?c then _ else _] => destruct (negb c)
          end; [eexists; reflexivity|].
          destruct (encodeBinary C data); eexists; reflexivity.
        * eexists; reflexivity.
      + destruct v; try discriminate HF; try discriminate Hd; try discriminate Hc;
          destruct (_prev C es) eqn:Ep; try discriminate Et;
          cbn [deltaValue64];
          try (eexists; reflexivity);
          try (vm_compute in Ec; discriminate Ec).
        destruct (negb (objectIdDeltaPossible oid oid0)); eexists; reflexivity. }
  destruct Hres as [[compressed [es1 sink1]] ->].
  destruct (negb compressed); eexists; reflexivity.
Qed.

(** X8.  EncodingState::append returns normally for every element that is
    neither a double nor JavaScript code, on a state whose flag
    _storeWith128 agrees with the type of its previous element: neither of
    the two MONGO_UNREACHABLE defaults of its switches is reached. *)
Theorem EncodingState_append_returns (C : Collaborators) (depth : nat)
    (es : EncodingState C) (sink : Sink) (elem : BSONElement) :
  _storeWith128 C es = uses128bit (valueType (_prev C es)) ->
  BSONType_eqb (elemType elem) NumberDouble = false ->
  BSONType_eqb (elemType elem) Code = false ->
  exists st', EncodingState_append C depth (es, sink) elem = Ok st'.
Proof. exact (EncodingState_append_total C depth es sink elem). Qed.

(** An instance: the Int32 5 appended to a new state. *)
Lemma EncodingState_append_returns_witness :
  exists st',
    EncodingState_append Reference.collaborators 0
      (newEncodingState Reference.collaborators false, ([], [])) Inputs.x5 = Ok st'.
Proof.
  apply (EncodingState_append_returns Reference.collaborators 0
           (newEncodingState Reference.collaborators false) ([], []) Inputs.x5);
    reflexivity.
Defined.

(* ================================================================== *)
(** ** JavaScript code *)
(* ================================================================== *)

(** Neither switch of EncodingState::append has a case for Code: a Code
    value that is not binary-equal to a previous Code value ends in
    MONGO_UNREACHABLE, whatever the flag _storeWith128 is. *)
Lemma EncodingState_append_code (C : Collaborators) (depth : nat)
    (es : EncodingState C) (sink : Sink) (elem : BSONElement) :
  valueType (_prev C es) = Code ->
  elemType elem = Code ->
  binaryEqualValues elem (_previous C es) = false ->
  EncodingState_append C depth (es, sink) elem = Fatal.
Proof.
  intros Hp He Hb. unfold EncodingState_append.
  unfold _previous, elemType in *. cbn [snd] in *.
  rewrite Hp, He, Hb. cbn [BSONType_eqb typeCode Z.eqb Pos.eqb negb usesDeltaOfDelta andb].
  destruct elem as [name v]. cbn [snd] in *.
  destruct v; try discriminate He.
  destruct (_prev C es); try discriminate Hp.
  now destruct (_storeWith128 C es).
Qed.

(** X9.  Two JavaScript code values appended one after the other to a new
    builder, the second not binary-equal to the first: the second append
    does not return, it reaches MONGO_UNREACHABLE in
    EncodingState::append. *)
Theorem append_code_twice (C : Collaborators) (depth : nat) (first second : BSONElement) :
  elemType first = Code ->
  elemType second = Code ->
  binaryEqualValues second first = false ->
  calls C depth (newBuilder C) [CallAppend first; CallAppend second] = Fatal.
Proof.
  intros H1 H2 Hb.
  assert (Hscalar : forall (b : BSONColumnBuilder C) (elem : BSONElement),
             elemType elem = Code -> _mode C b = kRegular ->
             append C depth b elem
             = match EncodingState_append C depth (mainState C b) elem with
               | Ok st => Ok (incrementElementCount C (set_state C b st))
               | Throw _ => Fatal
               | Fatal => Fatal
               | OutOfFuel => OutOfFuel
               end).
  { intros b [name v] He Hm. unfold append, elemType in *. cbn [snd] in *.
    rewrite He, Hm.
    destruct v; try discriminate He. reflexivity. }
  cbn [calls call].
  rewrite (Hscalar (newBuilder C) first H1 eq_refl).
  assert (Hfirst : exists st,
             EncodingState_append C depth (mainState C (newBuilder C)) first = Ok st
             /\ _prev C (fst st) = snd first).
  { unfold EncodingState_append, mainState, newBuilder.
    cbn [_state _bufBuilder]. unfold _previous, elemType in *.
    cbn [snd _prev newEncodingState valueType].
    rewrite H1. cbn [BSONType_eqb typeCode Z.eqb negb].
    eexists. split; [reflexivity|].
    rewrite (proj1 (writeLiteralFromPrevious_members C _)).
    rewrite (proj1 (flush64_members C _)), (proj1 (flush128_members C _)).
    reflexivity. }
  destruct Hfirst as [st [-> Hprev]].
  rewrite (Hscalar (incrementElementCount C (set_state C (newBuilder C) st)) second H2 eq_refl).
  unfold mainState. cbn [_state _bufBuilder set_state incrementElementCount].
  rewrite EncodingState_append_code; [reflexivity | | exact H2 | ].
  - rewrite Hprev. exact H1.
  - unfold _previous. rewrite Hprev.
    unfold binaryEqualValues, elemType in *. cbn [snd] in *. exact Hb.
Qed.

(** An instance: the code values with the bytes [1] and [2]. *)
Lemma append_code_twice_witness :
  calls Reference.collaborators 0 (newBuilder Reference.collaborators)
        [CallAppend ("f"%string, VCode [1]); CallAppend ("f"%string, VCode [2])]
  = Fatal.
Proof.
  apply (append_code_twice Reference.collaborators 0
           ("f"%string, VCode [1]) ("f"%string, VCode [2])); reflexivity.
Defined.

(* ================================================================== *)
(** ** The frame of the interleaved section *)
(* ================================================================== *)

Section Interleaved.

Variable C : Collaborators.
Variable depth : nat.

(** The replay of the buffered objects writes to the buffers of the states
    only. *)
Lemma replayBuffered_main (objs : list BSONObj) :
  forall b b',
    replayBuffered C depth b objs = Ok b' ->
    _bufBuilder C b' = _bufBuilder C b.
Proof.
  induction objs as [|obj rest IH]; intros b b'; cbn [replayBuffered].
  - intros E. now injection E as <-.
  - destruct (appendSubElementsWith C depth _ b obj) as [b1| | |] eqn:E1;
      try discriminate.
    intros E. rewrite (IH _ _ E).
    destruct (appendSubElementsWith_cases C depth _ _ _ _ E1)
      as [[flat Hf] | [flat [states [buffers ->]]]]; [discriminate | reflexivity].
Qed.

Lemma finishDetermineSubObjReference_main (b b' : BSONColumnBuilder C) :
  _finishDetermineSubObjReference C depth b = Ok b' ->
  _bufBuilder C b'
  = _bufBuilder C b ++ [kInterleavedStartControlByte C] ++ objdata (_referenceSubObj C b).
Proof.
  unfold _finishDetermineSubObjReference.
  set (b1 := set_bufBuilder C b _).
  destruct (_bufferedObjElements C b1) as [|front rest]; [discriminate|].
  destruct (traverseLockStep (_referenceSubObj C b1) front) as [calls res].
  destruct (setupStates C depth calls _ _) as [[states buffers]| | |]; try discriminate.
  destruct (negb res); [discriminate|].
  destruct (replayBuffered C depth _ rest) as [b3| | |] eqn:E3; try discriminate.
  intros E. injection E as <-.
  apply replayBuffered_main in E3. subst b1.
  cbn [_bufBuilder set_bufferedObjElements set_mode set_subobj set_bufBuilder] in *.
  exact E3.
Qed.

Lemma flushSubObjStates_main (b b' : BSONColumnBuilder C) :
  flushSubObjStates C b = Ok b' ->
  exists blocks, _bufBuilder C b' = _bufBuilder C b ++ blocks ++ [typeCode EOO]
  /\ _referenceSubObj C b' = _referenceSubObj C b.
Proof.
  unfold flushSubObjStates.
  destruct (interleaveLoop C _ _ _ _) as [out| | |] eqn:E1; try discriminate.
  intros E. injection E as <-.
  destruct (interleaveLoop_grows _ _ _ _ _ _ E1) as [more ->].
  exists more. cbn. now rewrite <- app_assoc.
Qed.

End Interleaved.

(** X10.  When _flushSubObjMode returns, the main buffer has grown by: in
    mode kSubObjDeterminingReference the interleaved-start control byte and
    the bytes of the reference object; then, in every mode, what the
    interleaving loop wrote; then EOO.  The builder is back in regular mode without states, state
    buffers or buffered objects to determine the reference from, and its
    main encoding state, element count and reference object are as they
    were. *)
Theorem flushSubObjMode_frame (C : Collaborators) (depth : nat)
    (b b' : BSONColumnBuilder C) :
  _flushSubObjMode C depth b = Ok b' ->
  (exists blocks,
      _bufBuilder C b'
      = _bufBuilder C b
        ++ match _mode C b with
           | kSubObjDeterminingReference =>
               [kInterleavedStartControlByte C] ++ objdata (_referenceSubObj C b)
           | _ => []
           end
        ++ blocks ++ [typeCode EOO])
  /\ _mode C b' = kRegular
  /\ _subobjStates C b' = []
  /\ _subobjBuffers C b' = []
  /\ (_mode C b = kSubObjDeterminingReference -> _bufferedObjElements C b' = [])
  /\ _state C b' = _state C b
  /\ _elementCount C b' = _elementCount C b
  /\ _referenceSubObj C b' = _referenceSubObj C b.
Proof.
  intros E.
  destruct (flushSubObjMode_kept C depth _ _ E) as [[Hs [Hc _]] [Hm Hb]].
  destruct (flushSubObjMode_states C depth _ _ E) as [Hst Hbu].
  assert (Hmain : (exists blocks,
      _bufBuilder C b'
      = _bufBuilder C b
        ++ match _mode C b with
           | kSubObjDeterminingReference =>
               [kInterleavedStartControlByte C] ++ objdata (_referenceSubObj C b)
           | _ => []
           end
        ++ blocks ++ [typeCode EOO])
      /\ _referenceSubObj C b' = _referenceSubObj C b).
  { revert E. unfold _flushSubObjMode.
    destruct (_mode C b) eqn:Em; cbn [Mode_eqb].
    - intros E. destruct (flushSubObjStates_main C _ _ E) as [blocks [Hbuf Href]].
      split; [|exact Href]. exists blocks. exact Hbuf.
    - destruct (_finishDetermineSubObjReference C depth b) as [b1| | |] eqn:E1;
        try discriminate.
      intros E. destruct (flushSubObjStates_main C _ _ E) as [blocks [Hbuf Href]].
      rewrite (finishDetermineSubObjReference_main C depth _ _ E1) in Hbuf.
      rewrite (finishDetermineSubObjReference_reference C depth _ _ E1) in Href.
      split; [|exact Href].
      exists blocks. rewrite Hbuf. now rewrite <- !app_assoc.
    - intros E. destruct (flushSubObjStates_main C _ _ E) as [blocks [Hbuf Href]].
      split; [|exact Href]. exists blocks. exact Hbuf. }
  destruct Hmain as [Hbuf Href].
  repeat split; assumption.
Qed.

(** An instance: the builder that holds one buffered object {a: 1, b: 1}. *)
Lemma flushSubObjMode_frame_witness :
  returned (_flushSubObjMode Reference.collaborators 0 Inputs.determining) = true
  /\ exists b',
       _flushSubObjMode Reference.collaborators 0 Inputs.determining = Ok b'
       /\ _mode Reference.collaborators b' = kRegular.
Proof.
  assert (H : returned (_flushSubObjMode Reference.collaborators 0 Inputs.determining)
              = true) by (vm_compute; reflexivity).
  split; [exact H|].
  destruct (returned_Ok _ H) as [b' E].
  exists b'. split; [exact E|].
  exact (proj1 (proj2 (flushSubObjMode_frame Reference.collaborators 0
                         Inputs.determining b' E))).
Defined.

(* ================================================================== *)
(** ** The scale index of a double *)
(* ================================================================== *)

(** The loop of scaleAndEncodeDouble, started at [idx] with the indices up
    to kMemoryAsInteger left to try. *)
Lemma scaleAndEncodeFrom_lowest (C : Collaborators) (value : Z) (tries : nat) :
  forall idx,
    idx + Z.of_nat tries = kMemoryAsInteger ->
    idx <= snd (scaleAndEncodeFrom C tries value idx) <= kMemoryAsInteger
    /\ encodeDouble C value (snd (scaleAndEncodeFrom C tries value idx))
       = Some (fst (scaleAndEncodeFrom C tries value idx))
    /\ forall i, idx <= i < snd (scaleAndEncodeFrom C tries value idx) ->
                 encodeDouble C value i = None.
Proof.
  induction tries as [|k IH]; intros idx Hidx.
  - assert (idx = kMemoryAsInteger) as -> by lia.
    assert (E : encodeDouble C value kMemoryAsInteger = Some (wrapS 64 value))
      by (unfold encodeDouble; now rewrite Z.eqb_refl).
    cbn [scaleAndEncodeFrom]. rewrite E. cbn [fst snd].
    split; [lia|]. split; [exact E|]. intros i Hi. lia.
  - cbn [scaleAndEncodeFrom].
    destruct (encodeDouble C value idx) as [encoded|] eqn:E.
    + cbn [fst snd]. split; [lia|]. split; [exact E|]. intros i Hi. lia.
    + destruct (IH (idx + 1)) as [Hr [He Hl]]; [lia|].
      split; [lia|]. split; [exact He|].
      intros i Hi. destruct (Z.eq_dec i idx) as [->|Hne]; [exact E|].
      apply Hl. lia.
Qed.

(** X11.  scaleAndEncodeDouble(value, minScaleIndex), for a minScaleIndex
    of the scale table: the scale index it returns is the lowest one from
    minScaleIndex on at which encodeDouble encodes the value, and the
    encoded value it returns is the one encodeDouble gives at that index. *)
Theorem scaleAndEncodeDouble_lowest (C : Collaborators) (value minScaleIndex : Z) :
  0 <= minScaleIndex <= kMemoryAsInteger ->
  minScaleIndex <= snd (scaleAndEncodeDouble C value minScaleIndex) <= kMemoryAsInteger
  /\ encodeDouble C value (snd (scaleAndEncodeDouble C value minScaleIndex))
     = Some (fst (scaleAndEncodeDouble C value minScaleIndex))
  /\ forall i, minScaleIndex <= i < snd (scaleAndEncodeDouble C value minScaleIndex) ->
               encodeDouble C value i = None.
Proof.
  intros Hmin. unfold scaleAndEncodeDouble.
  apply scaleAndEncodeFrom_lowest. lia.
Qed.

(** An instance: the double 1.0 from the scale index 0. *)
Lemma scaleAndEncodeDouble_lowest_witness :
  0 <= 0 <= kMemoryAsInteger
  /\ encodeDouble Reference.collaborators 0x3FF0000000000000
       (snd (scaleAndEncodeDouble Reference.collaborators 0x3FF0000000000000 0))
     = Some (fst (scaleAndEncodeDouble Reference.collaborators 0x3FF0000000000000 0)).
Proof.
  assert (H : 0 <= 0 <= kMemoryAsInteger) by (unfold kMemoryAsInteger; lia).
  split; [exact H|].
  exact (proj1 (proj2 (scaleAndEncodeDouble_lowest Reference.collaborators
                         0x3FF0000000000000 0 H))).
Defined.

(* ================================================================== *)
(** ** A skip buffered behind a reference with an empty sub-object *)
(* ================================================================== *)

(** The empty object skip() buffers is not compatible with a reference
    that has an empty sub-object among its fields: _traverseLockStep returns
    false at that field, the iterator over the object being at its end. *)
Lemma lockStepLoop_at_end (descend : BSONValue -> BSONObj -> Calls * BSONObj * bool)
    (field : string) (refs : BSONObj) :
  In (field, VObject []) refs ->
  forall acc, snd (lockStepLoop descend refs [] acc) = false.
Proof.
  induction refs as [|[name v] refs' IH]; intros Hin acc; [contradiction|].
  cbn [lockStepLoop].
  destruct Hin as [E | Hin].
  - injection E as -> ->. reflexivity.
  - destruct v; try (apply IH; exact Hin).
    match goal with
    | |- context [isEmpty ?fields] => destruct fields as [|f fs]
    end; [reflexivity|].
    cbn [isEmpty]. apply IH. exact Hin.
Qed.

Lemma traverseLockStep_empty_object (field : string) (reference : BSONObj) :
  In (field, VObject []) reference ->
  snd (traverseLockStep reference []) = false.
Proof.
  intros Hin. unfold traverseLockStep, _traverseLockStep. cbn [lockStepValue].
  pose proof (lockStepLoop_at_end lockStepValue field reference Hin []) as H.
  destruct (lockStepLoop lockStepValue reference [] []) as [[calls it] flag].
  cbn [snd] in *. now rewrite H.
Qed.

Section SkipBuffered.

Variable C : Collaborators.
Variable depth : nat.

Lemma replayBuffered_incompatible (objs : list BSONObj) :
  forall b obj,
    In obj objs ->
    snd (traverseLockStep (_referenceSubObj C b) obj) = false ->
    forall b', replayBuffered C depth b objs <> Ok b'.
Proof.
  induction objs as [|o rest IH]; intros b obj Hin Hinc b'; [contradiction|].
  cbn [replayBuffered].
  destruct (appendSubElementsWith C depth (fun _ _ => Fatal) b o) as [b1| | |] eqn:E1;
    try discriminate.
  destruct (appendSubElementsWith_cases C depth _ _ _ _ E1)
    as [[flat Hf] | [flat [states [buffers Hb1]]]]; [discriminate|].
  destruct Hin as [-> | Hin].
  - exfalso. revert E1. unfold appendSubElementsWith.
    destruct (traverseLockStep (_referenceSubObj C b) obj) as [calls compatible].
    cbn [snd] in Hinc. subst compatible.
    destruct (flattenCalls calls []) as [flat' thrown].
    destruct thrown; discriminate.
  - apply (IH b1 obj Hin). subst b1. exact Hinc.
Qed.

Lemma finishDetermineSubObjReference_incompatible (b : BSONColumnBuilder C)
    (front obj : BSONObj) (rest : list BSONObj) :
  _bufferedObjElements C b = front :: rest ->
  In obj rest ->
  snd (traverseLockStep (_referenceSubObj C b) obj) = false ->
  forall b', _finishDetermineSubObjReference C depth b <> Ok b'.
Proof.
  intros Hbuf Hin Hinc b'. unfold _finishDetermineSubObjReference.
  cbn [_bufferedObjElements _referenceSubObj _subobjStates _subobjBuffers set_bufBuilder].
  rewrite Hbuf.
  destruct (traverseLockStep (_referenceSubObj C b) front) as [calls res].
  destruct (setupStates C depth calls _ _) as [[states buffers]| | |]; try discriminate.
  destruct (negb res); [discriminate|].
  match goal with
  | |- context [replayBuffered C depth ?b2 rest] =>
      pose proof (replayBuffered_incompatible rest b2 obj Hin Hinc) as Hrep;
      destruct (replayBuffered C depth b2 rest) as [b3| | |]
  end; try discriminate.
  now contradiction (Hrep b3).
Qed.

End SkipBuffered.

(** X12.  An object with an empty sub-object among its fields is appended
    to a new builder and a skip follows: finalize() has no defined result,
    no column is returned.  The skip is buffered as an empty object, which
    the lock-step traversal finds incompatible with the reference; when
    _finishDetermineSubObjReference replays it, _appendSubElements restarts
    the determination and pushes to _bufferedObjElements while the replay
    iterates over it, which is undefined behaviour.  (When the object has a
    MinKey or MaxKey leaf the append throws and there is no column
    either.) *)
Theorem column_skip_after_empty_subobject (C : Collaborators) (depth : nat)
    (name field : string) (obj : BSONObj) :
  In (field, VObject []) obj ->
  column C depth [CallAppend (name, VObject obj); CallSkip] = None.
Proof.
  intros Hin. unfold column. cbn [calls call].
  destruct obj as [|f fs]; [contradiction|].
  unfold append. cbn [elemType snd valueType isMinOrMaxKey BSONType_eqb typeCode
                      Z.eqb Pos.eqb orb].
  change (_mode C (newBuilder C)) with kRegular. cbv iota.
  unfold _startDetermineSubObjReference.
  destruct (EncodingState_flush C (mainState C (newBuilder C))) as [es1 sink1].
  match goal with
  | |- context [if ?thrown then Throw _ else _] => destruct thrown
  end; [reflexivity|].
  cbn [okCount].
  match goal with
  | |- context [finalize C depth ?b2] =>
      assert (Hfin : forall r, finalize C depth b2 <> Ok r);
      [| destruct (finalize C depth b2) as [[b3 bytes]| | |];
         [now contradiction (Hfin (b3, bytes)) | reflexivity | reflexivity | reflexivity]]
  end.
  intros r. unfold finalize, skip.
  cbn [_mode incrementElementCount set_mode set_bufferedObjElements set_referenceSubObj
       set_state Mode_eqb].
  unfold _flushSubObjMode.
  cbn [_mode incrementElementCount set_mode set_bufferedObjElements set_referenceSubObj
       set_state Mode_eqb].
  match goal with
  | |- context [_finishDetermineSubObjReference C depth ?b2] =>
      pose proof (finishDetermineSubObjReference_incompatible C depth b2
                    (f :: fs) [] [[]] eq_refl (or_introl eq_refl)
                    (traverseLockStep_empty_object field (f :: fs) Hin)) as Hfd;
      destruct (_finishDetermineSubObjReference C depth b2) as [b3| | |]
  end; try discriminate.
  now contradiction (Hfd b3).
Qed.

(** An instance: the object {a: {}, b: 1} of the inputs. *)
Lemma column_skip_after_empty_subobject_witness :
  column Reference.collaborators 0
         [CallAppend (EmptyString,
                      VObject [("a"%string, VObject []); ("b"%string, VInt 1)]);
          CallSkip] = None.
Proof.
  apply (column_skip_after_empty_subobject Reference.collaborators 0
           EmptyString "a"%string).
  left. reflexivity.
Defined.

(* ================================================================== *)
(** ** The flag of the main state, and scalars in regular mode *)
(* ================================================================== *)

Section MainFlag.

Variable C : Collaborators.
Variable depth : nat.

Lemma startDetermineSubObjReference_FlagAgrees (b b' : BSONColumnBuilder C)
    (obj : BSONObj) :
  _startDetermineSubObjReference C b obj = Ok b' -> FlagAgrees (_state C b').
Proof.
  unfold _startDetermineSubObjReference.
  destruct (EncodingState_flush C (mainState C b)) as [es1 sink1].
  destruct (existsb _ (_traverse obj)); [discriminate|].
  intros E. injection E as <-. reflexivity.
Qed.

Lemma flushSubObjMode_FlagAgrees (b b' : BSONColumnBuilder C) :
  FlagAgrees (_state C b) -> _flushSubObjMode C depth b = Ok b' ->
  FlagAgrees (_state C b').
Proof.
  intros HF E. destruct (flushSubObjMode_kept C depth _ _ E) as [[Hs _] _].
  now rewrite Hs.
Qed.

Lemma appendSubElements_FlagAgrees (b b' : BSONColumnBuilder C) (obj : BSONObj) :
  FlagAgrees (_state C b) -> _appendSubElements C depth b obj = Ok b' ->
  FlagAgrees (_state C b').
Proof.
  intros HF E. unfold _appendSubElements in E.
  apply appendSubElementsWith_cases in E.
  destruct E as [[flat E] | [flat [states [buffers ->]]]]; [|exact HF].
  destruct (_flushSubObjMode C depth _) as [b2| | |]; try discriminate.
  exact (startDetermineSubObjReference_FlagAgrees _ _ _ E).
Qed.

Lemma appendDetermining_FlagAgrees (b b' : BSONColumnBuilder C) (obj : BSONObj) :
  FlagAgrees (_state C b) -> appendDetermining C depth b obj = Ok b' ->
  FlagAgrees (_state C b').
Proof.
  intros HF. unfold appendDetermining.
  destruct (traverseLockStep (_referenceSubObj C b) obj) as [calls compatible].
  destruct (existsb _ calls); [discriminate|].
  destruct (if compatible then _ else _) as [reference|].
  - destruct (_ >=? _).
    + intros E. injection E as <-. exact HF.
    + destruct (_finishDetermineSubObjReference C depth _) as [b2| | |] eqn:E2;
        try discriminate.
      destruct (finishDetermineSubObjReference_kept C depth _ _ E2) as [[Hs _] _].
      destruct (_appendSubElements C depth b2 obj) as [b3| | |] eqn:E3;
        cbn [okCount]; try discriminate.
      intros E. injection E as <-.
      apply (appendSubElements_FlagAgrees b2 b3 obj); [|exact E3].
      rewrite Hs. exact HF.
  - destruct (_flushSubObjMode C depth b) as [b1| | |] eqn:E1; try discriminate.
    intros E. injection E as <-.
    exact (flushSubObjMode_FlagAgrees _ _ HF E1).
Qed.

Lemma appendScalar_FlagAgrees (b b' : BSONColumnBuilder C) (elem : BSONElement) :
  FlagAgrees (_state C b) ->
  (let flushed :=
     if negb (Mode_eqb (_mode C b) kRegular) then _flushSubObjMode C depth b else Ok b in
   match flushed with
   | Ok b1 =>
       match EncodingState_append C depth (mainState C b1) elem with
       | Ok st => Ok (incrementElementCount C (set_state C b1 st))
       | Throw _ => Fatal
       | Fatal => Fatal
       | OutOfFuel => OutOfFuel
       end
   | other => other
   end) = Ok b' ->
  FlagAgrees (_state C b').
Proof.
  intros HF. cbv zeta.
  assert (Hflushed : forall b1,
             (if negb (Mode_eqb (_mode C b) kRegular)
              then _flushSubObjMode C depth b else Ok b) = Ok b1 ->
             FlagAgrees (_state C b1)).
  { intros b1. destruct (negb _).
    - apply flushSubObjMode_FlagAgrees. exact HF.
    - intros E. now injection E as <-. }
  destruct (if negb _ then _ else _) as [b1| | |]; try discriminate.
  specialize (Hflushed b1 eq_refl).
  destruct (EncodingState_append C depth (mainState C b1) elem) as [st| | |] eqn:Ea;
    try discriminate.
  intros E. injection E as <-.
  exact (EncodingState_append_FlagAgrees C depth (mainState C b1) st elem Hflushed Ea).
Qed.

Lemma append_FlagAgrees (b b' : BSONColumnBuilder C) (elem : BSONElement) :
  FlagAgrees (_state C b) -> append C depth b elem = Ok b' ->
  FlagAgrees (_state C b').
Proof.
  intros HF. unfold append.
  destruct (isMinOrMaxKey (elemType elem)); [discriminate|].
  destruct (snd elem) as [| | |fields| | | | | | | | | | | | | | | | | |];
    try apply (appendScalar_FlagAgrees b b' elem HF).
  destruct fields as [|f fs]; [apply (appendScalar_FlagAgrees b b' elem HF)|].
  destruct (_mode C b).
  - destruct (_startDetermineSubObjReference C b (f :: fs)) as [b1| | |] eqn:E1;
      cbn [okCount]; try discriminate.
    intros E. injection E as <-.
    exact (startDetermineSubObjReference_FlagAgrees _ _ _ E1).
  - now apply appendDetermining_FlagAgrees.
  - destruct (_appendSubElements C depth b (f :: fs)) as [b1| | |] eqn:E1;
      cbn [okCount]; try discriminate.
    intros E. injection E as <-.
    exact (appendSubElements_FlagAgrees _ _ _ HF E1).
Qed.

Lemma skip_FlagAgrees (b : BSONColumnBuilder C) :
  FlagAgrees (_state C b) -> FlagAgrees (_state C (skip C b)).
Proof.
  intros HF. unfold skip. cbn [_mode incrementElementCount].
  destruct (_mode C b); [|exact HF|exact HF].
  change (mainState C (incrementElementCount C b)) with (mainState C b).
  exact (SamePrev_FlagAgrees C _ _ (EncodingState_skip_SamePrev C (mainState C b)) HF).
Qed.

Lemma calls_FlagAgrees (cs : list Call) :
  forall b b',
    FlagAgrees (_state C b) -> calls C depth b cs = Ok b' -> FlagAgrees (_state C b').
Proof.
  induction cs as [|c rest IH]; intros b b' HF; cbn [calls].
  - intros E. now injection E as <-.
  - destruct (call C depth b c) as [b1| | |] eqn:Ec; try discriminate.
    apply IH. destruct c; cbn [call] in Ec.
    + exact (append_FlagAgrees _ _ _ HF Ec).
    + injection Ec as <-. now apply skip_FlagAgrees.
Qed.

End MainFlag.

(** X13.  After calls that returned on a new builder have left it in
    regular mode, append returns for every element whose type is not
    MinKey, MaxKey, a double or JavaScript code and that is not a non-empty
    object: no invariant fails and no switch of EncodingState::append ends
    in MONGO_UNREACHABLE. *)
Theorem append_scalar_returns (C : Collaborators) (depth : nat) (cs : list Call)
    (b : BSONColumnBuilder C) (elem : BSONElement) :
  calls C depth (newBuilder C) cs = Ok b ->
  _mode C b = kRegular ->
  isMinOrMaxKey (elemType elem) = false ->
  BSONType_eqb (elemType elem) NumberDouble = false ->
  BSONType_eqb (elemType elem) Code = false ->
  (forall f fs, snd elem <> VObject (f :: fs)) ->
  exists b', append C depth b elem = Ok b'.
Proof.
  intros Ecs Hm Hk Hd Hc Ho.
  assert (HF : FlagAgrees (_state C b))
    by (apply (calls_FlagAgrees C depth cs (newBuilder C) b); [reflexivity | exact Ecs]).
  assert (Hscalar :
            append C depth b elem
            = match EncodingState_append C depth (mainState C b) elem with
              | Ok st => Ok (incrementElementCount C (set_state C b st))
              | Throw _ => Fatal
              | Fatal => Fatal
              | OutOfFuel => OutOfFuel
              end).
  { unfold append. rewrite Hk, Hm. cbn [Mode_eqb negb].
    destruct (snd elem) as [| | |fields| | | | | | | | | | | | | | | | | |] eqn:Ev;
      try reflexivity.
    destruct fields as [|f fs]; [reflexivity|].
    now contradiction (Ho f fs). }
  rewrite Hscalar.
  assert (E : exists st', EncodingState_append C depth (mainState C b) elem = Ok st')
    by exact (EncodingState_append_total C depth (_state C b) (_bufBuilder C b, [])
                elem HF Hd Hc).
  destruct E as [st' ->]. eexists. reflexivity.
Qed.

(** An instance: after the calls of Inputs.mixedCalls, which go through
    the sub-object modes and end in regular mode, the Int32 5 is
    appended. *)
Lemma append_scalar_returns_witness :
  returned (calls Reference.collaborators 0 (newBuilder Reference.collaborators)
                  Inputs.mixedCalls) = true
  /\ exists b,
       calls Reference.collaborators 0 (newBuilder Reference.collaborators)
             Inputs.mixedCalls = Ok b
       /\ exists b', append Reference.collaborators 0 b Inputs.x5 = Ok b'.
Proof.
  assert (H : returned (calls Reference.collaborators 0
                              (newBuilder Reference.collaborators) Inputs.mixedCalls)
              = true) by (vm_compute; reflexivity).
  assert (Hm : onOk (_mode Reference.collaborators)
                    (calls Reference.collaborators 0
                           (newBuilder Reference.collaborators) Inputs.mixedCalls)
               = Some kRegular) by (vm_compute; reflexivity).
  split; [exact H|].
  destruct (returned_Ok _ H) as [b E].
  exists b. split; [exact E|].
  rewrite E in Hm. cbn [onOk] in Hm. injection Hm as Hm.
  apply (append_scalar_returns Reference.collaborators 0 Inputs.mixedCalls b
           Inputs.x5 E Hm); [reflexivity | reflexivity | reflexivity |].
  intros f fs. discriminate.
Defined.

(* ================================================================== *)
(** ** The element count when append throws *)
(* ================================================================== *)

Section Thrown.

Variable C : Collaborators.
Variable depth : nat.

Lemma startDetermineSubObjReference_thrown (b b' : BSONColumnBuilder C) (obj : BSONObj) :
  _startDetermineSubObjReference C b obj = Throw b' ->
  _elementCount C b' = _elementCount C b.
Proof.
  unfold _startDetermineSubObjReference.
  destruct (EncodingState_flush C (mainState C b)) as [es1 sink1].
  destruct (existsb _ (_traverse obj)); [|discriminate].
  intros E. injection E as <-. reflexivity.
Qed.

Lemma appendSubElementsWith_thrown
    (restart : BSONColumnBuilder C -> BSONObj -> Outcome (BSONColumnBuilder C))
    (b b' : BSONColumnBuilder C) (obj : BSONObj) :
  appendSubElementsWith C depth restart b obj = Throw b' ->
  (exists flat, b' = set_flattenedAppendedObj C b flat)
  \/ (exists flat, restart (set_flattenedAppendedObj C b flat) obj = Throw b').
Proof.
  unfold appendSubElementsWith.
  destruct (traverseLockStep (_referenceSubObj C b) obj) as [calls compatible].
  destruct (flattenCalls calls []) as [flat thrown].
  destruct thrown.
  - intros E. injection E as <-. left. now exists flat.
  - destruct (negb compatible).
    + intros E. right. now exists flat.
    + destruct (negb _); [discriminate|].
      destruct (appendToStates _ _ _ _ _) as [[states buffers]| | |]; discriminate.
Qed.

Lemma replayBuffered_thrown (objs : list BSONObj) :
  forall b b',
    replayBuffered C depth b objs = Throw b' ->
    _elementCount C b' = _elementCount C b.
Proof.
  induction objs as [|obj rest IH]; intros b b'; cbn [replayBuffered]; [discriminate|].
  destruct (appendSubElementsWith C depth _ b obj) as [b1|b1| |] eqn:E1;
    try discriminate.
  - intros E. rewrite (IH _ _ E).
    destruct (appendSubElementsWith_cases C depth _ _ _ _ E1)
      as [[flat Hf] | [flat [states [buffers ->]]]]; [discriminate | reflexivity].
  - intros E. injection E as <-.
    destruct (appendSubElementsWith_thrown _ _ _ _ E1) as [[flat ->] | [flat Hf]];
      [reflexivity | discriminate].
Qed.

Lemma finishDetermineSubObjReference_thrown (b b' : BSONColumnBuilder C) :
  _finishDetermineSubObjReference C depth b = Throw b' ->
  _elementCount C b' = _elementCount C b.
Proof.
  unfold _finishDetermineSubObjReference.
  set (b1 := set_bufBuilder C b _).
  destruct (_bufferedObjElements C b1) as [|front rest]; [discriminate|].
  destruct (traverseLockStep (_referenceSubObj C b1) front) as [calls res].
  destruct (setupStates C depth calls _ _) as [[states buffers]| | |]; try discriminate.
  destruct (negb res); [discriminate|].
  destruct (replayBuffered C depth _ rest) as [b3|b3| |] eqn:E3; try discriminate.
  intros E. injection E as <-.
  now rewrite (replayBuffered_thrown _ _ _ E3).
Qed.

Lemma flushSubObjStates_not_thrown (b b' : BSONColumnBuilder C) :
  flushSubObjStates C b <> Throw b'.
Proof.
  unfold flushSubObjStates.
  destruct (interleaveLoop C _ _ _ _); discriminate.
Qed.

Lemma flushSubObjMode_thrown (b b' : BSONColumnBuilder C) :
  _flushSubObjMode C depth b = Throw b' ->
  _elementCount C b' = _elementCount C b.
Proof.
  unfold _flushSubObjMode.
  destruct (Mode_eqb (_mode C b) kSubObjDeterminingReference).
  - destruct (_finishDetermineSubObjReference C depth b) as [b1|b1| |] eqn:E1;
      try discriminate.
    + intros E. now contradiction (flushSubObjStates_not_thrown b1 b').
    + intros E. injection E as <-. exact (finishDetermineSubObjReference_thrown _ _ E1).
  - intros E. now contradiction (flushSubObjStates_not_thrown b b').
Qed.

Lemma appendSubElements_thrown (b b' : BSONColumnBuilder C) (obj : BSONObj) :
  _appendSubElements C depth b obj = Throw b' ->
  _elementCount C b' = _elementCount C b.
Proof.
  intros E. unfold _appendSubElements in E.
  apply appendSubElementsWith_thrown in E.
  destruct E as [[flat ->] | [flat E]]; [reflexivity|].
  destruct (_flushSubObjMode C depth _) as [b2|b2| |] eqn:E2; try discriminate.
  - rewrite (startDetermineSubObjReference_thrown _ _ _ E).
    now destruct (flushSubObjMode_kept C depth _ _ E2) as [[_ [-> _]] _].
  - injection E as <-. now rewrite (flushSubObjMode_thrown _ _ E2).
Qed.

Lemma appendDetermining_thrown (b b' : BSONColumnBuilder C) (obj : BSONObj) :
  appendDetermining C depth b obj = Throw b' ->
  _elementCount C b' = _elementCount C b.
Proof.
  unfold appendDetermining.
  destruct (traverseLockStep (_referenceSubObj C b) obj) as [calls compatible].
  destruct (existsb _ calls); [intros E; now injection E as <-|].
  destruct (if compatible then _ else _) as [reference|].
  - destruct (_ >=? _); [discriminate|].
    destruct (_finishDetermineSubObjReference C depth _) as [b2|b2| |] eqn:E2;
      try discriminate.
    + destruct (finishDetermineSubObjReference_kept C depth _ _ E2) as [[_ [Hc _]] _].
      destruct (_appendSubElements C depth b2 obj) as [b3|b3| |] eqn:E3;
        cbn [okCount]; try discriminate.
      intros E. injection E as <-.
      rewrite (appendSubElements_thrown _ _ _ E3). exact Hc.
    + intros E. injection E as <-.
      exact (finishDetermineSubObjReference_thrown _ _ E2).
  - destruct (_flushSubObjMode C depth b) as [b1|b1| |] eqn:E1; try discriminate.
    intros E. injection E as <-. exact (flushSubObjMode_thrown _ _ E1).
Qed.

Lemma appendScalar_thrown (b b' : BSONColumnBuilder C) (elem : BSONElement) :
  (let flushed :=
     if negb (Mode_eqb (_mode C b) kRegular) then _flushSubObjMode C depth b else Ok b in
   match flushed with
   | Ok b1 =>
       match EncodingState_append C depth (mainState C b1) elem with
       | Ok st => Ok (incrementElementCount C (set_state C b1 st))
       | Throw _ => Fatal
       | Fatal => Fatal
       | OutOfFuel => OutOfFuel
       end
   | other => other
   end) = Throw b' ->
  _elementCount C b' = _elementCount C b.
Proof.
  cbv zeta. destruct (negb (Mode_eqb (_mode C b) kRegular)).
  - destruct (_flushSubObjMode C depth b) as [b1|b1| |] eqn:E1; try discriminate.
    + destruct (EncodingState_append C depth (mainState C b1) elem); discriminate.
    + intros E. injection E as <-. exact (flushSubObjMode_thrown _ _ E1).
  - destruct (EncodingState_append C depth (mainState C b) elem); discriminate.
Qed.

End Thrown.

(** X14.  When BSONColumnBuilder::append throws, the element is not
    counted: the builder the exception leaves behind has the element count
    it had before the call. *)
Theorem append_thrown_count (C : Collaborators) (depth : nat)
    (b b' : BSONColumnBuilder C) (elem : BSONElement) :
  append C depth b elem = Throw b' ->
  _elementCount C b' = _elementCount C b.
Proof.
  unfold append.
  destruct (isMinOrMaxKey (elemType elem)); [intros E; now injection E as <-|].
  destruct (snd elem) as [| | |fields| | | | | | | | | | | | | | | | | |];
    try apply (appendScalar_thrown C depth b b' elem).
  destruct fields as [|f fs]; [apply (appendScalar_thrown C depth b b' elem)|].
  destruct (_mode C b).
  - destruct (_startDetermineSubObjReference C b (f :: fs)) as [b1|b1| |] eqn:E1;
      cbn [okCount]; try discriminate.
    intros E. injection E as <-.
    exact (startDetermineSubObjReference_thrown C _ _ _ E1).
  - apply appendDetermining_thrown.
  - destruct (_appendSubElements C depth b (f :: fs)) as [b1|b1| |] eqn:E1;
      cbn [okCount]; try discriminate.
    intros E. injection E as <-.
    exact (appendSubElements_thrown C depth _ _ _ E1).
Qed.

Lemma onThrow_Throw {A B : Type} (f : A -> B) (o : Outcome A) (x : B) :
  onThrow f o = Some x -> exists a, o = Throw a.
Proof. destruct o; try discriminate. intros _. now exists a. Qed.

(** An instance: {a: MinKey} appended while the reference {a: 1, b: 1} is
    being determined. *)
Lemma append_thrown_count_witness :
  onThrow (_elementCount Reference.collaborators)
          (append Reference.collaborators 0 Inputs.determining
                  (EmptyString, VObject [("a"%string, VMinKey)])) = Some 1
  /\ exists b',
       append Reference.collaborators 0 Inputs.determining
              (EmptyString, VObject [("a"%string, VMinKey)]) = Throw b'
       /\ _elementCount Reference.collaborators b'
          = _elementCount Reference.collaborators Inputs.determining.
Proof.
  assert (H : onThrow (_elementCount Reference.collaborators)
                (append Reference.collaborators 0 Inputs.determining
                        (EmptyString, VObject [("a"%string, VMinKey)])) = Some 1)
    by (vm_compute; reflexivity).
  split; [exact H|].
  destruct (onThrow_Throw _ _ _ H) as [b' E].
  exists b'. split; [exact E|].
  exact (append_thrown_count Reference.collaborators 0 Inputs.determining b'
           (EmptyString, VObject [("a"%string, VMinKey)]) E).
Defined.

(* ================================================================== *)
(** ** The interleaving writes every control block once *)
(* ================================================================== *)

Lemma heapMin_In (heap : list (Z * Z)) (top : Z * Z) :
  heapMin heap = Some top -> In top heap.
Proof.
  revert top. induction heap as [|x rest IH]; intros top; cbn [heapMin]; [discriminate|].
  destruct (heapMin rest) as [m|].
  - intros E. injection E as <-.
    destruct (heapLess x m); [now left | right; now apply IH].
  - intros E. injection E as <-. now left.
Qed.

Lemma heapRemove_Permutation (top : Z * Z) (heap : list (Z * Z)) :
  In top heap -> Permutation heap (top :: heapRemove top heap).
Proof.
  induction heap as [|y rest IH]; intros Hin; [contradiction|].
  cbn [heapRemove].
  destruct ((fst top =? fst y) && (snd top =? snd y)) eqn:E.
  - apply andb_true_iff in E. destruct E as [E1 E2].
    apply Z.eqb_eq in E1, E2. destruct top, y. cbn [fst snd] in *. subst.
    apply Permutation_refl.
  - destruct Hin as [-> | Hin].
    + rewrite !Z.eqb_refl in E. discriminate.
    + eapply perm_trans; [apply perm_skip, IH, Hin | apply perm_swap].
Qed.

Lemma replaceNth_same {A : Type} (l : list A) :
  forall (n : nat) (x y : A),
    nth_error l n = Some y -> nth_error (replaceNth n x l) n = Some x.
Proof.
  induction l as [|a rest IH]; intros [|n] x y H; cbn in H; try discriminate.
  - reflexivity.
  - cbn. exact (IH n x y H).
Qed.

Lemma replaceNth_other {A : Type} (l : list A) :
  forall (n m : nat) (x : A),
    n <> m -> nth_error (replaceNth n x l) m = nth_error l m.
Proof.
  induction l as [|a rest IH]; intros [|n] [|m] x H; cbn; try reflexivity.
  - now contradiction H.
  - apply IH. congruence.
Qed.

Lemma flat_map_agree {A B : Type} (f g : A -> list B) (l : list A) :
  (forall a, In a l -> f a = g a) -> flat_map f l = flat_map g l.
Proof.
  induction l as [|a rest IH]; intros H; [reflexivity|].
  cbn [flat_map]. rewrite (H a (or_introl eq_refl)), IH; [reflexivity|].
  intros a' Ha'. apply H. now right.
Qed.

Lemma heapBlocks_replaceNth (heap : list (Z * Z)) (buffers : list Sink)
    (n : nat) (slot : Sink) :
  ~ In n (map (fun h => Z.to_nat (snd h)) heap) ->
  heapBlocks heap (replaceNth n slot buffers) = heapBlocks heap buffers.
Proof.
  intros Hn. unfold heapBlocks. apply flat_map_agree.
  intros h Hh. rewrite replaceNth_other; [reflexivity|].
  intros ->. apply Hn. apply in_map_iff. now exists h.
Qed.

Section Interleaving.

Variable C : Collaborators.

(** The while loop of _flushSubObjMode appends to the main buffer the
    control blocks of the states on the heap, each one once. *)
Lemma interleaveLoop_blocks (fuel : nat) :
  forall heap buffers out out',
    NoDup (map (fun h => Z.to_nat (snd h)) heap) ->
    interleaveLoop C fuel heap buffers out = Ok out' ->
    exists order,
      Permutation order (heapBlocks heap buffers) /\ out' = out ++ List.concat order.
Proof.
  induction fuel as [|k IH]; intros heap buffers out out' Hnd; cbn [interleaveLoop].
  - destruct (heapMin heap) as [top|] eqn:Etop.
    + destruct (nth_error buffers _) as [slot|]; [|discriminate].
      destruct (snd slot) as [|[offset size] remaining]; discriminate.
    + intros E. injection E as <-. destruct heap as [|x rest].
      * exists []. split; [apply Permutation_refl | cbn; now rewrite app_nil_r].
      * cbn [heapMin] in Etop. destruct (heapMin rest); discriminate.
  - destruct (heapMin heap) as [top|] eqn:Etop.
    + destruct (nth_error buffers (Z.to_nat (snd top))) as [slot|] eqn:Eslot;
        [|discriminate].
      destruct (snd slot) as [|[offset size] remaining] eqn:Erec; [discriminate|].
      pose proof (heapRemove_Permutation top heap (heapMin_In _ _ Etop)) as Hperm.
      assert (Hnd' : NoDup (map (fun h => Z.to_nat (snd h)) (top :: heapRemove top heap)))
        by (eapply Permutation_NoDup; [apply Permutation_map, Hperm | exact Hnd]).
      cbn [map] in Hnd'. apply NoDup_cons_iff in Hnd'. destruct Hnd' as [Hnotin Hnd'].
      assert (Hblocks : Permutation (heapBlocks heap buffers)
                (slice (fst slot) offset size
                 :: controlBlocks (fst slot, remaining)
                    ++ heapBlocks (heapRemove top heap)
                         (replaceNth (Z.to_nat (snd top)) (fst slot, remaining) buffers))).
      { rewrite heapBlocks_replaceNth by exact Hnotin.
        eapply perm_trans; [apply Permutation_flat_map, Hperm|].
        cbn [flat_map]. rewrite Eslot. unfold controlBlocks at 1. rewrite Erec.
        cbn [map fst snd]. apply Permutation_refl. }
      destruct remaining as [|r rs]; intros E; apply IH in E.
      * destruct E as [order [Ho ->]].
        exists (slice (fst slot) offset size :: order). split.
        -- eapply perm_trans; [apply perm_skip, Ho|]. apply Permutation_sym.
           exact Hblocks.
        -- cbn [List.concat]. now rewrite <- app_assoc.
      * exact Hnd'.
      * destruct E as [order [Ho ->]].
        exists (slice (fst slot) offset size :: order). split.
        -- eapply perm_trans; [apply perm_skip, Ho|]. apply Permutation_sym.
           eapply perm_trans; [exact Hblocks|]. apply perm_skip.
           unfold heapBlocks at 2. cbn [flat_map snd].
           rewrite (replaceNth_same buffers _ _ slot Eslot). apply Permutation_refl.
        -- cbn [List.concat]. now rewrite <- app_assoc.
      * cbn [map snd]. apply NoDup_cons; assumption.
    + intros E. injection E as <-. destruct heap as [|x rest].
      * exists []. split; [apply Permutation_refl | cbn; now rewrite app_nil_r].
      * cbn [heapMin] in Etop. destruct (heapMin rest); discriminate.
Qed.

End Interleaving.

(** The control blocks of the states 0 .. n-1 are those of all the
    buffers, in the order of the buffers. *)
Lemma heapBlocks_all (buffers : list Sink) :
  forall (start n : nat),
    (List.length buffers <= n)%nat ->
    flat_map (fun i => match nth_error buffers (i - start) with
                       | Some slot => controlBlocks slot
                       | None => []
                       end) (seq start n)
    = flat_map controlBlocks buffers.
Proof.
  induction buffers as [|slot rest IH]; intros start n Hn.
  - cbn [flat_map]. induction (seq start n) as [|i l IHl]; [reflexivity|].
    cbn [flat_map]. rewrite IHl. now destruct (i - start)%nat.
  - destruct n as [|n]; [cbn in Hn; lia|].
    cbn [seq flat_map]. rewrite Nat.sub_diag. cbn [nth_error]. f_equal.
    rewrite <- (IH (S start) n) by (cbn in Hn; lia).
    apply flat_map_agree. intros i Hi. apply in_seq in Hi.
    replace (i - start)%nat with (S (i - S start)) by lia. reflexivity.
Qed.

Lemma heapBlocks_initial (buffers : list Sink) (n : nat) :
  (List.length buffers <= n)%nat ->
  heapBlocks (map (fun i => (0, Z.of_nat i)) (seq 0 n)) buffers
  = flat_map controlBlocks buffers.
Proof.
  intros Hn. rewrite <- (heapBlocks_all buffers 0 n Hn).
  unfold heapBlocks. rewrite !flat_map_concat_map, map_map. f_equal.
  apply map_ext. intros i. cbn [snd]. now rewrite Nat2Z.id, Nat.sub_0_r.
Qed.

(** X15.  _flushSubObjMode in mode kSubObjAppending: when it returns, what
    it has appended to the main buffer is the control blocks that the
    flushed states have recorded, every one of them once, in some order,
    and then EOO.  No control block is lost or written twice by the
    interleaving. *)
Theorem flushSubObjMode_blocks (C : Collaborators) (depth : nat)
    (b b' : BSONColumnBuilder C) :
  _mode C b = kSubObjAppending ->
  _flushSubObjMode C depth b = Ok b' ->
  exists order,
    Permutation order
      (flat_map controlBlocks
         (map snd (map (EncodingState_flush C)
                       (combine (_subobjStates C b) (_subobjBuffers C b)))))
    /\ _bufBuilder C b' = _bufBuilder C b ++ List.concat order ++ [typeCode EOO].
Proof.
  intros Hm. unfold _flushSubObjMode. rewrite Hm. cbn [Mode_eqb].
  unfold flushSubObjStates.
  destruct (interleaveLoop C _ _ _ _) as [out| | |] eqn:E1; try discriminate.
  intros E. injection E as <-.
  apply interleaveLoop_blocks in E1.
  - destruct E1 as [order [Ho ->]]. exists order. split.
    + rewrite heapBlocks_initial in Ho; [exact Ho|].
      rewrite !length_map, length_combine. apply Nat.le_min_r.
    + cbn [_bufBuilder set_mode set_subobj set_bufBuilder]. now rewrite <- app_assoc.
  - rewrite map_map. cbn [snd].
    rewrite (map_ext _ (fun i => i)) by (intros i; apply Nat2Z.id).
    rewrite map_id. apply seq_NoDup.
Qed.

(** An instance: the states set up from the buffered object
    {a: 1, b: 1}. *)
Lemma flushSubObjMode_blocks_witness :
  returned (andThen (_finishDetermineSubObjReference Reference.collaborators 0
                       Inputs.determining)
                    (_flushSubObjMode Reference.collaborators 0)) = true
  /\ exists b b',
       _finishDetermineSubObjReference Reference.collaborators 0 Inputs.determining = Ok b
       /\ _flushSubObjMode Reference.collaborators 0 b = Ok b'
       /\ exists order,
            Permutation order
              (flat_map controlBlocks
                 (map snd (map (EncodingState_flush Reference.collaborators)
                               (combine (_subobjStates Reference.collaborators b)
                                        (_subobjBuffers Reference.collaborators b)))))
            /\ _bufBuilder Reference.collaborators b'
               = _bufBuilder Reference.collaborators b
                 ++ List.concat order ++ [typeCode EOO].
Proof.
  assert (H : returned (andThen (_finishDetermineSubObjReference Reference.collaborators 0
                                   Inputs.determining)
                                (_flushSubObjMode Reference.collaborators 0)) = true)
    by (vm_compute; reflexivity).
  assert (Hm : onOk (_mode Reference.collaborators)
                    (_finishDetermineSubObjReference Reference.collaborators 0
                       Inputs.determining) = Some kSubObjAppending)
    by (vm_compute; reflexivity).
  split; [exact H|].
  destruct (_finishDetermineSubObjReference Reference.collaborators 0 Inputs.determining)
    as [b| | |]; try discriminate H.
  cbn [andThen] in H. cbn [onOk] in Hm. injection Hm as Hm.
  destruct (returned_Ok _ H) as [b' E].
  exists b, b'. split; [reflexivity|]. split; [exact E|].
  exact (flushSubObjMode_blocks Reference.collaborators 0 b b' Hm E).
Defined.

(* ================================================================== *)
(** ** The empty object against a reference *)
(* ================================================================== *)

Lemma lockStepLoop_nothing (descend : BSONValue -> BSONObj -> Calls * BSONObj * bool)
    (refs : BSONObj) :
  (forall field, ~ In (field, VObject []) refs) ->
  forall acc, lockStepLoop descend refs [] acc = (acc ++ _traverse refs, [], true).
Proof.
  unfold _traverse.
  induction refs as [|[name v] refs' IH]; intros Hno acc; cbn [lockStepLoop flat_map].
  - now rewrite app_nil_r.
  - assert (Hno' : forall field, ~ In (field, VObject []) refs')
      by (intros field Hin; apply (Hno field); now right).
    cbn [fst snd].
    destruct v; try (rewrite (IH Hno'), <- app_assoc; reflexivity).
    match goal with
    | |- context [isEmpty ?fields] => destruct fields as [|f fs]
    end.
    + exfalso. apply (Hno name). now left.
    + cbn [isEmpty]. now rewrite (IH Hno'), <- app_assoc.
Qed.

(** X16.  The empty object, which is what skip() buffers while the
    reference is being determined, against a reference without an empty
    sub-object among its fields: traverseLockStep returns true and makes
    the calls of _traverse, one per leaf of the reference, each with
    BSONElement() as the second element. *)
Theorem traverseLockStep_nothing (reference : BSONObj) :
  (forall field, ~ In (field, VObject []) reference) ->
  traverseLockStep reference [] = (_traverse reference, true).
Proof.
  intros Hno. unfold traverseLockStep, _traverseLockStep. cbn [lockStepValue].
  now rewrite (lockStepLoop_nothing lockStepValue reference Hno []).
Qed.

(** An instance: the reference {a: 1, b: {c: 2}}. *)
Lemma traverseLockStep_nothing_witness :
  traverseLockStep [("a"%string, VInt 1);
                    ("b"%string, VObject [("c"%string, VInt 2)])] []
  = (_traverse [("a"%string, VInt 1);
                ("b"%string, VObject [("c"%string, VInt 2)])], true).
Proof.
  apply traverseLockStep_nothing.
  intros field [H | [H | H]]; [discriminate H | discriminate H | exact H].
Defined.

(* ================================================================== *)
(** ** The element count after rejected appends *)
(* ================================================================== *)

Section Rejected.

Variable C : Collaborators.
Variable depth : nat.











End Rejected.



